(** * BlueCrypt core: a shallow embedding of [bluecrypt_core.py]

    The development follows the module top to bottom: byte strings and
    Python integers, the exceptions the module raises, the secret-file
    envelope, the AES-GCM framing, the 2:2:4 channel codec, the embedding
    and extraction over a pixel buffer held in a store, and the PSNR
    metric. *)

From Stdlib Require Import ZArith List Lia Bool Ascii String QArith Reals.
From Stdlib Require Import Lra.
From stdpp Require Import base numbers list.

Local Open Scope Z_scope.

(** ** Bytes and Python integers *)

(** A byte string is a list of integers; [is_bytes] says each one is a
    byte value.  [len] is Python's [len], an unbounded integer. *)
Definition bytes := list Z.

Definition is_byte (b : Z) : Prop := 0 <= b < 256.
Definition is_bytes (bs : bytes) : Prop := Forall is_byte bs.

Definition len {A} (l : list A) : Z := Z.of_nat (length l).

(** [astype(np.uint8)] and every store into a [uint8] array wrap modulo 256. *)
Definition uint8 (z : Z) : Z := z mod 256.

(** Module constants. *)
Definition MAGIC : bytes := [66; 67; 80; 49].   (* b"BCP1" *)
Definition NONCE_LEN : Z := 12.
Definition TAG_LEN : Z := 16.
Definition HEADER_LEN : Z := 4.

(** ** Exceptions *)

(** Every [BlueCryptError] the module raises, one constructor per raise
    site, named after the condition; the message is in the comment. *)
Inductive BlueCryptError : Type :=
  | EmptyPassword          (* "Password is required." *)
  | EmptySecret            (* "Secret file is empty." *)
  | NameTooLong            (* "Filename is too long." *)
  | EnvelopeTooShort       (* "Extracted data is too short." *)
  | BadMagic               (* "Invalid payload format." *)
  | Corrupted              (* "Corrupted extracted payload." *)
  | EmptyData              (* "Extracted file content is empty." *)
  | TooShort               (* "Encrypted payload is too short." *)
  | AuthenticationFailed   (* "Decryption failed. Wrong password or tampered stego image." *)
  | EmptyPayload           (* "Encrypted payload is empty." *)
  | CapacityExceeded (need available : Z)
                           (* "Insufficient image capacity. Need {need} bytes, but only {available} bytes available." *)
  | ImageTooSmall          (* "Image is too small to contain BlueCrypt header." *)
  | InvalidPayload         (* "Stego image does not contain a valid BlueCrypt payload." *)
  | DimensionMismatch.     (* "PSNR requires images of identical dimensions." *)

(** Exceptions of the interpreter and of the libraries that the module
    does not catch. *)
Inductive exn : Type :=
  | BlueCrypt (e : BlueCryptError)
  | OverflowError
  | ValueError
  | UnicodeEncodeError.

Inductive result (A : Type) : Type :=
  | Ok (a : A)
  | Raise (e : exn).
Arguments Ok {A} a.
Arguments Raise {A} e.

Definition rbind {A B} (r : result A) (k : A -> result B) : result B :=
  match r with
  | Ok a => k a
  | Raise e => Raise e
  end.

Definition succeeds {A} (r : result A) : Prop := exists a, r = Ok a.

(** ** [int.to_bytes] and [int.from_bytes], big-endian *)

Fixpoint be_digits (n : nat) (z : Z) : bytes :=
  match n with
  | O => []
  | S k => be_digits k (z / 256) ++ [z mod 256]
  end.

(** [z.to_bytes(n, "big")] for an unsigned [z]: [OverflowError] when [z]
    is negative or does not fit in [n] bytes. *)
Definition int_to_bytes (z : Z) (n : nat) : result bytes :=
  if (z <? 0) || (256 ^ Z.of_nat n <=? z) then Raise OverflowError
  else Ok (be_digits n z).

(** [int.from_bytes(bs, "big")]. *)
Definition int_from_bytes (bs : bytes) : Z :=
  fold_left (fun acc b => acc * 256 + b) bs 0.

(** Python slicing [l[a:b]] for non-negative bounds. *)
Definition slice {A} (l : list A) (a b : Z) : list A :=
  take (Z.to_nat (b - a)) (drop (Z.to_nat a) l).

(** ** Text: [str], UTF-8, [strip] and [os.path.basename] *)


(** A Python [str] is a sequence of code points. *)
Definition str := list Z.

Definition py_str (s : string) : str :=
  map (fun a => Z.of_N (N_of_ascii a)) (list_ascii_of_string s).

(** [s.encode("utf-8")]: one to four bytes per code point; a surrogate
    (U+D800..U+DFFF) cannot be encoded. *)
Definition utf8_encode_cp (c : Z) : result bytes :=
  if c <? 0 then Raise ValueError
  else if c <? 0x80 then Ok [c]
  else if c <? 0x800 then Ok [0xC0 + c / 64; 0x80 + c mod 64]
  else if c <? 0x10000 then
    if (0xD800 <=? c) && (c <? 0xE000) then Raise UnicodeEncodeError
    else Ok [0xE0 + c / 4096; 0x80 + (c / 64) mod 64; 0x80 + c mod 64]
  else if c <? 0x110000 then
    Ok [0xF0 + c / 262144; 0x80 + (c / 4096) mod 64;
        0x80 + (c / 64) mod 64; 0x80 + c mod 64]
  else Raise ValueError.

Fixpoint utf8_encode (s : str) : result bytes :=
  match s with
  | [] => Ok []
  | c :: s' =>
      rbind (utf8_encode_cp c) (fun bs =>
      rbind (utf8_encode s') (fun rest => Ok (bs ++ rest)))
  end.

Definition REPLACEMENT : Z := 0xFFFD.

Definition is_continuation (b : Z) : bool := (0x80 <=? b) && (b <? 0xC0).

(** [bs.decode("utf-8", errors="replace")]: the decoder of CPython.  An
    invalid start byte is replaced alone, an invalid continuation byte
    ends the sequence before it (the bytes read so far are replaced by one
    U+FFFD and decoding resumes at the offending byte), and a sequence cut
    short by the end of the input is replaced as a whole. *)
Fixpoint utf8_decode (bs : bytes) : str :=
  match bs with
  | [] => []
  | b1 :: t1 =>
    if b1 <? 0x80 then b1 :: utf8_decode t1
    else if b1 <? 0xC2 then REPLACEMENT :: utf8_decode t1
    else if b1 <? 0xE0 then
      match t1 with
      | [] => [REPLACEMENT]
      | b2 :: t2 =>
        if is_continuation b2
        then ((b1 - 0xC0) * 64 + (b2 - 0x80)) :: utf8_decode t2
        else REPLACEMENT :: utf8_decode t1
      end
    else if b1 <? 0xF0 then
      match t1 with
      | [] => [REPLACEMENT]
      | b2 :: t2 =>
        if negb (is_continuation b2)
           || (if b2 <? 0xA0 then b1 =? 0xE0 else b1 =? 0xED)
        then REPLACEMENT :: utf8_decode t1
        else
          match t2 with
          | [] => [REPLACEMENT]
          | b3 :: t3 =>
            if is_continuation b3
            then ((b1 - 0xE0) * 4096 + (b2 - 0x80) * 64 + (b3 - 0x80))
                   :: utf8_decode t3
            else REPLACEMENT :: utf8_decode t2
          end
      end
    else if b1 <? 0xF5 then
      match t1 with
      | [] => [REPLACEMENT]
      | b2 :: t2 =>
        if negb (is_continuation b2)
           || (if b2 <? 0x90 then b1 =? 0xF0 else b1 =? 0xF4)
        then REPLACEMENT :: utf8_decode t1
        else
          match t2 with
          | [] => [REPLACEMENT]
          | b3 :: t3 =>
            if negb (is_continuation b3)
            then REPLACEMENT :: utf8_decode t2
            else
              match t3 with
              | [] => [REPLACEMENT]
              | b4 :: t4 =>
                if is_continuation b4
                then ((b1 - 0xF0) * 262144 + (b2 - 0x80) * 4096
                      + (b3 - 0x80) * 64 + (b4 - 0x80)) :: utf8_decode t4
                else REPLACEMENT :: utf8_decode t3
              end
          end
      end
    else REPLACEMENT :: utf8_decode t1
  end.

(** [str.isspace] on one code point: the characters [str.strip()] removes. *)
Definition isspace (c : Z) : bool :=
  ((0x09 <=? c) && (c <=? 0x0D)) || ((0x1C <=? c) && (c <=? 0x20))
  || (c =? 0x85) || (c =? 0xA0) || (c =? 0x1680)
  || ((0x2000 <=? c) && (c <=? 0x200A))
  || (c =? 0x2028) || (c =? 0x2029) || (c =? 0x202F) || (c =? 0x205F)
  || (c =? 0x3000).

Fixpoint lstrip (s : str) : str :=
  match s with
  | [] => []
  | c :: s' => if isspace c then lstrip s' else s
  end.

(** Trailing whitespace: a character is dropped when it is white and
    nothing is kept after it. *)
Fixpoint rstrip (s : str) : str :=
  match s with
  | [] => []
  | c :: s' =>
    match rstrip s' with
    | [] => if isspace c then [] else [c]
    | kept => c :: kept
    end
  end.

Definition strip (s : str) : str := rstrip (lstrip s).

(** [posixpath.basename]: what follows the last slash. *)
Definition SLASH : Z := 47.

Fixpoint basename (p : str) : str :=
  match p with
  | [] => []
  | c :: p' =>
    if existsb (Z.eqb SLASH) p' then basename p'
    else if c =? SLASH then p' else p
  end.

(** Python's [x or d] on strings. *)
Definition str_or (s d : str) : str :=
  match s with [] => d | _ => s end.

(** ** SecretEnvelope *)

Record SecretFile := { filename : str; data : bytes }.

Definition bytes_eqb (a b : bytes) : bool :=
  bool_decide (a = b).

(** The name written into the envelope: [os.path.basename(filename or "").strip() or "secret.bin"]. *)
Definition clean_name (filename : str) : str :=
  str_or (strip (basename (str_or filename []))) (py_str "secret.bin").

Definition package_secret_file (filename : str) (data : bytes) : result bytes :=
  match data with
  | [] => Raise (BlueCrypt EmptySecret)
  | _ =>
    rbind (utf8_encode (clean_name filename)) (fun name_bytes =>
    if 65535 <? len name_bytes then Raise (BlueCrypt NameTooLong)
    else
      rbind (int_to_bytes (len name_bytes) 2) (fun name_len =>
      Ok (MAGIC ++ name_len ++ name_bytes ++ data)))
  end.

Definition unpackage_secret_file (payload : bytes) : result SecretFile :=
  if len payload <? len MAGIC + 2 then Raise (BlueCrypt EnvelopeTooShort)
  else if negb (bytes_eqb (slice payload 0 (len MAGIC)) MAGIC)
  then Raise (BlueCrypt BadMagic)
  else
    let name_len_offset := len MAGIC in
    let name_len :=
      int_from_bytes (slice payload name_len_offset (name_len_offset + 2)) in
    let data_offset := name_len_offset + 2 + name_len in
    if len payload <? data_offset then Raise (BlueCrypt Corrupted)
    else
      let name_bytes := slice payload (name_len_offset + 2) data_offset in
      let filename :=
        str_or (strip (utf8_decode name_bytes)) (py_str "extracted_secret.bin") in
      let data := drop (Z.to_nat data_offset) payload in
      match data with
      | [] => Raise (BlueCrypt EmptyData)
      | _ => Ok {| filename := filename; data := data |}
      end.

(** ** KeyDerivation and AeadCipher *)

(** The hash and the cipher come from PyCryptodome.  They are taken as
    interfaces with the properties the module relies on: a 32-byte
    digest; a ciphertext as long as the plaintext, a 16-byte tag, and
    decryption undoing encryption under the same key and nonce. *)
Class Sha256 := {
  sha256_digest : bytes -> bytes;
  sha256_digest_len : forall m, len (sha256_digest m) = 32
}.

Class AesGcm := {
  (* key, nonce, plaintext: ciphertext and tag *)
  encrypt_and_digest : bytes -> bytes -> bytes -> bytes * bytes;
  (* key, nonce, ciphertext, tag: the plaintext, or [None] for the
     [ValueError] of a failed MAC check *)
  decrypt_and_verify : bytes -> bytes -> bytes -> bytes -> option bytes;
  ciphertext_len : forall key nonce pt,
    len (fst (encrypt_and_digest key nonce pt)) = len pt;
  tag_len : forall key nonce pt,
    len (snd (encrypt_and_digest key nonce pt)) = TAG_LEN;
  decrypt_encrypt : forall key nonce pt,
    decrypt_and_verify key nonce
      (fst (encrypt_and_digest key nonce pt))
      (snd (encrypt_and_digest key nonce pt)) = Some pt
}.

(** The cipher object of [AES.new(key, AES.MODE_GCM, nonce=nonce)]:
    [ValueError] for a key that is not 16, 24 or 32 bytes long and for an
    empty nonce. *)
Record GcmCipher := { gcm_key : bytes; gcm_nonce : bytes }.

Definition AES_new (key nonce : bytes) : result GcmCipher :=
  if negb ((len key =? 16) || (len key =? 24) || (len key =? 32))
  then Raise ValueError
  else match nonce with
       | [] => Raise ValueError
       | _ => Ok {| gcm_key := key; gcm_nonce := nonce |}
       end.

Definition derive_key `{Sha256} (password : str) : result bytes :=
  match password with
  | [] => Raise (BlueCrypt EmptyPassword)
  | _ => rbind (utf8_encode password) (fun encoded => Ok (sha256_digest encoded))
  end.

(** [nonce] is the value [get_random_bytes(NONCE_LEN)] returned. *)
Definition encrypt_payload `{AesGcm} (nonce : bytes) (plaintext key : bytes)
  : result bytes :=
  rbind (AES_new key nonce) (fun cipher =>
  let '(ciphertext, tag) :=
    encrypt_and_digest (gcm_key cipher) (gcm_nonce cipher) plaintext in
  Ok (nonce ++ tag ++ ciphertext)).

Definition decrypt_payload `{AesGcm} (encrypted key : bytes) : result bytes :=
  let min_size := NONCE_LEN + TAG_LEN in
  if len encrypted <=? min_size then Raise (BlueCrypt TooShort)
  else
    let nonce := slice encrypted 0 NONCE_LEN in
    let tag := slice encrypted NONCE_LEN (NONCE_LEN + TAG_LEN) in
    let ciphertext := drop (Z.to_nat (NONCE_LEN + TAG_LEN)) encrypted in
    rbind (AES_new key nonce) (fun cipher =>
    match decrypt_and_verify (gcm_key cipher) (gcm_nonce cipher) ciphertext tag with
    | Some plaintext => Ok plaintext
    | None => Raise (BlueCrypt AuthenticationFailed)
    end).

(** ** Pixel buffers, images and the store *)

Abbreviation pixel := (Z * Z * Z)%type.

Inductive channel := Red | Green | Blue.

Definition get_channel (c : channel) (p : pixel) : Z :=
  match c, p with
  | Red, (r, _, _) => r
  | Green, (_, g, _) => g
  | Blue, (_, _, b) => b
  end.

(** A store into one channel of a [uint8] array. *)
Definition set_channel (c : channel) (v : Z) (p : pixel) : pixel :=
  match c, p with
  | Red, (_, g, b) => (uint8 v, g, b)
  | Green, (r, _, b) => (r, uint8 v, b)
  | Blue, (r, g, _) => (r, g, uint8 v)
  end.

(** Pixel buffers live in a store; images and arrays are references into
    it, so that what a call writes and what it leaves alone can be told
    apart.  A buffer is the row-major sequence of the pixels: the
    [reshape(-1, 3)] view of the array. *)
Abbreviation loc := nat (only parsing).
Abbreviation heap := (list (list pixel)) (only parsing).

Record Image := { im_width : Z; im_height : Z; im_data : loc }.

Abbreviation ndarray := nat (only parsing).

Definition buffer (h : heap) (l : loc) : list pixel := default [] (h !! l).

(** State and exceptions. *)
Definition M (A : Type) : Type := heap -> result (A * heap).

Definition ret {A} (a : A) : M A := fun h => Ok (a, h).
Definition raise {A} (e : exn) : M A := fun _ => Raise e.
Definition lift {A} (r : result A) : M A :=
  fun h => match r with Ok a => Ok (a, h) | Raise e => Raise e end.
Definition bind {A B} (m : M A) (k : A -> M B) : M B :=
  fun h => match m h with
           | Ok (a, h') => k a h'
           | Raise e => Raise e
           end.

Notation "x <- m ;; k" := (bind m (fun x => k))
  (at level 100, m at next level, right associativity).
Notation "m ;;; k" := (bind m (fun _ => k))
  (at level 100, right associativity).

Definition alloc (px : list pixel) : M loc :=
  fun h => Ok (length h, h ++ [px]).
Definition load (l : loc) : M (list pixel) :=
  fun h => Ok (buffer h l, h).
Definition store (l : loc) (px : list pixel) : M unit :=
  fun h => Ok (tt, <[l := px]> h).

(** [image.convert("RGB")] on an RGB image: a copy. *)
Definition convert_RGB (image : Image) : M Image :=
  px <- load (im_data image) ;;
  l <- alloc px ;;
  ret {| im_width := im_width image; im_height := im_height image; im_data := l |}.

(** [np.array(image, dtype=np.uint8).reshape(-1, 3)]: a new array. *)
Definition np_array (image : Image) : M ndarray :=
  px <- load (im_data image) ;;
  alloc px.

(** [Image.fromarray(pixels.reshape(height, width, 3), mode="RGB")]:
    [reshape] raises [ValueError] when the sizes disagree. *)
Definition Image_fromarray (pixels : ndarray) (height width : Z) : M Image :=
  px <- load pixels ;;
  if negb (len px =? height * width) then raise ValueError
  else
    l <- alloc px ;;
    ret {| im_width := width; im_height := height; im_data := l |}.

(** NumPy broadcasting of one-dimensional operands. *)
Definition broadcast_to (n : nat) (xs : list Z) : result (list Z) :=
  if (length xs =? n)%nat then Ok xs
  else match xs with
       | [x] => Ok (replicate n x)
       | _ => Raise ValueError
       end.

Definition np_binop (f : Z -> Z -> Z) (xs ys : list Z) : result (list Z) :=
  let n := if (length xs =? 1)%nat then length ys else length xs in
  rbind (broadcast_to n xs) (fun xs' =>
  rbind (broadcast_to n ys) (fun ys' =>
  Ok (zip_with f xs' ys'))).

(** [pixels[:count, c]] *)
Definition column (count : nat) (c : channel) (px : list pixel) : list Z :=
  map (get_channel c) (take count px).

(** [pixels[:count, c] = values] *)
Definition assign_column (pixels : ndarray) (count : nat) (c : channel)
    (values : list Z) : M unit :=
  px <- load pixels ;;
  vs <- lift (broadcast_to (length (take count px)) values) ;;
  store pixels (zip_with (set_channel c) vs (take count px) ++ drop count px).

(** ** ChannelCodec *)

Definition _bytes_to_224_channels (data : bytes) : list Z * list Z * list Z :=
  let red_bits := map (fun d => Z.land (Z.shiftr d 6) 0x03) data in
  let green_bits := map (fun d => Z.land (Z.shiftr d 4) 0x03) data in
  let blue_bits := map (fun d => Z.land d 0x0F) data in
  (map uint8 red_bits, map uint8 green_bits, map uint8 blue_bits).

Definition _channels_to_bytes (pixels : list pixel) : bytes :=
  let red_bits := map (fun p => Z.shiftl (Z.land (get_channel Red p) 0x03) 6) pixels in
  let green_bits := map (fun p => Z.shiftl (Z.land (get_channel Green p) 0x03) 4) pixels in
  let blue_bits := map (fun p => Z.land (get_channel Blue p) 0x0F) pixels in
  map uint8 (zip_with Z.lor (zip_with Z.lor red_bits green_bits) blue_bits).

(** ** StegoEngine *)

Definition max_embeddable_payload_bytes (image : Image) : Z :=
  let '(width, height) := (im_width image, im_height image) in
  Z.max (width * height - HEADER_LEN) 0.

(** [pixels[:count, c] = (pixels[:count, c] & mask) | bits] *)
Definition replace_low_bits (pixels : ndarray) (count : nat) (c : channel)
    (mask : Z) (bits : list Z) : M unit :=
  px <- load pixels ;;
  values <- lift (np_binop Z.lor
                    (map (fun v => Z.land v mask) (column count c px)) bits) ;;
  assign_column pixels count c values.

Definition embed_encrypted_data (cover_image : Image) (encrypted_payload : bytes)
  : M Image :=
  match encrypted_payload with
  | [] => raise (BlueCrypt EmptyPayload)
  | _ =>
    let capacity := max_embeddable_payload_bytes cover_image in
    if capacity <? len encrypted_payload
    then raise (BlueCrypt (CapacityExceeded (len encrypted_payload) capacity))
    else
      rgb_image <- convert_RGB cover_image ;;
      pixels <- np_array rgb_image ;;
      header <- lift (int_to_bytes (len encrypted_payload) (Z.to_nat HEADER_LEN)) ;;
      let payload := header ++ encrypted_payload in
      let '(red_bits, green_bits, blue_bits) := _bytes_to_224_channels payload in
      let count := length payload in
      replace_low_bits pixels count Red 0xFC red_bits ;;;
      replace_low_bits pixels count Green 0xFC green_bits ;;;
      replace_low_bits pixels count Blue 0xF0 blue_bits ;;;
      Image_fromarray pixels (im_height rgb_image) (im_width rgb_image)
  end.

Definition extract_encrypted_data (stego_image : Image) : M bytes :=
  rgb_image <- convert_RGB stego_image ;;
  pixels <- np_array rgb_image ;;
  px <- load pixels ;;
  if len px <=? HEADER_LEN then raise (BlueCrypt ImageTooSmall)
  else
    let header_bytes := _channels_to_bytes (slice px 0 HEADER_LEN) in
    let data_len := int_from_bytes header_bytes in
    let max_data_len := len px - HEADER_LEN in
    if (data_len <=? 0) || (max_data_len <? data_len)
    then raise (BlueCrypt InvalidPayload)
    else
      let payload_pixels := slice px HEADER_LEN (HEADER_LEN + data_len) in
      ret (_channels_to_bytes payload_pixels).

(** ** QualityMetric *)

(** The [float] a call returns.  The arithmetic of [float64] is read over
    the reals, as the formula is meant; [nan] and [inf] are kept apart. *)
Inductive pyfloat : Type :=
  | Finite (x : R)
  | PosInf
  | NaN.

(** The array of all channel values of a buffer, in order. *)
Definition channel_values (px : list pixel) : list Z :=
  concat (map (fun p => [get_channel Red p; get_channel Green p; get_channel Blue p]) px).

(** [np.mean] of an array of integers held as [float64]: the exact mean,
    and [nan] ([None]) for an empty array. *)
Definition np_mean (xs : list Z) : option Q :=
  match xs with
  | [] => None
  | _ => Some (Qmake (fold_right Z.add 0 xs) (Pos.of_nat (length xs)))
  end.

Definition log10 (x : R) : R := (ln x / ln 10)%R.

(** Both arrays have the shape of the common size, so the subtraction is
    element by element.  With [mse] a [nan], [mse == 0] is false and
    [sqrt], the division, [log10] and the product all return [nan]. *)
Definition calculate_psnr (image_a image_b : Image) : M pyfloat :=
  if negb ((im_width image_a =? im_width image_b)
           && (im_height image_a =? im_height image_b))
  then raise (BlueCrypt DimensionMismatch)
  else
    rgb_a <- convert_RGB image_a ;;
    arr_a <- np_array rgb_a ;;
    rgb_b <- convert_RGB image_b ;;
    arr_b <- np_array rgb_b ;;
    pa <- load arr_a ;;
    pb <- load arr_b ;;
    diff <- lift (np_binop Z.sub (channel_values pa) (channel_values pb)) ;;
    match np_mean (map (fun d => d ^ 2) diff) with
    | None => ret NaN
    | Some mse =>
      if Qeq_bool mse 0 then ret PosInf
      else ret (Finite (20 * log10 (255 / sqrt (Q2R mse)))%R)
    end.

(** ** Well-formed images and the pixel-level reading of the embedding *)

Definition is_byteb (b : Z) : bool := (0 <=? b) && (b <? 256).

Definition is_pixelb (p : pixel) : bool :=
  is_byteb (get_channel Red p) && is_byteb (get_channel Green p)
  && is_byteb (get_channel Blue p).

(** An image of the store: non-negative dimensions, a live buffer of
    [width * height] pixels, every channel a byte. *)
Definition wf_imageb (h : heap) (image : Image) : bool :=
  (0 <=? im_width image) && (0 <=? im_height image)
  && match h !! im_data image with
     | Some px =>
         (len px =? im_width image * im_height image) && forallb is_pixelb px
     | None => false
     end.

Definition wf_image (h : heap) (image : Image) : Prop :=
  wf_imageb h image = true.

(** What the three column assignments do to one pixel, for the payload
    byte [b] that falls on it. *)
Definition embed_pixel (b : Z) (p : pixel) : pixel :=
  match p with
  | (r, g, bl) =>
    (Z.lor (Z.land r 0xFC) (Z.land (Z.shiftr b 6) 0x03),
     Z.lor (Z.land g 0xFC) (Z.land (Z.shiftr b 4) 0x03),
     Z.lor (Z.land bl 0xF0) (Z.land b 0x0F))
  end.

(** The byte stream that is hidden: the 4-byte length, then the blob. *)
Definition stream (blob : bytes) : bytes :=
  be_digits (Z.to_nat HEADER_LEN) (len blob) ++ blob.

(** The value a call returned, without the store. *)
Definition value {A} (r : result (A * heap)) : result A :=
  match r with
  | Ok (a, _) => Ok a
  | Raise e => Raise e
  end.

(** One pixel of [_channels_to_bytes]. *)
Definition decode_pixel (p : pixel) : Z :=
  uint8 (Z.lor (Z.lor (Z.shiftl (Z.land (get_channel Red p) 0x03) 6)
                      (Z.shiftl (Z.land (get_channel Green p) 0x03) 4))
               (Z.land (get_channel Blue p) 0x0F)).

(** One of the three column assignments, on one pixel. *)
Definition low_bits_step (c : channel) (mask : Z) (g : Z -> Z) (b : Z) (p : pixel) : pixel :=
  set_channel c (Z.lor (Z.land (get_channel c p) mask) (uint8 (g b))) p.

(** The buffer after the three assignments: the first pixels carry the
    payload, the others are as before. *)
Definition stego_pixels (px : list pixel) (payload : bytes) : list pixel :=
  zip_with embed_pixel payload (take (length payload) px)
  ++ drop (length payload) px.

(** Where the bits of a pixel of the stego image come from. *)
Definition bits_224 (b : Z) (p p' : pixel) : Prop :=
  (forall j, 0 <= j < 2 ->
     Z.testbit (get_channel Red p') j = Z.testbit b (j + 6)
     /\ Z.testbit (get_channel Green p') j = Z.testbit b (j + 4))
  /\ (forall j, 0 <= j < 4 -> Z.testbit (get_channel Blue p') j = Z.testbit b j)
  /\ (forall j, 2 <= j < 8 ->
        Z.testbit (get_channel Red p') j = Z.testbit (get_channel Red p) j
        /\ Z.testbit (get_channel Green p') j = Z.testbit (get_channel Green p) j)
  /\ (forall j, 4 <= j < 8 ->
        Z.testbit (get_channel Blue p') j = Z.testbit (get_channel Blue p) j).

(** The sum of the squared channel differences of two buffers, and their
    mean squared error. *)
Definition squared_error (pa pb : list pixel) : Z :=
  fold_right Z.add 0
    (zip_with (fun x y => (x - y) ^ 2) (channel_values pa) (channel_values pb)).

Definition mean_squared_error (pa pb : list pixel) : Q :=
  Qmake (squared_error pa pb) (Pos.of_nat (3 * length pa)).

(** The value [calculate_psnr] computes from the two buffers. *)
Definition psnr_of (pa pb : list pixel) : pyfloat :=
  match channel_values pa with
  | [] => NaN
  | _ =>
    if squared_error pa pb =? 0 then PosInf
    else Finite (20 * log10 (255 / sqrt (Q2R (mean_squared_error pa pb))))%R
  end.

(** ** Concrete inputs *)

(** A white 3x3 cover in a store of its own, and a grid without pixels. *)
Definition white_3x3 : list pixel := replicate 9 (255, 255, 255).
Definition store_3x3 : heap := [white_3x3].
Definition image_3x3 : Image := {| im_width := 3; im_height := 3; im_data := 0 |}.

Definition store_0x0 : heap := [[]].
Definition image_0x0 : Image := {| im_width := 0; im_height := 0; im_data := 0 |}.

(** Two 2x1 grids that differ in one channel, and a 3x1 grid. *)
Definition store_pair : heap :=
  [[(10, 20, 30); (40, 50, 60)]; [(10, 20, 33); (40, 50, 60)];
   [(1, 2, 3); (4, 5, 6); (7, 8, 9)]].
Definition image_a : Image := {| im_width := 2; im_height := 1; im_data := 0 |}.
Definition image_b : Image := {| im_width := 2; im_height := 1; im_data := 1 |}.

(** Stand-ins for the hash and the cipher, with the properties of the
    interfaces: they serve to run the framing on concrete bytes. *)
Definition standin_mix (bs : bytes) : Z := fold_left (fun acc b => acc * 257 + b) bs 1.

Definition standin_digest (m : bytes) : bytes := be_digits 32 (standin_mix m).

Definition standin_pad (key nonce : bytes) : Z := standin_mix (key ++ nonce) mod 256.

Definition standin_tag (key nonce ciphertext : bytes) : bytes :=
  be_digits 16 (standin_mix (key ++ nonce ++ ciphertext)).

Definition standin_encrypt (key nonce plaintext : bytes) : bytes * bytes :=
  let ciphertext := map (Z.lxor (standin_pad key nonce)) plaintext in
  (ciphertext, standin_tag key nonce ciphertext).

Definition standin_decrypt (key nonce ciphertext tag : bytes) : option bytes :=
  if bytes_eqb tag (standin_tag key nonce ciphertext)
  then Some (map (Z.lxor (standin_pad key nonce)) ciphertext)
  else None.

Definition standin_sha256 : Sha256.
Proof.
  refine {| sha256_digest := standin_digest |}.
  assert (Hlen : forall n z, length (be_digits n z) = n).
  { induction n as [|n IH]; intros z; cbn [be_digits]; [reflexivity|].
    rewrite length_app, IH. cbn [length]. lia. }
  intros m. unfold standin_digest, len. now rewrite Hlen.
Defined.

Definition standin_gcm : AesGcm.
Proof.
  refine {| encrypt_and_digest := standin_encrypt;
            decrypt_and_verify := standin_decrypt |}.
  - intros key nonce pt. unfold standin_encrypt, len. cbn [fst].
    now rewrite length_map.
  - assert (Hlen : forall n z, length (be_digits n z) = n).
    { induction n as [|n IH]; intros z; cbn [be_digits]; [reflexivity|].
      rewrite length_app, IH. cbn [length]. lia. }
    intros key nonce pt. unfold standin_encrypt, standin_tag, len. cbn [snd].
    now rewrite Hlen.
  - intros key nonce pt. unfold standin_decrypt, standin_encrypt, bytes_eqb.
    cbn [fst snd]. rewrite bool_decide_eq_true_2 by reflexivity. f_equal.
    rewrite map_map. induction pt as [|x pt IH]; [reflexivity|].
    cbn [map]. rewrite IH. f_equal.
    now rewrite <- Z.lxor_assoc, Z.lxor_nilpotent, Z.lxor_0_l.
Defined.

(** The result of embedding two bytes in the white cover. *)
Definition embedded_3x3 : Image * heap :=
  Eval vm_compute in
    match embed_encrypted_data image_3x3 [171; 18] store_3x3 with
    | Ok r => r
    | Raise _ => (image_3x3, [])
    end.

Definition hunter2_key : bytes := standin_digest [104; 117; 110; 116; 101; 114; 50].
Definition nonce_12 : bytes := replicate 12 7.

(** ** The decoding in the words of the specification *)

(** The byte one pixel carries as the specification gives it,
    [(red_bits<<6) | (green_bits<<4) | blue_bits] with red and green
    masked to 2 bits and blue to 4, written with the arithmetic of the
    bit positions: the two low bits of red count 64 each, the two low
    bits of green 16, the four low bits of blue 1. *)
Definition spec_pixel_byte (p : pixel) : Z :=
  let '(r, g, b) := p in 64 * (r mod 4) + 16 * (g mod 4) + b mod 16.

(** The big-endian integer of the bytes that four pixels carry. *)
Definition spec_header_length (p0 p1 p2 p3 : pixel) : Z :=
  2 ^ 24 * spec_pixel_byte p0 + 2 ^ 16 * spec_pixel_byte p1
  + 2 ^ 8 * spec_pixel_byte p2 + spec_pixel_byte p3.

(** ** Code points, key sizes, closeness of pixels and channel triples *)

(** A code point of a Python [str], one that is not a surrogate, and a
    surrogate. *)
Definition is_codepoint (c : Z) : Prop := 0 <= c < 0x110000.
Definition is_surrogate (c : Z) : Prop := 0xD800 <= c < 0xE000.
Definition is_scalar (c : Z) : Prop := is_codepoint c /\ ~ is_surrogate c.

(** The key sizes [AES.new] takes. *)
Definition aes_key_len (key : bytes) : Prop :=
  len key = 16 \/ len key = 24 \/ len key = 32.

(** Two pixels whose channels are within 3, 3 and 15 of each other. *)
Definition close_224 (p q : pixel) : Prop :=
  Z.abs (get_channel Red q - get_channel Red p) <= 3
  /\ Z.abs (get_channel Green q - get_channel Green p) <= 3
  /\ Z.abs (get_channel Blue q - get_channel Blue p) <= 15.

(** The pixels whose channels are the three arrays of [_bytes_to_224_channels]. *)
Definition pixels_of_channels (channels : list Z * list Z * list Z) : list pixel :=
  let '(red_bits, green_bits, blue_bits) := channels in
  zip_with (fun rg b => (fst rg, snd rg, b)) (zip red_bits green_bits) blue_bits.

(** ** The hide and extract actions of [app.py] *)

(** The body of the "Encrypt & Generate Stego PNG" action, from the key to
    the PSNR shown; the PNG bytes offered for download are left out.
    [nonce] is what [encrypt_payload] draws. *)
Definition hide_action `{Sha256} `{AesGcm} (nonce : bytes) (cover_image : Image)
    (secret_name : str) (secret_data : bytes) (hide_password : str)
  : M (Image * pyfloat) :=
  key <- lift (derive_key hide_password) ;;
  secret_blob <- lift (package_secret_file secret_name secret_data) ;;
  encrypted_blob <- lift (encrypt_payload nonce secret_blob key) ;;
  stego_image <- embed_encrypted_data cover_image encrypted_blob ;;
  psnr_value <- calculate_psnr cover_image stego_image ;;
  ret (stego_image, psnr_value).

(** The body of the "Extract Secret" action, after the image is loaded. *)
Definition extract_action `{Sha256} `{AesGcm} (stego_image : Image)
    (extract_password : str) : M SecretFile :=
  key <- lift (derive_key extract_password) ;;
  encrypted_blob <- extract_encrypted_data stego_image ;;
  plaintext_blob <- lift (decrypt_payload encrypted_blob key) ;;
  lift (unpackage_secret_file plaintext_blob).

(** ** Further concrete inputs *)

(** What extraction reads back from the 3x3 stego image; a white 10x10
    cover, the stego image that carries the encrypted envelope of
    [hello] under the name ["note.txt"], and what the extract action
    recovers from it. *)
Definition extracted_3x3 : bytes * heap :=
  Eval vm_compute in
    match extract_encrypted_data (fst embedded_3x3) (snd embedded_3x3) with
    | Ok r => r
    | Raise _ => ([], [])
    end.

Definition hello : bytes := [104; 101; 108; 108; 111].
Definition note_txt : bytes := [110; 111; 116; 101; 46; 116; 120; 116].

Definition store_10x10 : heap := [replicate 100 (255, 255, 255)].
Definition image_10x10 : Image := {| im_width := 10; im_height := 10; im_data := 0 |}.

Definition hidden_10x10 : Image * heap :=
  Eval vm_compute in
    match rbind (package_secret_file (py_str "note.txt") hello) (fun envelope =>
          @encrypt_payload standin_gcm nonce_12 envelope hunter2_key) with
    | Ok blob =>
        match embed_encrypted_data image_10x10 blob store_10x10 with
        | Ok r => r
        | Raise _ => (image_10x10, [])
        end
    | Raise _ => (image_10x10, [])
    end.

Definition recovered_10x10 : SecretFile * heap :=
  Eval vm_compute in
    match @extract_action standin_sha256 standin_gcm
            (fst hidden_10x10) (py_str "hunter2") (snd hidden_10x10) with
    | Ok r => r
    | Raise _ => ({| filename := []; data := [] |}, [])
    end.

(** * Properties *)

(** ** Bytes, digits and bit masks *)

Lemma uint8_land (z : Z) : uint8 z = Z.land z 255.
Proof.
  unfold uint8. change 255 with (Z.ones 8). now rewrite Z.land_ones by lia.
Qed.

Lemma uint8_byte (z : Z) : is_byte z -> uint8 z = z.
Proof. unfold uint8, is_byte. intros. now apply Z.mod_small. Qed.

Lemma uint8_is_byte (z : Z) : is_byte (uint8 z).
Proof. unfold uint8, is_byte. apply Z.mod_pos_bound. lia. Qed.

Lemma is_byteb_spec (b : Z) : is_byteb b = true <-> is_byte b.
Proof. unfold is_byteb, is_byte. lia. Qed.

Lemma len_app {A} (l k : list A) : len (l ++ k) = len l + len k.
Proof. unfold len. rewrite length_app. lia. Qed.

Lemma len_nonneg {A} (l : list A) : 0 <= len l.
Proof. unfold len. lia. Qed.

Lemma be_digits_length (n : nat) (z : Z) : length (be_digits n z) = n.
Proof.
  revert z. induction n as [|n IH]; intros z; simpl; [reflexivity|].
  rewrite length_app, IH. simpl. lia.
Qed.

Lemma be_digits_bytes (n : nat) (z : Z) : is_bytes (be_digits n z).
Proof.
  revert z. induction n as [|n IH]; intros z; simpl.
  - constructor.
  - apply Forall_app. split; [apply IH|].
    constructor; [apply uint8_is_byte | constructor].
Qed.

Lemma int_from_bytes_snoc (bs : bytes) (b : Z) :
  int_from_bytes (bs ++ [b]) = int_from_bytes bs * 256 + b.
Proof. unfold int_from_bytes. now rewrite fold_left_app. Qed.

Lemma int_from_bytes_be_digits (n : nat) (z : Z) :
  0 <= z < 256 ^ Z.of_nat n -> int_from_bytes (be_digits n z) = z.
Proof.
  revert z. induction n as [|n IH]; intros z Hz.
  - simpl in *. unfold int_from_bytes. simpl. lia.
  - simpl. rewrite int_from_bytes_snoc, IH.
    + pose proof (Z.div_mod z 256). lia.
    + rewrite Nat2Z.inj_succ, Z.pow_succ_r in Hz by lia.
      split; [apply Z.div_pos; lia|].
      apply Z.div_lt_upper_bound; lia.
Qed.

Lemma int_to_bytes_ok (z : Z) (n : nat) :
  0 <= z < 256 ^ Z.of_nat n -> int_to_bytes z n = Ok (be_digits n z).
Proof.
  intros Hz. unfold int_to_bytes.
  destruct (z <? 0) eqn:E1; [lia|].
  destruct (256 ^ Z.of_nat n <=? z) eqn:E2; [lia|]. reflexivity.
Qed.

Lemma int_to_bytes_overflow (z : Z) (n : nat) :
  256 ^ Z.of_nat n <= z -> int_to_bytes z n = Raise OverflowError.
Proof.
  intros Hz. unfold int_to_bytes.
  destruct (256 ^ Z.of_nat n <=? z) eqn:E2; [|lia].
  now rewrite orb_true_r.
Qed.

(** A property of bytes that a boolean test decides holds as soon as the
    test passes on the 256 values. *)
Lemma byte_forall (P : Z -> bool) :
  forallb P (map Z.of_nat (seq 0 256)) = true ->
  forall b, is_byte b -> P b = true.
Proof.
  intros HP b Hb. rewrite forallb_forall in HP. apply HP.
  apply in_map_iff. exists (Z.to_nat b). unfold is_byte in Hb. split; [lia|].
  apply in_seq. lia.
Qed.

Lemma masked_store (x y mask m : Z) :
  Z.land mask 255 = mask -> Z.land m 255 = m ->
  uint8 (Z.lor (Z.land x mask) (uint8 (Z.land y m)))
  = Z.lor (Z.land x mask) (Z.land y m).
Proof.
  intros Hmask Hm.
  rewrite !uint8_land, Z.land_lor_distr_l, <- !Z.land_assoc.
  change (Z.land 255 255) with 255. now rewrite Hm, Hmask.
Qed.

Lemma masked_read (x y mask m : Z) :
  Z.land mask m = 0 ->
  Z.land (Z.lor (Z.land x mask) (Z.land y m)) m = Z.land y m.
Proof.
  intros H0.
  rewrite Z.land_lor_distr_l, <- !Z.land_assoc, H0, Z.land_0_r, Z.lor_0_l.
  now rewrite Z.land_diag.
Qed.

Lemma _channels_to_bytes_map (px : list pixel) :
  _channels_to_bytes px = map decode_pixel px.
Proof.
  unfold _channels_to_bytes. induction px as [|p px IH]; [reflexivity|].
  simpl. f_equal. exact IH.
Qed.

Lemma recombine_byte (b : Z) :
  is_byte b ->
  uint8 (Z.lor (Z.lor (Z.shiftl (Z.land (Z.shiftr b 6) 0x03) 6)
                      (Z.shiftl (Z.land (Z.shiftr b 4) 0x03) 4))
               (Z.land b 0x0F)) = b.
Proof.
  intros Hb. apply Z.eqb_eq.
  revert b Hb. apply byte_forall. vm_compute. reflexivity.
Qed.

Lemma decode_embed_pixel (b : Z) (p : pixel) :
  is_byte b -> decode_pixel (embed_pixel b p) = b.
Proof.
  intros Hb. destruct p as [[r g] bl]. unfold decode_pixel, embed_pixel. simpl.
  rewrite !masked_read by reflexivity.
  now apply recombine_byte.
Qed.

(** The three in-place assignments, seen on one pixel. *)
Lemma three_assignments (b : Z) (p : pixel) :
  let step c mask bits q :=
    set_channel c (Z.lor (Z.land (get_channel c q) mask) bits) q in
  step Blue 0xF0 (uint8 (Z.land b 0x0F))
    (step Green 0xFC (uint8 (Z.land (Z.shiftr b 4) 0x03))
       (step Red 0xFC (uint8 (Z.land (Z.shiftr b 6) 0x03)) p))
  = embed_pixel b p.
Proof.
  destruct p as [[r g] bl]. simpl.
  now rewrite !masked_store by reflexivity.
Qed.

(** ** Lists as arrays *)

Lemma zip_with_column {A} (s : Z -> A -> A) (f : Z -> Z -> Z) (g : A -> Z)
    (bits : list Z) (P : list A) :
  zip_with s (zip_with f (map g P) bits) P
  = zip_with (fun v p => s (f (g p) v) p) bits P.
Proof.
  revert bits. induction P as [|p P IH]; intros [|v bits]; simpl; try reflexivity.
  now rewrite IH.
Qed.

(** ** The store and the run of [embed_encrypted_data] *)

Lemma buffer_lookup (h : heap) (l : loc) (px : list pixel) :
  h !! l = Some px -> buffer h l = px.
Proof. unfold buffer. now intros ->. Qed.

Lemma broadcast_to_same (xs : list Z) : broadcast_to (length xs) xs = Ok xs.
Proof. unfold broadcast_to. now rewrite Nat.eqb_refl. Qed.

Lemma replace_low_bits_run (h : heap) (pixels : ndarray) (px : list pixel)
    (c : channel) (mask : Z) (bits : list Z) :
  h !! pixels = Some px ->
  (length bits <= length px)%nat ->
  replace_low_bits pixels (length bits) c mask bits h
  = Ok (tt, <[pixels :=
              zip_with (fun v p => set_channel c (Z.lor (Z.land (get_channel c p) mask) v) p)
                bits (take (length bits) px) ++ drop (length bits) px]> h).
Proof.
  intros Hl Hn.
  unfold replace_low_bits, assign_column, bind, load, lift, store.
  rewrite (buffer_lookup _ _ _ Hl).
  assert (Hc : length (map (fun v => Z.land v mask) (column (length bits) c px)) = length bits).
  { unfold column. rewrite !length_map, length_take. lia. }
  unfold np_binop. rewrite Hc.
  assert (Hn1 : (if (length bits =? 1)%nat then length bits else length bits) = length bits)
    by now destruct (length bits =? 1)%nat.
  rewrite Hn1. rewrite <- Hc at 1. rewrite broadcast_to_same. simpl.
  rewrite broadcast_to_same. simpl.
  assert (Hz : length (take (length bits) px) =
    length (zip_with Z.lor (map (fun v => Z.land v mask) (column (length bits) c px)) bits)).
  { rewrite length_zip_with, Hc, length_take. lia. }
  rewrite !(buffer_lookup _ _ _ Hl), Hz, broadcast_to_same.
  unfold column. rewrite map_map.
  now rewrite (zip_with_column (set_channel c) Z.lor (fun p => Z.land (get_channel c p) mask)).
Qed.

Lemma bind_ok {A B} (m : M A) (k : A -> M B) (h h' : heap) (a : A) :
  m h = Ok (a, h') -> bind m k h = k a h'.
Proof. unfold bind. now intros ->. Qed.

Lemma bind_raise {A B} (m : M A) (k : A -> M B) (h : heap) (e : exn) :
  m h = Raise e -> bind m k h = Raise e.
Proof. unfold bind. now intros ->. Qed.

Lemma wf_image_inv (h : heap) (image : Image) :
  wf_image h image ->
  0 <= im_width image /\ 0 <= im_height image /\
  exists px, h !! im_data image = Some px
    /\ len px = im_width image * im_height image
    /\ Forall (fun p => is_pixelb p = true) px.
Proof.
  unfold wf_image, wf_imageb. intros H.
  apply andb_prop in H as [H H3]. apply andb_prop in H as [H1 H2].
  destruct (h !! im_data image) as [px|]; [|discriminate].
  apply andb_prop in H3 as [H3 H4].
  repeat split; try lia. exists px. repeat split; try lia.
  apply Forall_forall. intros p Hp. rewrite forallb_forall in H4. apply H4.
  now apply list_elem_of_In.
Qed.

Lemma convert_RGB_run (h : heap) (image : Image) :
  convert_RGB image h
  = Ok ({| im_width := im_width image; im_height := im_height image;
           im_data := length h |}, h ++ [buffer h (im_data image)]).
Proof. reflexivity. Qed.

Lemma np_array_run (h : heap) (image : Image) :
  np_array image h = Ok (length h, h ++ [buffer h (im_data image)]).
Proof. reflexivity. Qed.

Lemma lookup_last_alloc (h : heap) (px : list pixel) :
  (h ++ [px]) !! length h = Some px.
Proof. rewrite lookup_app_r by lia. now rewrite Nat.sub_diag. Qed.

Lemma insert_last_alloc (h : heap) (px qx : list pixel) :
  <[length h := qx]> (h ++ [px]) = h ++ [qx].
Proof. rewrite insert_app_r_alt by lia. now rewrite Nat.sub_diag. Qed.

Lemma stego_pixels_length (px : list pixel) (payload : bytes) :
  (length payload <= length px)%nat ->
  length (stego_pixels px payload) = length px.
Proof.
  intros H. unfold stego_pixels.
  rewrite length_app, length_zip_with, length_take, length_drop. lia.
Qed.


Lemma zip_with_thrice {A B} (f1 f2 f3 : B -> A -> A) (pl : list B) (P : list A) :
  zip_with f3 pl (zip_with f2 pl (zip_with f1 pl P))
  = zip_with (fun b p => f3 b (f2 b (f1 b p))) pl P.
Proof.
  revert P. induction pl as [|b pl IH]; intros [|p P]; simpl; try reflexivity.
  now rewrite IH.
Qed.

Lemma replace_low_bits_payload (h : heap) (pixels : ndarray) (px : list pixel)
    (c : channel) (mask : Z) (g : Z -> Z) (pl : bytes) :
  h !! pixels = Some px ->
  (length pl <= length px)%nat ->
  replace_low_bits pixels (length pl) c mask (map uint8 (map g pl)) h
  = Ok (tt, <[pixels := zip_with (low_bits_step c mask g) pl (take (length pl) px)
                        ++ drop (length pl) px]> h).
Proof.
  intros Hl Hn.
  pose proof (replace_low_bits_run h pixels px c mask (map uint8 (map g pl)) Hl) as H.
  rewrite !length_map in H. rewrite H by exact Hn. clear H.
  do 4 f_equal. rewrite map_map.
  generalize (take (length pl) px). clear. intros P. revert P.
  induction pl as [|b pl IH]; intros [|p P]; simpl; try reflexivity.
  now rewrite IH.
Qed.

Lemma take_drop_zip {A B} (f : B -> A -> A) (pl : list B) (px : list A) :
  (length pl <= length px)%nat ->
  let qx := zip_with f pl (take (length pl) px) ++ drop (length pl) px in
  take (length pl) qx = zip_with f pl (take (length pl) px)
  /\ drop (length pl) qx = drop (length pl) px
  /\ length qx = length px.
Proof.
  intros H qx.
  assert (Hz : length (zip_with f pl (take (length pl) px)) = length pl).
  { rewrite length_zip_with, length_take. lia. }
  unfold qx. repeat split.
  - rewrite <- Hz at 1. now rewrite take_app_length.
  - rewrite <- Hz at 1. now rewrite drop_app_length.
  - rewrite length_app, Hz, length_drop. lia.
Qed.

Lemma three_columns_run {A} (h : heap) (pixels : ndarray) (px : list pixel)
    (pl : bytes) (k : M A) :
  h !! pixels = Some px ->
  (length pl <= length px)%nat ->
  (replace_low_bits pixels (length pl) Red 0xFC
     (map uint8 (map (fun d => Z.land (Z.shiftr d 6) 0x03) pl)) ;;;
   replace_low_bits pixels (length pl) Green 0xFC
     (map uint8 (map (fun d => Z.land (Z.shiftr d 4) 0x03) pl)) ;;;
   replace_low_bits pixels (length pl) Blue 0xF0
     (map uint8 (map (fun d => Z.land d 0x0F) pl)) ;;;
   k) h
  = k (<[pixels := stego_pixels px pl]> h).
Proof.
  intros Hl Hn.
  assert (Hlt : (pixels < length h)%nat) by (eapply lookup_lt_Some; eassumption).
  destruct (take_drop_zip (low_bits_step Red 0xFC (fun d => Z.land (Z.shiftr d 6) 0x03)) pl px Hn)
    as (T1 & D1 & L1).
  set (px1 := zip_with (low_bits_step Red 0xFC (fun d => Z.land (Z.shiftr d 6) 0x03)) pl
                (take (length pl) px) ++ drop (length pl) px) in *.
  assert (Hn1 : (length pl <= length px1)%nat) by lia.
  destruct (take_drop_zip (low_bits_step Green 0xFC (fun d => Z.land (Z.shiftr d 4) 0x03)) pl px1 Hn1)
    as (T2 & D2 & L2).
  set (px2 := zip_with (low_bits_step Green 0xFC (fun d => Z.land (Z.shiftr d 4) 0x03)) pl
                (take (length pl) px1) ++ drop (length pl) px1) in *.
  assert (Hn2 : (length pl <= length px2)%nat) by lia.
  rewrite (bind_ok _ _ _ _ _ (replace_low_bits_payload h pixels px Red _ _ pl Hl Hn)).
  fold px1.
  rewrite (bind_ok _ _ _ _ _
    (replace_low_bits_payload _ pixels px1 Green _ _ pl (list_lookup_insert_eq _ _ _ Hlt) Hn1)).
  fold px2. rewrite list_insert_insert_eq.
  rewrite (bind_ok _ _ _ _ _
    (replace_low_bits_payload _ pixels px2 Blue _ _ pl
       (list_lookup_insert_eq _ _ _ Hlt) Hn2)).
  rewrite !list_insert_insert_eq. f_equal. f_equal.
  unfold stego_pixels. rewrite T2, D2, T1, D1. f_equal.
  rewrite zip_with_thrice. apply zip_with_ext; [|reflexivity..].
  intros b p. apply three_assignments.
Qed.
Lemma embed_run (h : heap) (cover : Image) (blob : bytes) :
  wf_image h cover -> blob <> [] ->
  len blob <= im_width cover * im_height cover - HEADER_LEN ->
  len blob < 2 ^ 32 ->
  embed_encrypted_data cover blob h
  = Ok ({| im_width := im_width cover; im_height := im_height cover;
           im_data := S (S (length h)) |},
        h ++ [buffer h (im_data cover);
              stego_pixels (buffer h (im_data cover)) (stream blob);
              stego_pixels (buffer h (im_data cover)) (stream blob)]).
Proof.
  intros Hwf Hne Hcap Hlen.
  destruct (wf_image_inv _ _ Hwf) as (Hw & Hh & px & Hpx & Hsz & _).
  rewrite (buffer_lookup _ _ _ Hpx).
  unfold embed_encrypted_data.
  destruct blob as [|b0 blob0] eqn:Eblob; [congruence|]. rewrite <- Eblob in *.
  assert (Hpos : 0 < len blob) by (rewrite Eblob; unfold len; simpl; lia).
  unfold max_embeddable_payload_bytes.
  destruct (Z.max (im_width cover * im_height cover - HEADER_LEN) 0 <? len blob) eqn:E; [lia|].
  clear E.
  rewrite (bind_ok _ _ _ _ _ (convert_RGB_run _ _)).
  rewrite (bind_ok _ _ _ _ _ (np_array_run _ _)). simpl im_data.
  rewrite (buffer_lookup _ _ _ Hpx), (buffer_lookup _ _ _ (lookup_last_alloc _ _)).
  unfold lift at 1. rewrite int_to_bytes_ok by (change (256 ^ Z.of_nat (Z.to_nat HEADER_LEN)) with (2 ^ 32); lia).
  unfold bind at 1.
  fold (stream blob).
  assert (Hcount : (length (stream blob) <= length px)%nat).
  { unfold stream. rewrite length_app, be_digits_length.
    unfold len, HEADER_LEN in *. lia. }
  unfold _bytes_to_224_channels.
  assert (HL : length (h ++ [px]) = S (length h)) by (rewrite length_app; simpl; lia).
  rewrite HL.
  assert (HH1 : ((h ++ [px]) ++ [px]) !! S (length h) = Some px).
  { rewrite <- HL. apply lookup_last_alloc. }
  rewrite (three_columns_run _ _ px (stream blob) _ HH1 Hcount).
  set (spx := stego_pixels px (stream blob)).
  assert (HI : <[S (length h) := spx]> ((h ++ [px]) ++ [px]) = (h ++ [px]) ++ [spx]).
  { rewrite <- HL. apply insert_last_alloc. }
  rewrite HI.
  assert (Hspx : len spx = im_height cover * im_width cover).
  { unfold len, spx. rewrite stego_pixels_length by exact Hcount. unfold len in Hsz. lia. }
  unfold Image_fromarray, bind, load. simpl im_height. simpl im_width.
  assert (HH2 : ((h ++ [px]) ++ [spx]) !! S (length h) = Some spx).
  { rewrite <- HL. apply lookup_last_alloc. }
  rewrite (buffer_lookup _ _ _ HH2).
  unfold alloc, ret. simpl.
  rewrite (proj2 (Z.eqb_eq _ _) Hspx). simpl. rewrite !length_app. simpl.
  rewrite <- !app_assoc. simpl.
  do 3 f_equal. lia.
Qed.

(** ** Extraction and the stego round trip *)

Lemma extract_run (h : heap) (image : Image) :
  extract_encrypted_data image h
  = let px := buffer h (im_data image) in
    if len px <=? HEADER_LEN then Raise (BlueCrypt ImageTooSmall)
    else
      let data_len := int_from_bytes (_channels_to_bytes (slice px 0 HEADER_LEN)) in
      if (data_len <=? 0) || (len px - HEADER_LEN <? data_len)
      then Raise (BlueCrypt InvalidPayload)
      else Ok (_channels_to_bytes (slice px HEADER_LEN (HEADER_LEN + data_len)),
               h ++ [px; px]).
Proof.
  unfold extract_encrypted_data.
  rewrite (bind_ok _ _ _ _ _ (convert_RGB_run _ _)).
  rewrite (bind_ok _ _ _ _ _ (np_array_run _ _)). simpl im_data.
  rewrite (buffer_lookup _ _ _ (lookup_last_alloc _ _)).
  unfold bind, load.
  assert (HL : length (h ++ [buffer h (im_data image)]) = S (length h))
    by (rewrite length_app; simpl; lia).
  assert (Hb : buffer ((h ++ [buffer h (im_data image)]) ++ [buffer h (im_data image)])
                 (length (h ++ [buffer h (im_data image)])) = buffer h (im_data image)).
  { apply buffer_lookup, lookup_last_alloc. }
  rewrite Hb. cbv zeta.
  destruct (len (buffer h (im_data image)) <=? HEADER_LEN); [reflexivity|].
  destruct (_ || _); [reflexivity|].
  unfold ret. now rewrite <- app_assoc.
Qed.

Lemma decode_stego_pixels (pl : bytes) (P : list pixel) :
  is_bytes pl -> (length pl <= length P)%nat ->
  map decode_pixel (zip_with embed_pixel pl P) = pl.
Proof.
  intros Hpl. revert P. induction Hpl as [|b pl Hb Hpl IH]; intros [|p P] HP;
    simpl in *; try reflexivity; try lia.
  rewrite decode_embed_pixel by exact Hb. f_equal. apply IH. lia.
Qed.

Lemma decode_stego (px : list pixel) (pl : bytes) :
  is_bytes pl -> (length pl <= length px)%nat ->
  _channels_to_bytes (stego_pixels px pl)
  = pl ++ _channels_to_bytes (drop (length pl) px).
Proof.
  intros Hpl Hn. rewrite !_channels_to_bytes_map. unfold stego_pixels.
  rewrite map_app. f_equal. apply decode_stego_pixels; [exact Hpl|].
  rewrite length_take. lia.
Qed.

Lemma _channels_to_bytes_slice (px : list pixel) (a b : Z) :
  _channels_to_bytes (slice px a b) = slice (_channels_to_bytes px) a b.
Proof.
  rewrite !_channels_to_bytes_map. unfold slice.
  now rewrite <- firstn_map, <- skipn_map.
Qed.

Lemma _channels_to_bytes_length (px : list pixel) :
  length (_channels_to_bytes px) = length px.
Proof. rewrite _channels_to_bytes_map. apply length_map. Qed.

Lemma stream_bytes (blob : bytes) : is_bytes blob -> is_bytes (stream blob).
Proof.
  intros H. unfold stream. apply Forall_app. split; [apply be_digits_bytes | exact H].
Qed.

Lemma stream_length (blob : bytes) : len (stream blob) = HEADER_LEN + len blob.
Proof. unfold stream. rewrite len_app. unfold len. now rewrite be_digits_length. Qed.

Lemma slice_header (blob rest : bytes) :
  slice (stream blob ++ rest) 0 HEADER_LEN = be_digits 4 (len blob).
Proof.
  unfold slice, stream.
  change (Z.to_nat (HEADER_LEN - 0)) with 4%nat.
  change (Z.to_nat 0) with 0%nat. change (Z.to_nat HEADER_LEN) with 4%nat.
  rewrite drop_0, <- app_assoc.
  rewrite <- (be_digits_length 4 (len blob)) at 1.
  apply take_app_length.
Qed.

Lemma slice_blob (blob rest : bytes) :
  slice (stream blob ++ rest) HEADER_LEN (HEADER_LEN + len blob) = blob.
Proof.
  unfold slice, stream.
  replace (Z.to_nat (HEADER_LEN + len blob - HEADER_LEN)) with (length blob)
    by (unfold len; lia).
  change (Z.to_nat HEADER_LEN) with 4%nat.
  rewrite <- app_assoc.
  rewrite <- (be_digits_length 4 (len blob)) at 1.
  rewrite drop_app_length. apply take_app_length.
Qed.

(** C1 (amended).  For every well-formed pixel grid and every non-empty
    byte sequence [blob] shorter than [2^32] bytes that fits the capacity
    ([len blob <= width*height - 4]), embedding succeeds and extracting
    from the image it returns gives back exactly [blob]. *)
Theorem stego_round_trip (h : heap) (cover : Image) (blob : bytes) :
  wf_image h cover ->
  is_bytes blob ->
  blob <> [] ->
  len blob < 2 ^ 32 ->
  len blob <= im_width cover * im_height cover - HEADER_LEN ->
  exists stego h',
    embed_encrypted_data cover blob h = Ok (stego, h')
    /\ value (extract_encrypted_data stego h') = Ok blob.
Proof.
  intros Hwf Hbytes Hne Hlen Hcap.
  destruct (wf_image_inv _ _ Hwf) as (Hw & Hh & px & Hpx & Hsz & _).
  eexists _, _. split; [now apply embed_run|].
  rewrite (buffer_lookup _ _ _ Hpx).
  set (spx := stego_pixels px (stream blob)).
  assert (Hcount : (length (stream blob) <= length px)%nat).
  { pose proof (stream_length blob). unfold len, HEADER_LEN in *. lia. }
  assert (Hbuf : buffer (h ++ [px; spx; spx]) (S (S (length h))) = spx).
  { apply buffer_lookup. rewrite lookup_app_r by lia.
    now replace (S (S (length h)) - length h)%nat with 2%nat by lia. }
  rewrite extract_run. simpl im_data. rewrite Hbuf. cbv zeta.
  assert (Hspx : len spx = len px).
  { unfold len, spx. now rewrite stego_pixels_length. }
  assert (Hpos : 0 < len blob) by (destruct blob; [congruence | unfold len; simpl; lia]).
  destruct (len spx <=? HEADER_LEN) eqn:E1; [unfold HEADER_LEN in *; lia|].
  rewrite !_channels_to_bytes_slice. unfold spx.
  rewrite decode_stego by (auto using stream_bytes).
  rewrite slice_header.
  rewrite int_from_bytes_be_digits by (change (256 ^ Z.of_nat 4) with (2 ^ 32); lia).
  rewrite slice_blob.
  fold spx. destruct (len blob <=? 0) eqn:E2; [lia|].
  destruct (len spx - HEADER_LEN <? len blob) eqn:E3; [lia|].
  reflexivity.
Qed.

(** ** Capacity and frame of the embedding *)

Lemma embed_ok_inv (h : heap) (cover : Image) (blob : bytes) (r : Image * heap) :
  embed_encrypted_data cover blob h = Ok r ->
  blob <> [] /\ len blob < 2 ^ 32
  /\ len blob <= Z.max (im_width cover * im_height cover - HEADER_LEN) 0.
Proof.
  unfold embed_encrypted_data. destruct blob as [|b0 blob0] eqn:Eblob; [discriminate|].
  rewrite <- Eblob. unfold max_embeddable_payload_bytes. cbv zeta.
  destruct (_ <? len blob) eqn:E; [discriminate|].
  intros H. repeat split; [congruence| |lia].
  destruct (Z_lt_le_dec (len blob) (2 ^ 32)) as [Hlt|Hge]; [exact Hlt|].
  exfalso. revert H.
  rewrite (bind_ok _ _ _ _ _ (convert_RGB_run _ _)).
  rewrite (bind_ok _ _ _ _ _ (np_array_run _ _)).
  rewrite int_to_bytes_overflow by exact Hge.
  discriminate.
Qed.

Lemma embed_capacity_exceeded (h : heap) (cover : Image) (blob : bytes) :
  blob <> [] ->
  Z.max (im_width cover * im_height cover - HEADER_LEN) 0 < len blob ->
  embed_encrypted_data cover blob h
  = Raise (BlueCrypt (CapacityExceeded (len blob)
             (Z.max (im_width cover * im_height cover - HEADER_LEN) 0))).
Proof.
  intros Hne Hcap. unfold embed_encrypted_data.
  destruct blob as [|b0 blob0] eqn:Eblob; [congruence|]. rewrite <- Eblob in *.
  unfold max_embeddable_payload_bytes. cbv zeta.
  destruct (_ <? len blob) eqn:E; [reflexivity|lia].
Qed.

Lemma nonempty_len {A} (l : list A) : l <> [] -> 0 < len l.
Proof. destruct l; [congruence|]. unfold len. simpl. lia. Qed.

(** C3 (amended).  The empty blob fails with [EmptyPayload] whatever the
    grid and its capacity.  For every well-formed pixel grid of width [w]
    and height [h] and every non-empty byte sequence [blob] shorter than
    [2^32] bytes, [embed_encrypted_data] succeeds if and only if
    [len blob <= w*h - 4]; above that bound, and so one byte over it, it
    fails with [CapacityExceeded], citing the required length and the
    capacity [max (w*h - 4) 0]. *)
Theorem embed_capacity_boundary (h : heap) (cover : Image) (blob : bytes) :
  embed_encrypted_data cover [] h = Raise (BlueCrypt EmptyPayload)
  /\ (wf_image h cover ->
      blob <> [] ->
      len blob < 2 ^ 32 ->
      (succeeds (embed_encrypted_data cover blob h)
       <-> len blob <= im_width cover * im_height cover - 4)
      /\ (im_width cover * im_height cover - 4 < len blob ->
          embed_encrypted_data cover blob h
          = Raise (BlueCrypt (CapacityExceeded (len blob)
                     (Z.max (im_width cover * im_height cover - 4) 0))))).
Proof.
  split; [reflexivity|].
  intros Hwf Hne Hlen. pose proof (nonempty_len _ Hne) as Hpos.
  assert (Hover : im_width cover * im_height cover - 4 < len blob ->
      embed_encrypted_data cover blob h
      = Raise (BlueCrypt (CapacityExceeded (len blob)
                 (Z.max (im_width cover * im_height cover - 4) 0)))).
  { intros Hcap. apply embed_capacity_exceeded; [exact Hne|]. unfold HEADER_LEN. lia. }
  split; [split|exact Hover].
  - intros [r Hr].
    destruct (Z_le_gt_dec (len blob) (im_width cover * im_height cover - 4)) as [Hle|Hgt];
      [exact Hle|].
    rewrite Hover in Hr by lia. discriminate.
  - intros Hcap. eexists. apply embed_run; auto.
Qed.

(** C6.  When [embed_encrypted_data] accepts a grid and a blob, the image
    it returns has the dimensions of the input, its pixels at indices
    [>= 4 + len blob] are those of the cover, and the call leaves every
    buffer of the store it was given as it was, the cover's among them:
    the stego image has a buffer of its own. *)
Theorem embed_frame (h : heap) (cover : Image) (blob : bytes)
    (stego : Image) (h' : heap) :
  wf_image h cover ->
  embed_encrypted_data cover blob h = Ok (stego, h') ->
  (im_width stego = im_width cover /\ im_height stego = im_height cover)
  /\ length (buffer h' (im_data stego)) = length (buffer h (im_data cover))
  /\ (forall i : nat, HEADER_LEN + len blob <= Z.of_nat i ->
        buffer h' (im_data stego) !! i = buffer h (im_data cover) !! i)
  /\ (forall l : loc, (l < length h)%nat -> h' !! l = h !! l)
  /\ buffer h' (im_data cover) = buffer h (im_data cover)
  /\ (length h <= im_data stego)%nat.
Proof.
  intros Hwf Hrun.
  destruct (embed_ok_inv _ _ _ _ Hrun) as (Hne & Hlen & Hcap).
  pose proof (nonempty_len _ Hne) as Hpos.
  assert (Hcap' : len blob <= im_width cover * im_height cover - HEADER_LEN) by lia.
  rewrite (embed_run _ _ _ Hwf Hne Hcap' Hlen) in Hrun.
  injection Hrun as <- <-. simpl.
  destruct (wf_image_inv _ _ Hwf) as (Hw & Hh & px & Hpx & Hsz & _).
  rewrite (buffer_lookup _ _ _ Hpx).
  set (spx := stego_pixels px (stream blob)).
  assert (Hcount : (length (stream blob) <= length px)%nat).
  { pose proof (stream_length blob). unfold len, HEADER_LEN in *. lia. }
  assert (Hbuf : buffer (h ++ [px; spx; spx]) (S (S (length h))) = spx).
  { apply buffer_lookup. rewrite lookup_app_r by lia.
    now replace (S (S (length h)) - length h)%nat with 2%nat by lia. }
  rewrite Hbuf.
  assert (Hold : forall l : loc, (l < length h)%nat -> (h ++ [px; spx; spx]) !! l = h !! l).
  { intros l Hl. now apply lookup_app_l. }
  repeat split; try lia.
  - unfold spx. now apply stego_pixels_length.
  - intros i Hi. unfold spx, stego_pixels.
    pose proof (stream_length blob) as Hs. unfold len in Hs, Hi.
    rewrite lookup_app_r; rewrite length_zip_with, length_take; [|lia].
    rewrite lookup_drop. f_equal. lia.
  - exact Hold.
  - unfold buffer. rewrite Hold, Hpx; [reflexivity|].
    eapply lookup_lt_Some; eassumption.
Qed.

(** ** The 2:2:4 split on one pixel, and the cases of extraction *)

Lemma low_bits_kept (x v mask : Z) (n j : Z) :
  (forall i, 0 <= i < 8 -> Z.testbit mask i = negb (i <? n)) ->
  0 <= n -> 0 <= j < 8 ->
  Z.testbit (Z.lor (Z.land x mask) (Z.land v (Z.ones n))) j
  = if j <? n then Z.testbit v j else Z.testbit x j.
Proof.
  intros Hmask Hn Hj.
  rewrite Z.lor_spec, !Z.land_spec, Hmask by exact Hj.
  clear Hmask. destruct (Z.ltb_spec j n) as [E|E]; simpl.
  - rewrite (Z.ones_spec_low n j) by lia. now rewrite andb_false_r, andb_true_r.
  - rewrite (Z.ones_spec_high n j) by lia. now rewrite andb_false_r, andb_true_r, orb_false_r.
Qed.

Lemma mask_FC (i : Z) : 0 <= i < 8 -> Z.testbit 0xFC i = negb (i <? 2).
Proof.
  intros Hi.
  assert (H : i = 0 \/ i = 1 \/ i = 2 \/ i = 3 \/ i = 4 \/ i = 5 \/ i = 6 \/ i = 7) by lia.
  repeat (destruct H as [-> | H]; [reflexivity|]). now subst.
Qed.

Lemma mask_F0 (i : Z) : 0 <= i < 8 -> Z.testbit 0xF0 i = negb (i <? 4).
Proof.
  intros Hi.
  assert (H : i = 0 \/ i = 1 \/ i = 2 \/ i = 3 \/ i = 4 \/ i = 5 \/ i = 6 \/ i = 7) by lia.
  repeat (destruct H as [-> | H]; [reflexivity|]). now subst.
Qed.

Lemma embed_pixel_bits (b : Z) (p : pixel) : bits_224 b p (embed_pixel b p).
Proof.
  destruct p as [[r g] bl]. unfold bits_224, embed_pixel. simpl.
  change 3 with (Z.ones 2). change 15 with (Z.ones 4).
  repeat split; intros;
    rewrite ?(low_bits_kept _ _ 0xFC 2), ?(low_bits_kept _ _ 0xF0 4)
      by (auto using mask_FC, mask_F0 || lia);
    rewrite ?Z.shiftr_spec by lia;
    match goal with |- context [?j <? ?n] => destruct (j <? n) eqn:E end;
    try reflexivity; lia.
Qed.

Lemma stego_pixels_lookup (px : list pixel) (pl : bytes) (i : nat) (b : Z) (p : pixel) :
  pl !! i = Some b -> px !! i = Some p ->
  stego_pixels px pl !! i = Some (embed_pixel b p).
Proof.
  intros Hb Hp. unfold stego_pixels.
  pose proof (lookup_lt_Some _ _ _ Hb) as Hi.
  pose proof (lookup_lt_Some _ _ _ Hp) as Hi'.
  rewrite lookup_app_l by (rewrite length_zip_with, length_take; lia).
  apply lookup_zip_with_Some. exists b, p. repeat split; [exact Hb|].
  now rewrite lookup_take_lt by lia.
Qed.

(** C5.  When the embedding succeeds, the pixel on which the payload byte
    [b] of the stream falls, of cover channels [(r, g, bl)], has exactly
    the channels [((r & 0xFC) | ((b>>6) & 0x03), (g & 0xFC) | ((b>>4) & 0x03),
    (bl & 0xF0) | (b & 0x0F))]: bits 7-6 of [b] are the two low bits of red,
    bits 5-4 the two low bits of green, bits 3-0 the four low bits of
    blue, and the higher bits of each channel are those of the cover. *)
Theorem embed_byte_split (h : heap) (cover : Image) (blob : bytes)
    (stego : Image) (h' : heap) (i : nat) (b r g bl : Z) :
  wf_image h cover ->
  embed_encrypted_data cover blob h = Ok (stego, h') ->
  stream blob !! i = Some b ->
  buffer h (im_data cover) !! i = Some (r, g, bl) ->
  buffer h' (im_data stego) !! i
  = Some (Z.lor (Z.land r 0xFC) (Z.land (Z.shiftr b 6) 0x03),
          Z.lor (Z.land g 0xFC) (Z.land (Z.shiftr b 4) 0x03),
          Z.lor (Z.land bl 0xF0) (Z.land b 0x0F))
  /\ bits_224 b (r, g, bl)
       (Z.lor (Z.land r 0xFC) (Z.land (Z.shiftr b 6) 0x03),
        Z.lor (Z.land g 0xFC) (Z.land (Z.shiftr b 4) 0x03),
        Z.lor (Z.land bl 0xF0) (Z.land b 0x0F)).
Proof.
  intros Hwf Hrun Hb Hp.
  split; [|apply (embed_pixel_bits b (r, g, bl))].
  destruct (embed_ok_inv _ _ _ _ Hrun) as (Hne & Hlen & Hcap).
  pose proof (nonempty_len _ Hne) as Hpos.
  assert (Hcap' : len blob <= im_width cover * im_height cover - HEADER_LEN) by lia.
  rewrite (embed_run _ _ _ Hwf Hne Hcap' Hlen) in Hrun.
  injection Hrun as <- <-. simpl im_data.
  set (px := buffer h (im_data cover)) in *.
  set (spx := stego_pixels px (stream blob)).
  assert (Hbuf : buffer (h ++ [px; spx; spx]) (S (S (length h))) = spx).
  { apply buffer_lookup. rewrite lookup_app_r by lia.
    now replace (S (S (length h)) - length h)%nat with 2%nat by lia. }
  rewrite Hbuf. unfold spx.
  exact (stego_pixels_lookup _ _ _ _ _ Hb Hp).
Qed.

(** The decoder of the code computes the byte of the specification, on
    every pixel, and the header the big-endian integer of four of them. *)
Lemma recombine_fields (x y z : Z) :
  0 <= x < 4 -> 0 <= y < 4 -> 0 <= z < 16 ->
  uint8 (Z.lor (Z.lor (Z.shiftl x 6) (Z.shiftl y 4)) z) = 64 * x + 16 * y + z.
Proof.
  intros Hx Hy Hz.
  assert (H : forall b, is_byte b ->
            (uint8 (Z.lor (Z.lor (Z.shiftl (b / 64) 6) (Z.shiftl (b / 16 mod 4) 4))
                          (b mod 16)) =? b) = true).
  { apply byte_forall. vm_compute. reflexivity. }
  specialize (H (64 * x + 16 * y + z) ltac:(unfold is_byte; lia)).
  apply Z.eqb_eq in H.
  replace ((64 * x + 16 * y + z) / 64) with x in H by (Z.to_euclidean_division_equations; lia).
  replace ((64 * x + 16 * y + z) / 16 mod 4) with y in H by (Z.to_euclidean_division_equations; lia).
  replace ((64 * x + 16 * y + z) mod 16) with z in H by (Z.to_euclidean_division_equations; lia).
  exact H.
Qed.

Lemma decode_pixel_spec (p : pixel) : decode_pixel p = spec_pixel_byte p.
Proof.
  destruct p as [[r g] b]. unfold decode_pixel, spec_pixel_byte, get_channel.
  change 0x03 with (Z.ones 2). change 0x0F with (Z.ones 4).
  rewrite !Z.land_ones by lia. change (2 ^ 2) with 4. change (2 ^ 4) with 16.
  apply recombine_fields; Z.to_euclidean_division_equations; lia.
Qed.

Lemma _channels_to_bytes_spec (px : list pixel) :
  _channels_to_bytes px = map spec_pixel_byte px.
Proof.
  rewrite _channels_to_bytes_map. apply map_ext. exact decode_pixel_spec.
Qed.

Lemma spec_pixel_byte_range (p : pixel) : 0 <= spec_pixel_byte p <= 255.
Proof. destruct p as [[r g] b]. unfold spec_pixel_byte. Z.to_euclidean_division_equations; lia. Qed.

Lemma header_length_spec (p0 p1 p2 p3 : pixel) :
  int_from_bytes (_channels_to_bytes [p0; p1; p2; p3]) = spec_header_length p0 p1 p2 p3.
Proof.
  rewrite _channels_to_bytes_spec. unfold int_from_bytes, spec_header_length.
  cbn [map fold_left]. lia.
Qed.

Lemma four_and_more {A} (l : list A) :
  4 < len l -> exists p0 p1 p2 p3 rest, l = p0 :: p1 :: p2 :: p3 :: rest /\ rest <> [].
Proof.
  unfold len. intros H.
  destruct l as [|p0 [|p1 [|p2 [|p3 [|p4 rest]]]]]; cbn [length] in H; try lia.
  exists p0, p1, p2, p3, (p4 :: rest). split; [reflexivity | discriminate].
Qed.

Lemma slice_after_header {A} (p0 p1 p2 p3 : A) (rest : list A) (L : Z) :
  slice (p0 :: p1 :: p2 :: p3 :: rest) 4 (4 + L) = take (Z.to_nat L) rest.
Proof. unfold slice. replace (4 + L - 4) with L by lia. reflexivity. Qed.

(** C7.  [extract_encrypted_data] fails with [ImageTooSmall] on a grid of
    at most 4 pixels.  On a larger grid, with [L] the big-endian integer
    of the bytes the first 4 pixels carry (per pixel, the two low bits of
    red, the two low bits of green and the four low bits of blue, from
    the high end down), it fails with [InvalidPayload] if and only if
    [L <= 0] or [L > total_pixels - 4]; otherwise it returns the [L]
    bytes that the next [L] pixels carry.  In particular [L = 0] fails
    with [InvalidPayload]. *)
Theorem extract_cases (h : heap) (image : Image) :
  let px := buffer h (im_data image) in
  (len px <= 4 ->
     extract_encrypted_data image h = Raise (BlueCrypt ImageTooSmall))
  /\ (4 < len px ->
      exists p0 p1 p2 p3 rest,
        px = p0 :: p1 :: p2 :: p3 :: rest
        /\ let L := spec_header_length p0 p1 p2 p3 in
           (extract_encrypted_data image h = Raise (BlueCrypt InvalidPayload)
            <-> L <= 0 \/ len px - 4 < L)
           /\ (0 < L <= len px - 4 ->
               value (extract_encrypted_data image h)
               = Ok (map spec_pixel_byte (take (Z.to_nat L) rest))
               /\ len (map spec_pixel_byte (take (Z.to_nat L) rest)) = L)
           /\ (L = 0 ->
               extract_encrypted_data image h = Raise (BlueCrypt InvalidPayload))).
Proof.
  intros px. rewrite extract_run. fold px. cbv zeta. change HEADER_LEN with 4.
  split.
  - intros Hsmall. destruct (len px <=? 4) eqn:E; [reflexivity|lia].
  - intros Hbig. destruct (len px <=? 4) eqn:E; [lia|].
    destruct (four_and_more px Hbig) as (p0 & p1 & p2 & p3 & rest & Hpx & _).
    exists p0, p1, p2, p3, rest. split; [exact Hpx|].
    rewrite Hpx. rewrite slice_after_header.
    change (slice (p0 :: p1 :: p2 :: p3 :: rest) 0 4) with [p0; p1; p2; p3].
    rewrite header_length_spec, _channels_to_bytes_spec.
    assert (Hr : len (p0 :: p1 :: p2 :: p3 :: rest) - 4 = len rest).
    { unfold len. cbn [length]. lia. }
    rewrite Hr. clear E Hbig Hr Hpx.
    generalize (spec_header_length p0 p1 p2 p3). intros L. cbv zeta.
    destruct ((L <=? 0) || (len rest <? L)) eqn:E2.
    + repeat split; try lia; try reflexivity.
    + repeat split; try lia; try discriminate.
      unfold len. rewrite length_map, length_take. unfold len in *. lia.
Qed.

(** ** The framing of the encrypted blob *)

Lemma AES_new_ok (key nonce : bytes) :
  len key = 32 -> nonce <> [] ->
  AES_new key nonce = Ok {| gcm_key := key; gcm_nonce := nonce |}.
Proof.
  intros Hk Hn. unfold AES_new. rewrite Hk. simpl.
  destruct nonce; [congruence | reflexivity].
Qed.

Lemma slice_nonce (nonce rest : bytes) :
  len nonce = NONCE_LEN -> slice (nonce ++ rest) 0 NONCE_LEN = nonce.
Proof.
  intros Hn. unfold slice. rewrite Z.sub_0_r, <- Hn. unfold len.
  rewrite Nat2Z.id. simpl. apply take_app_length.
Qed.

Lemma slice_tag (nonce tag rest : bytes) :
  len nonce = NONCE_LEN -> len tag = TAG_LEN ->
  slice (nonce ++ tag ++ rest) NONCE_LEN (NONCE_LEN + TAG_LEN) = tag.
Proof.
  intros Hn Ht. unfold slice.
  replace (Z.to_nat (NONCE_LEN + TAG_LEN - NONCE_LEN)) with (length tag)
    by (unfold len in *; lia).
  replace (Z.to_nat NONCE_LEN) with (length nonce) by (unfold len in *; lia).
  rewrite drop_app_length. apply take_app_length.
Qed.

Lemma drop_ciphertext (nonce tag rest : bytes) :
  len nonce = NONCE_LEN -> len tag = TAG_LEN ->
  drop (Z.to_nat (NONCE_LEN + TAG_LEN)) (nonce ++ tag ++ rest) = rest.
Proof.
  intros Hn Ht.
  replace (Z.to_nat (NONCE_LEN + TAG_LEN)) with (length (nonce ++ tag))
    by (rewrite length_app; unfold len in *; lia).
  rewrite app_assoc. apply drop_app_length.
Qed.

Section Cipher.
Context `{H256 : Sha256} `{Hgcm : AesGcm}.

Lemma derive_key_len (password : str) (key : bytes) :
  derive_key password = Ok key -> len key = 32.
Proof.
  unfold derive_key. destruct password as [|c s]; [discriminate|].
  destruct (utf8_encode (c :: s)) as [enc|e]; simpl; [|discriminate].
  intros [= <-]. apply sha256_digest_len.
Qed.

Lemma encrypt_payload_run (nonce plaintext key : bytes) :
  len key = 32 -> len nonce = NONCE_LEN ->
  encrypt_payload nonce plaintext key
  = Ok (nonce ++ snd (encrypt_and_digest key nonce plaintext)
              ++ fst (encrypt_and_digest key nonce plaintext)).
Proof.
  intros Hk Hn. unfold encrypt_payload.
  rewrite AES_new_ok; [|exact Hk|].
  - simpl. now destruct (encrypt_and_digest key nonce plaintext).
  - intros ->. discriminate.
Qed.

Lemma decrypt_payload_short (encrypted key : bytes) :
  len encrypted <= NONCE_LEN + TAG_LEN ->
  decrypt_payload encrypted key = Raise (BlueCrypt TooShort).
Proof.
  intros Hs. unfold decrypt_payload. cbv zeta.
  destruct (len encrypted <=? NONCE_LEN + TAG_LEN) eqn:E; [reflexivity|lia].
Qed.

Lemma decrypt_payload_long (encrypted key : bytes) :
  len key = 32 -> NONCE_LEN + TAG_LEN < len encrypted ->
  decrypt_payload encrypted key
  = match decrypt_and_verify key (slice encrypted 0 NONCE_LEN)
            (drop (Z.to_nat (NONCE_LEN + TAG_LEN)) encrypted)
            (slice encrypted NONCE_LEN (NONCE_LEN + TAG_LEN)) with
    | Some plaintext => Ok plaintext
    | None => Raise (BlueCrypt AuthenticationFailed)
    end.
Proof.
  intros Hk Hl. unfold decrypt_payload. cbv zeta.
  destruct (len encrypted <=? NONCE_LEN + TAG_LEN) eqn:E; [lia|].
  rewrite AES_new_ok; [reflexivity|exact Hk|].
  unfold slice, len, NONCE_LEN, TAG_LEN in *.
  change (Z.to_nat (12 - 0)) with 12%nat. change (Z.to_nat 0) with 0%nat.
  intros Hnil. apply (f_equal length) in Hnil.
  rewrite length_take, length_drop in Hnil. change (length (@nil Z)) with 0%nat in Hnil. lia.
Qed.

(** C2.  For every non-empty byte sequence [d], every password [p] that
    [derive_key] accepts and every 12-byte nonce the encryption may draw,
    decrypting the encryption of [d] under the key derived from [p]
    returns [d]. *)
Theorem encrypt_decrypt_round_trip (p : str) (key d nonce : bytes) :
  derive_key p = Ok key ->
  d <> [] ->
  len nonce = NONCE_LEN ->
  exists blob,
    encrypt_payload nonce d key = Ok blob
    /\ decrypt_payload blob key = Ok d.
Proof.
  intros Hkey Hd Hn. pose proof (derive_key_len _ _ Hkey) as Hk.
  eexists. split; [now apply encrypt_payload_run|].
  pose proof (tag_len key nonce d) as Ht.
  pose proof (ciphertext_len key nonce d) as Hc.
  pose proof (nonempty_len _ Hd) as Hpos.
  rewrite decrypt_payload_long; [|exact Hk|].
  - rewrite slice_nonce, slice_tag, drop_ciphertext by assumption.
    now rewrite decrypt_encrypt.
  - rewrite !len_app. unfold NONCE_LEN, TAG_LEN in *. lia.
Qed.

(** C8.  For every blob and every 32-byte key, [decrypt_payload] fails
    with [TooShort] if and only if [len blob <= 28]; a 20-byte blob does;
    a longer blob is read as nonce (12 bytes), tag (16 bytes) and
    ciphertext (the rest), which are what is handed to the cipher. *)
Theorem decrypt_too_short (blob key : bytes) :
  len key = 32 ->
  (decrypt_payload blob key = Raise (BlueCrypt TooShort) <-> len blob <= 28)
  /\ (len blob = 20 -> decrypt_payload blob key = Raise (BlueCrypt TooShort))
  /\ (28 < len blob ->
      let nonce := slice blob 0 12 in
      let tag := slice blob 12 28 in
      let ciphertext := drop 28 blob in
      blob = nonce ++ tag ++ ciphertext
      /\ len nonce = 12 /\ len tag = 16
      /\ decrypt_payload blob key
         = match decrypt_and_verify key nonce ciphertext tag with
           | Some plaintext => Ok plaintext
           | None => Raise (BlueCrypt AuthenticationFailed)
           end).
Proof.
  intros Hk.
  assert (Hshort : len blob <= 28 -> decrypt_payload blob key = Raise (BlueCrypt TooShort)).
  { intros Hs. apply decrypt_payload_short. unfold NONCE_LEN, TAG_LEN. lia. }
  assert (Hlong : 28 < len blob ->
    decrypt_payload blob key
    = match decrypt_and_verify key (slice blob 0 12) (drop 28 blob) (slice blob 12 28) with
      | Some plaintext => Ok plaintext
      | None => Raise (BlueCrypt AuthenticationFailed)
      end).
  { intros Hl. rewrite decrypt_payload_long; [reflexivity|exact Hk|].
    unfold NONCE_LEN, TAG_LEN. lia. }
  split; [split|split].
  - intros Hr. destruct (Z_le_gt_dec (len blob) 28) as [Hle|Hgt]; [exact Hle|].
    rewrite Hlong in Hr by lia.
    destruct (decrypt_and_verify _ _ _ _); discriminate.
  - exact Hshort.
  - intros H20. apply Hshort. lia.
  - intros Hl. cbv zeta. repeat split.
    + unfold slice. simpl. rewrite drop_0.
      change 28%nat with (12 + 16)%nat. rewrite <- drop_drop.
      now rewrite !take_drop.
    + unfold len, slice. simpl. rewrite length_take, drop_0. unfold len in Hl. lia.
    + unfold len, slice. simpl. rewrite length_take, length_drop. unfold len in Hl. lia.
    + now apply Hlong.
Qed.

(** C10.  For every 32-byte key (and 12-byte nonce drawn),
    [encrypt_payload] accepts the empty plaintext and returns a blob of
    exactly 28 bytes, and [decrypt_payload] rejects every blob of at most
    28 bytes with [TooShort], this one included: the empty plaintext is
    never recovered. *)
Theorem empty_plaintext_not_recoverable (key nonce : bytes) :
  len key = 32 ->
  len nonce = NONCE_LEN ->
  (exists blob,
     encrypt_payload nonce [] key = Ok blob
     /\ len blob = 28
     /\ decrypt_payload blob key = Raise (BlueCrypt TooShort))
  /\ (forall blob, len blob <= 28 ->
        decrypt_payload blob key = Raise (BlueCrypt TooShort)).
Proof.
  intros Hk Hn.
  assert (Hshort : forall blob, len blob <= 28 ->
            decrypt_payload blob key = Raise (BlueCrypt TooShort)).
  { intros blob Hs. apply decrypt_payload_short. unfold NONCE_LEN, TAG_LEN. lia. }
  split; [|exact Hshort].
  eexists. split; [now apply encrypt_payload_run|].
  pose proof (tag_len key nonce []) as Ht.
  pose proof (ciphertext_len key nonce []) as Hc.
  assert (Hlen : len (nonce ++ snd (encrypt_and_digest key nonce [])
                        ++ fst (encrypt_and_digest key nonce [])) = 28).
  { rewrite !len_app, Hn, Ht, Hc. reflexivity. }
  split; [exact Hlen|]. apply Hshort. lia.
Qed.
End Cipher.

(** ** The envelope: UTF-8, [strip] and the round trip *)

Lemma utf8_decode_cons (b1 : Z) (t1 : bytes) :
  utf8_decode (b1 :: t1) =
    if b1 <? 0x80 then b1 :: utf8_decode t1
    else if b1 <? 0xC2 then REPLACEMENT :: utf8_decode t1
    else if b1 <? 0xE0 then
      match t1 with
      | [] => [REPLACEMENT]
      | b2 :: t2 =>
        if is_continuation b2
        then ((b1 - 0xC0) * 64 + (b2 - 0x80)) :: utf8_decode t2
        else REPLACEMENT :: utf8_decode t1
      end
    else if b1 <? 0xF0 then
      match t1 with
      | [] => [REPLACEMENT]
      | b2 :: t2 =>
        if negb (is_continuation b2)
           || (if b2 <? 0xA0 then b1 =? 0xE0 else b1 =? 0xED)
        then REPLACEMENT :: utf8_decode t1
        else
          match t2 with
          | [] => [REPLACEMENT]
          | b3 :: t3 =>
            if is_continuation b3
            then ((b1 - 0xE0) * 4096 + (b2 - 0x80) * 64 + (b3 - 0x80))
                   :: utf8_decode t3
            else REPLACEMENT :: utf8_decode t2
          end
      end
    else if b1 <? 0xF5 then
      match t1 with
      | [] => [REPLACEMENT]
      | b2 :: t2 =>
        if negb (is_continuation b2)
           || (if b2 <? 0x90 then b1 =? 0xF0 else b1 =? 0xF4)
        then REPLACEMENT :: utf8_decode t1
        else
          match t2 with
          | [] => [REPLACEMENT]
          | b3 :: t3 =>
            if negb (is_continuation b3)
            then REPLACEMENT :: utf8_decode t2
            else
              match t3 with
              | [] => [REPLACEMENT]
              | b4 :: t4 =>
                if is_continuation b4
                then ((b1 - 0xF0) * 262144 + (b2 - 0x80) * 4096
                      + (b3 - 0x80) * 64 + (b4 - 0x80)) :: utf8_decode t4
                else REPLACEMENT :: utf8_decode t3
              end
          end
      end
    else REPLACEMENT :: utf8_decode t1.
Proof. reflexivity. Qed.

Ltac zdiv := Z.to_euclidean_division_equations; lia.

Lemma continuation_byte (x : Z) : is_continuation (0x80 + x mod 64) = true.
Proof. unfold is_continuation. pose proof (Z.mod_pos_bound x 64). lia. Qed.

Lemma utf8_decode_encode_cp (c : Z) (bs rest : bytes) :
  utf8_encode_cp c = Ok bs ->
  utf8_decode (bs ++ rest) = c :: utf8_decode rest.
Proof.
  unfold utf8_encode_cp.
  destruct (Z.ltb_spec c 0); [discriminate|].
  destruct (Z.ltb_spec c 0x80).
  { intros [= <-]. cbn [app]. rewrite utf8_decode_cons.
    destruct (Z.ltb_spec c 0x80); [reflexivity|zdiv]. }
  destruct (Z.ltb_spec c 0x800).
  { intros [= <-]. cbn [app]. rewrite utf8_decode_cons.
    rewrite continuation_byte.
    destruct (Z.ltb_spec (0xC0 + c / 64) 0x80); [zdiv|].
    destruct (Z.ltb_spec (0xC0 + c / 64) 0xC2); [zdiv|].
    destruct (Z.ltb_spec (0xC0 + c / 64) 0xE0); [|zdiv].
    f_equal. zdiv. }
  destruct (Z.ltb_spec c 0x10000).
  { destruct ((0xD800 <=? c) && (c <? 0xE000)) eqn:Es; [discriminate|].
    intros [= <-]. cbn [app]. rewrite utf8_decode_cons.
    rewrite !continuation_byte.
    destruct (Z.ltb_spec (0xE0 + c / 4096) 0x80); [zdiv|].
    destruct (Z.ltb_spec (0xE0 + c / 4096) 0xC2); [zdiv|].
    destruct (Z.ltb_spec (0xE0 + c / 4096) 0xE0); [zdiv|].
    destruct (Z.ltb_spec (0xE0 + c / 4096) 0xF0); [|zdiv].
    assert (Hg : (if 0x80 + (c / 64) mod 64 <? 0xA0
                  then 0xE0 + c / 4096 =? 0xE0 else 0xE0 + c / 4096 =? 0xED) = false).
    { destruct (Z.ltb_spec (0x80 + (c / 64) mod 64) 0xA0); zdiv. }
    rewrite Hg. cbn [negb orb]. f_equal. zdiv. }
  destruct (Z.ltb_spec c 0x110000); [|discriminate].
  intros [= <-]. cbn [app]. rewrite utf8_decode_cons.
  rewrite !continuation_byte.
  destruct (Z.ltb_spec (0xF0 + c / 262144) 0x80); [zdiv|].
  destruct (Z.ltb_spec (0xF0 + c / 262144) 0xC2); [zdiv|].
  destruct (Z.ltb_spec (0xF0 + c / 262144) 0xE0); [zdiv|].
  destruct (Z.ltb_spec (0xF0 + c / 262144) 0xF0); [zdiv|].
  destruct (Z.ltb_spec (0xF0 + c / 262144) 0xF5); [|zdiv].
  assert (Hg : (if 0x80 + (c / 4096) mod 64 <? 0x90
                then 0xF0 + c / 262144 =? 0xF0 else 0xF0 + c / 262144 =? 0xF4) = false).
  { destruct (Z.ltb_spec (0x80 + (c / 4096) mod 64) 0x90); zdiv. }
  rewrite Hg. cbn [negb orb]. f_equal. zdiv.
Qed.

Lemma utf8_decode_encode (s : str) (bs : bytes) :
  utf8_encode s = Ok bs -> utf8_decode bs = s.
Proof.
  revert bs. induction s as [|c s IH]; intros bs.
  - intros [= <-]. reflexivity.
  - cbn [utf8_encode]. destruct (utf8_encode_cp c) as [cb|e] eqn:Ec; [|discriminate].
    cbn [rbind]. destruct (utf8_encode s) as [rest|e]; [|discriminate].
    cbn [rbind]. intros [= <-].
    rewrite (utf8_decode_encode_cp _ _ _ Ec). f_equal. now apply IH.
Qed.

Lemma lstrip_head (s : str) :
  match lstrip s with
  | [] => True
  | c :: _ => isspace c = false
  end.
Proof.
  induction s as [|c s IH]; cbn [lstrip]; [exact I|].
  destruct (isspace c) eqn:E; [exact IH | exact E].
Qed.

Lemma lstrip_fixed (c : Z) (s : str) : isspace c = false -> lstrip (c :: s) = c :: s.
Proof. intros E. cbn [lstrip]. now rewrite E. Qed.

Lemma rstrip_idempotent (s : str) : rstrip (rstrip s) = rstrip s.
Proof.
  induction s as [|c s IH]; [reflexivity|].
  cbn [rstrip]. destruct (rstrip s) as [|k ks] eqn:E.
  - destruct (isspace c) eqn:Ec; [reflexivity|].
    cbn [rstrip]. now rewrite Ec.
  - cbn [rstrip]. cbn [rstrip] in IH. now rewrite IH.
Qed.

Lemma rstrip_head (c : Z) (s : str) :
  isspace c = false -> exists t, rstrip (c :: s) = c :: t.
Proof.
  intros E. cbn [rstrip]. destruct (rstrip s) as [|k ks].
  - rewrite E. now exists [].
  - now exists (k :: ks).
Qed.

Lemma strip_idempotent (s : str) : strip (strip s) = strip s.
Proof.
  unfold strip. pose proof (lstrip_head s) as Hh.
  destruct (lstrip s) as [|c t]; [reflexivity|].
  destruct (rstrip_head c t Hh) as [t' Ht]. rewrite Ht.
  rewrite lstrip_fixed by exact Hh. rewrite <- Ht. apply rstrip_idempotent.
Qed.

Lemma clean_name_stripped (f : str) :
  strip (clean_name f) = clean_name f /\ clean_name f <> [].
Proof.
  unfold clean_name.
  destruct (strip (basename (str_or f []))) as [|c t] eqn:E; cbn [str_or].
  - split; [reflexivity | discriminate].
  - split; [|discriminate]. rewrite <- E. apply strip_idempotent.
Qed.

Lemma clean_name_eq (f : str) :
  clean_name f = str_or (strip (basename f)) (py_str "secret.bin").
Proof. unfold clean_name. now destruct f. Qed.

Lemma slice_prefix {A} (a rest : list A) : slice (a ++ rest) 0 (len a) = a.
Proof.
  unfold slice, len. rewrite Z.sub_0_r, Nat2Z.id. change (Z.to_nat 0) with 0%nat.
  rewrite drop_0. apply take_app_length.
Qed.

Lemma slice_middle {A} (a b rest : list A) :
  slice (a ++ b ++ rest) (len a) (len a + len b) = b.
Proof.
  unfold slice, len.
  replace (Z.to_nat (Z.of_nat (length a) + Z.of_nat (length b) - Z.of_nat (length a)))
    with (length b) by lia.
  rewrite Nat2Z.id, drop_app_length. apply take_app_length.
Qed.

Lemma package_run (f : str) (d name_bytes : bytes) :
  d <> [] ->
  utf8_encode (clean_name f) = Ok name_bytes ->
  len name_bytes <= 65535 ->
  package_secret_file f d
  = Ok (MAGIC ++ be_digits 2 (len name_bytes) ++ name_bytes ++ d).
Proof.
  intros Hd Henc Hlen. unfold package_secret_file.
  destruct d as [|d0 d']; [congruence|].
  rewrite Henc. cbn [rbind].
  destruct (Z.ltb_spec 65535 (len name_bytes)); [lia|].
  rewrite int_to_bytes_ok; [reflexivity|].
  pose proof (len_nonneg name_bytes). change (256 ^ Z.of_nat 2) with 65536. lia.
Qed.

Lemma package_name_too_long (f : str) (d name_bytes : bytes) :
  d <> [] ->
  utf8_encode (clean_name f) = Ok name_bytes ->
  65535 < len name_bytes ->
  package_secret_file f d = Raise (BlueCrypt NameTooLong).
Proof.
  intros Hd Henc Hlen. unfold package_secret_file.
  destruct d as [|d0 d']; [congruence|].
  rewrite Henc. cbn [rbind].
  destruct (Z.ltb_spec 65535 (len name_bytes)); [reflexivity|lia].
Qed.

Lemma unpackage_run (name : str) (d name_bytes : bytes) :
  d <> [] ->
  utf8_encode name = Ok name_bytes ->
  len name_bytes <= 65535 ->
  strip name = name -> name <> [] ->
  unpackage_secret_file (MAGIC ++ be_digits 2 (len name_bytes) ++ name_bytes ++ d)
  = Ok {| filename := name; data := d |}.
Proof.
  intros Hd Henc Hlen Hstrip Hname.
  pose proof (len_nonneg name_bytes) as Hnn.
  pose proof (nonempty_len _ Hd) as Hdpos.
  unfold unpackage_secret_file.
  set (hdr := be_digits 2 (len name_bytes)).
  assert (Hhdr : len hdr = 2) by (unfold len, hdr; now rewrite be_digits_length).
  assert (Hmagic : len MAGIC = 4) by reflexivity.
  set (payload := MAGIC ++ hdr ++ name_bytes ++ d).
  assert (Hpl : len payload = 6 + len name_bytes + len d).
  { unfold payload. rewrite !len_app. lia. }
  destruct (Z.ltb_spec (len payload) (len MAGIC + 2)); [lia|].
  assert (Hm : slice payload 0 (len MAGIC) = MAGIC) by apply slice_prefix.
  unfold bytes_eqb. rewrite (bool_decide_eq_true_2 _ Hm). cbn [negb]. cbv zeta.
  assert (Hnl : slice payload (len MAGIC) (len MAGIC + 2) = hdr).
  { unfold payload. rewrite <- Hhdr. apply slice_middle. }
  assert (Hint : int_from_bytes hdr = len name_bytes).
  { apply int_from_bytes_be_digits. change (256 ^ Z.of_nat 2) with 65536. lia. }
  rewrite Hnl, !Hint.
  destruct (Z.ltb_spec (len payload) (len MAGIC + 2 + len name_bytes)); [lia|].
  assert (Hnb : slice payload (len MAGIC + 2) (len MAGIC + 2 + len name_bytes) = name_bytes).
  { unfold payload. rewrite app_assoc.
    replace (len MAGIC + 2) with (len (MAGIC ++ hdr)) by (rewrite len_app; lia).
    apply slice_middle. }
  rewrite Hnb, (utf8_decode_encode _ _ Henc), Hstrip.
  assert (Hdrop : drop (Z.to_nat (len MAGIC + 2 + len name_bytes)) payload = d).
  { unfold payload. rewrite !app_assoc.
    replace (Z.to_nat (len MAGIC + 2 + len name_bytes))
      with (length ((MAGIC ++ hdr) ++ name_bytes)).
    - apply drop_app_length.
    - rewrite !length_app. unfold len in *. lia. }
  rewrite Hdrop. destruct d as [|d0 d']; [congruence|].
  destruct name as [|c name']; [congruence|]. reflexivity.
Qed.

(** C4 (amended).  For every filename [f] and every non-empty byte
    sequence [d], when the name written, the basename of [f] with leading
    and trailing whitespace stripped, or [secret.bin] when that is empty,
    encodes to at most 65535 bytes of UTF-8, [package_secret_file]
    succeeds and [unpackage_secret_file] of its result returns that name
    and [d]. *)
Theorem envelope_round_trip (f : str) (d name_bytes : bytes) :
  d <> [] ->
  utf8_encode (str_or (strip (basename f)) (py_str "secret.bin")) = Ok name_bytes ->
  len name_bytes <= 65535 ->
  exists envelope,
    package_secret_file f d = Ok envelope
    /\ unpackage_secret_file envelope
       = Ok {| filename := str_or (strip (basename f)) (py_str "secret.bin");
               data := d |}.
Proof.
  rewrite <- clean_name_eq. intros Hd Henc Hlen.
  destruct (clean_name_stripped f) as [Hs Hn].
  eexists. split; [exact (package_run f d name_bytes Hd Henc Hlen)|].
  now apply unpackage_run.
Qed.

(** ** The quality metric *)

Lemma buffer_app_l (h k : heap) (l : loc) :
  (l < length h)%nat -> buffer (h ++ k) l = buffer h l.
Proof. intros Hl. unfold buffer. now rewrite lookup_app_l. Qed.

Lemma buffer_last (h : heap) (px : list pixel) : buffer (h ++ [px]) (length h) = px.
Proof. apply buffer_lookup, lookup_last_alloc. Qed.

Lemma channel_values_length (px : list pixel) :
  length (channel_values px) = (3 * length px)%nat.
Proof.
  unfold channel_values. induction px as [|p px IH]; [reflexivity|].
  cbn [map concat]. rewrite length_app, IH. simpl. lia.
Qed.

Lemma np_binop_same_length (f : Z -> Z -> Z) (xs ys : list Z) :
  length xs = length ys -> np_binop f xs ys = Ok (zip_with f xs ys).
Proof.
  intros Hl. unfold np_binop.
  assert (Hn : (if (length xs =? 1)%nat then length ys else length xs) = length xs)
    by (destruct (length xs =? 1)%nat; congruence).
  rewrite Hn, broadcast_to_same. cbn [rbind].
  rewrite Hl, broadcast_to_same. reflexivity.
Qed.

Lemma map_square_zip_sub (xs ys : list Z) :
  map (fun d => d ^ 2) (zip_with Z.sub xs ys)
  = zip_with (fun x y => (x - y) ^ 2) xs ys.
Proof.
  revert ys. induction xs as [|x xs IH]; intros [|y ys]; simpl; try reflexivity.
  now rewrite IH.
Qed.

Lemma calculate_psnr_mismatch (h : heap) (a b : Image) :
  (im_width a, im_height a) <> (im_width b, im_height b) ->
  calculate_psnr a b h = Raise (BlueCrypt DimensionMismatch).
Proof.
  intros Hne. unfold calculate_psnr.
  destruct (Z.eqb_spec (im_width a) (im_width b)) as [Hw|Hw];
    destruct (Z.eqb_spec (im_height a) (im_height b)) as [Hh|Hh];
    try reflexivity.
  exfalso. apply Hne. congruence.
Qed.

Lemma calculate_psnr_run (h : heap) (a b : Image) :
  wf_image h a -> wf_image h b ->
  (im_width a, im_height a) = (im_width b, im_height b) ->
  exists h',
    calculate_psnr a b h
    = Ok (psnr_of (buffer h (im_data a)) (buffer h (im_data b)), h').
Proof.
  intros Ha Hb [= Hw Hh].
  destruct (wf_image_inv _ _ Ha) as (_ & _ & pa & Hpa & Hsa & _).
  destruct (wf_image_inv _ _ Hb) as (_ & _ & pb & Hpb & Hsb & _).
  rewrite (buffer_lookup _ _ _ Hpa), (buffer_lookup _ _ _ Hpb).
  assert (Hlen : length pa = length pb) by (unfold len in *; nia).
  pose proof (lookup_lt_Some _ _ _ Hpb) as Hlb.
  unfold calculate_psnr. rewrite Hw, Hh, !Z.eqb_refl. cbn [andb negb].
  rewrite (bind_ok _ _ _ _ _ (convert_RGB_run _ _)).
  rewrite (bind_ok _ _ _ _ _ (np_array_run _ _)).
  rewrite (bind_ok _ _ _ _ _ (convert_RGB_run _ _)).
  rewrite (bind_ok _ _ _ _ _ (np_array_run _ _)).
  cbn [im_data]. unfold bind, load.
  rewrite (buffer_lookup _ _ _ Hpa), buffer_last.
  rewrite buffer_last.
  rewrite (buffer_app_l (h ++ [pa]) [pa]) by (rewrite length_app; simpl; lia).
  rewrite (buffer_app_l h [pa]) by exact Hlb.
  rewrite (buffer_lookup _ _ _ Hpb).
  set (H4 := (((h ++ [pa]) ++ [pa]) ++ [pb]) ++ [pb]).
  assert (HA : buffer H4 (length (h ++ [pa])) = pa).
  { unfold H4. rewrite !buffer_app_l by (rewrite !length_app; simpl; lia).
    apply buffer_last. }
  assert (HB : buffer H4 (length (((h ++ [pa]) ++ [pa]) ++ [pb])) = pb).
  { unfold H4. apply buffer_last. }
  rewrite HA, HB.
  rewrite np_binop_same_length by (rewrite !channel_values_length; lia).
  cbn [lift]. unfold psnr_of, mean_squared_error, squared_error.
  rewrite map_square_zip_sub.
  pose proof (channel_values_length pa) as Hca.
  pose proof (channel_values_length pb) as Hcb.
  unfold np_mean.
  destruct (channel_values pa) as [|x xs] eqn:Ea.
  - exists H4. reflexivity.
  - destruct (channel_values pb) as [|y ys] eqn:Eb.
    + cbn [length] in Hca, Hcb. exfalso. lia.
    + set (sq := zip_with (fun x0 y0 => (x0 - y0) ^ 2) (x :: xs) (y :: ys)).
      assert (Hsq : length sq = (3 * length pa)%nat).
      { unfold sq. rewrite length_zip_with. cbn [length] in *. lia. }
      destruct sq as [|s0 sq'] eqn:Esq.
      * exfalso. cbn [length] in *. lia.
      * rewrite Hsq. unfold Qeq_bool. cbn [Qnum Qden].
        rewrite Z.mul_1_r, Z.mul_0_l.
        exists H4. unfold ret. now destruct (fold_right Z.add 0 (s0 :: sq') =? 0).
Qed.

Lemma squared_error_sym (pa pb : list pixel) :
  squared_error pa pb = squared_error pb pa.
Proof.
  unfold squared_error. f_equal.
  generalize (channel_values pa) (channel_values pb). clear.
  intros xs. induction xs as [|x xs IH]; intros [|y ys]; simpl; try reflexivity.
  rewrite IH. f_equal. ring.
Qed.

Lemma squared_error_refl (pa : list pixel) : squared_error pa pa = 0.
Proof.
  unfold squared_error. generalize (channel_values pa). clear.
  intros xs. induction xs as [|x xs IH]; simpl; [reflexivity|].
  rewrite IH, Z.sub_diag. reflexivity.
Qed.

Lemma psnr_of_sym (pa pb : list pixel) :
  length pa = length pb -> psnr_of pa pb = psnr_of pb pa.
Proof.
  intros Hl. unfold psnr_of, mean_squared_error.
  rewrite (squared_error_sym pa pb), Hl.
  pose proof (channel_values_length pa) as Ha.
  pose proof (channel_values_length pb) as Hb.
  destruct (channel_values pa), (channel_values pb); cbn [length] in *;
    try reflexivity; exfalso; lia.
Qed.

(** X23.  [calculate_psnr] on well-formed images: it fails with
    [DimensionMismatch] exactly when the sizes of the two images differ;
    for an image with at least one pixel the PSNR with itself is
    [+infinity]; for two images of equal size with at least one pixel the
    value is the same in both orders, and when they differ in some
    channel it is [20 * log10 (255 / sqrt MSE)], [MSE] the mean of the
    squared channel differences. *)
Theorem psnr_properties (h : heap) (a b : Image) :
  wf_image h a -> wf_image h b ->
  let pa := buffer h (im_data a) in
  let pb := buffer h (im_data b) in
  (value (calculate_psnr a b h) = Raise (BlueCrypt DimensionMismatch)
   <-> (im_width a, im_height a) <> (im_width b, im_height b))
  /\ (0 < im_width a * im_height a -> value (calculate_psnr a a h) = Ok PosInf)
  /\ ((im_width a, im_height a) = (im_width b, im_height b) ->
      0 < im_width a * im_height a ->
      value (calculate_psnr a b h) = value (calculate_psnr b a h)
      /\ (squared_error pa pb <> 0 ->
          value (calculate_psnr a b h)
          = Ok (Finite (20 * log10 (255 / sqrt (Q2R (mean_squared_error pa pb))))%R))).
Proof.
  intros Ha Hb pa pb.
  destruct (wf_image_inv _ _ Ha) as (_ & _ & pa' & Hpa & Hsa & _).
  destruct (wf_image_inv _ _ Hb) as (_ & _ & pb' & Hpb & Hsb & _).
  assert (Epa : pa = pa') by (apply buffer_lookup; exact Hpa).
  assert (Epb : pb = pb') by (apply buffer_lookup; exact Hpb).
  split; [split|split].
  - intros Hr Heq.
    destruct (calculate_psnr_run h a b Ha Hb Heq) as [h' Hrun].
    rewrite Hrun in Hr. discriminate.
  - intros Hne. now rewrite calculate_psnr_mismatch.
  - intros Hpos.
    destruct (calculate_psnr_run h a a Ha Ha eq_refl) as [h' Hrun].
    rewrite Hrun. cbn [value]. fold pa. unfold psnr_of.
    rewrite squared_error_refl. cbn.
    pose proof (channel_values_length pa) as Hc.
    destruct (channel_values pa); [|reflexivity].
    exfalso. cbn [length] in Hc. rewrite Epa in Hc. unfold len in Hsa. lia.
  - intros Heq Hpos.
    destruct (calculate_psnr_run h a b Ha Hb Heq) as [h1 Hab].
    destruct (calculate_psnr_run h b a Hb Ha (eq_sym Heq)) as [h2 Hba].
    fold pa pb in Hab, Hba.
    assert (Hl : length pa = length pb).
    { injection Heq as Hw Hh. rewrite Epa, Epb. unfold len in *. nia. }
    split.
    + rewrite Hab, Hba. cbn [value]. f_equal. now apply psnr_of_sym.
    + intros Hse. rewrite Hab. cbn [value]. f_equal. unfold psnr_of.
      pose proof (channel_values_length pa) as Hc.
      destruct (channel_values pa).
      * exfalso. cbn [length] in Hc. rewrite Epa in Hc. unfold len in Hsa. lia.
      * destruct (Z.eqb_spec (squared_error pa pb) 0); [contradiction | reflexivity].
Qed.

(** Beyond 4 bytes of length the header cannot be written. *)
Lemma embed_header_overflow (h : heap) (cover : Image) (blob : bytes) :
  blob <> [] ->
  len blob <= im_width cover * im_height cover - HEADER_LEN ->
  2 ^ 32 <= len blob ->
  embed_encrypted_data cover blob h = Raise OverflowError.
Proof.
  intros Hne Hcap Hbig. unfold embed_encrypted_data.
  destruct blob as [|b0 blob0] eqn:Eblob; [congruence|]. rewrite <- Eblob in *.
  unfold max_embeddable_payload_bytes. cbv zeta.
  destruct (Z.ltb_spec (Z.max (im_width cover * im_height cover - HEADER_LEN) 0) (len blob));
    [lia|].
  rewrite (bind_ok _ _ _ _ _ (convert_RGB_run _ _)).
  rewrite (bind_ok _ _ _ _ _ (np_array_run _ _)).
  now rewrite int_to_bytes_overflow by exact Hbig.
Qed.

(** ** The theorems at concrete inputs *)

Ltac bytes_ok := repeat first [apply List.Forall_nil | apply List.Forall_cons; [unfold is_byte; lia|]].

Lemma stego_round_trip_witness :
  exists stego h',
    embed_encrypted_data image_3x3 [171; 18] store_3x3 = Ok (stego, h')
    /\ value (extract_encrypted_data stego h') = Ok [171; 18].
Proof.
  apply (stego_round_trip store_3x3 image_3x3 [171; 18]).
  - reflexivity.
  - bytes_ok.
  - discriminate.
  - reflexivity.
  - vm_compute. discriminate.
Defined.

Lemma stego_round_trip_empty_blob :
  wf_image store_3x3 image_3x3
  /\ len (@nil Z) <= im_width image_3x3 * im_height image_3x3 - 4
  /\ embed_encrypted_data image_3x3 [] store_3x3 = Raise (BlueCrypt EmptyPayload).
Proof. repeat split. vm_compute. discriminate. Qed.

Lemma embed_capacity_boundary_witness :
  embed_encrypted_data image_3x3 [] store_3x3 = Raise (BlueCrypt EmptyPayload)
  /\ (succeeds (embed_encrypted_data image_3x3 [1; 2; 3; 4; 5] store_3x3)
      <-> len [1; 2; 3; 4; 5] <= im_width image_3x3 * im_height image_3x3 - 4)
  /\ (im_width image_3x3 * im_height image_3x3 - 4 < len [1; 2; 3; 4; 5] ->
      embed_encrypted_data image_3x3 [1; 2; 3; 4; 5] store_3x3
      = Raise (BlueCrypt (CapacityExceeded (len [1; 2; 3; 4; 5])
                 (Z.max (im_width image_3x3 * im_height image_3x3 - 4) 0)))).
Proof.
  destruct (embed_capacity_boundary store_3x3 image_3x3 [1; 2; 3; 4; 5]) as [Hempty Hrest].
  split; [exact Hempty|]. apply Hrest.
  - reflexivity.
  - discriminate.
  - reflexivity.
Defined.

Lemma embed_rejects_empty_blob_below_capacity :
  len (@nil Z) <= im_width image_3x3 * im_height image_3x3 - 4
  /\ embed_encrypted_data image_3x3 [] store_3x3 = Raise (BlueCrypt EmptyPayload)
  /\ forall r, embed_encrypted_data image_3x3 [] store_3x3 <> Ok r.
Proof. repeat split. vm_compute; discriminate. discriminate. Qed.

Lemma embed_byte_split_witness :
  buffer (snd embedded_3x3) (im_data (fst embedded_3x3)) !! 4%nat
  = Some (Z.lor (Z.land 255 0xFC) (Z.land (Z.shiftr 171 6) 0x03),
          Z.lor (Z.land 255 0xFC) (Z.land (Z.shiftr 171 4) 0x03),
          Z.lor (Z.land 255 0xF0) (Z.land 171 0x0F))
  /\ bits_224 171 (255, 255, 255)
       (Z.lor (Z.land 255 0xFC) (Z.land (Z.shiftr 171 6) 0x03),
        Z.lor (Z.land 255 0xFC) (Z.land (Z.shiftr 171 4) 0x03),
        Z.lor (Z.land 255 0xF0) (Z.land 171 0x0F)).
Proof.
  apply (embed_byte_split store_3x3 image_3x3 [171; 18]
           (fst embedded_3x3) (snd embedded_3x3) 4 171 255 255 255);
    reflexivity.
Defined.

Lemma embed_frame_witness :
  (im_width (fst embedded_3x3) = im_width image_3x3
   /\ im_height (fst embedded_3x3) = im_height image_3x3)
  /\ length (buffer (snd embedded_3x3) (im_data (fst embedded_3x3)))
     = length (buffer store_3x3 (im_data image_3x3))
  /\ (forall i : nat, HEADER_LEN + len [171; 18] <= Z.of_nat i ->
        buffer (snd embedded_3x3) (im_data (fst embedded_3x3)) !! i
        = buffer store_3x3 (im_data image_3x3) !! i)
  /\ (forall l : loc, (l < length store_3x3)%nat ->
        snd embedded_3x3 !! l = store_3x3 !! l)
  /\ buffer (snd embedded_3x3) (im_data image_3x3)
     = buffer store_3x3 (im_data image_3x3)
  /\ (length store_3x3 <= im_data (fst embedded_3x3))%nat.
Proof.
  apply (embed_frame store_3x3 image_3x3 [171; 18]
           (fst embedded_3x3) (snd embedded_3x3)); reflexivity.
Defined.

Lemma encrypt_decrypt_round_trip_witness :
  exists blob,
    @encrypt_payload standin_gcm nonce_12 [104; 101; 108; 108; 111] hunter2_key = Ok blob
    /\ @decrypt_payload standin_gcm blob hunter2_key = Ok [104; 101; 108; 108; 111].
Proof.
  apply (@encrypt_decrypt_round_trip standin_sha256 standin_gcm
           (py_str "hunter2") hunter2_key [104; 101; 108; 108; 111] nonce_12).
  - reflexivity.
  - discriminate.
  - reflexivity.
Defined.

Lemma decrypt_too_short_witness :
  (@decrypt_payload standin_gcm (replicate 20 0) hunter2_key = Raise (BlueCrypt TooShort)
   <-> len (replicate 20 0) <= 28)
  /\ (len (replicate 20 0) = 20 ->
      @decrypt_payload standin_gcm (replicate 20 0) hunter2_key = Raise (BlueCrypt TooShort))
  /\ (28 < len (replicate 20 0) ->
      let nonce := slice (replicate 20 0) 0 12 in
      let tag := slice (replicate 20 0) 12 28 in
      let ciphertext := drop 28 (replicate 20 0) in
      replicate 20 0 = nonce ++ tag ++ ciphertext
      /\ len nonce = 12 /\ len tag = 16
      /\ @decrypt_payload standin_gcm (replicate 20 0) hunter2_key
         = match @decrypt_and_verify standin_gcm hunter2_key nonce ciphertext tag with
           | Some plaintext => Ok plaintext
           | None => Raise (BlueCrypt AuthenticationFailed)
           end).
Proof.
  apply (@decrypt_too_short standin_gcm (replicate 20 0) hunter2_key).
  reflexivity.
Defined.

Lemma empty_plaintext_not_recoverable_witness :
  (exists blob,
     @encrypt_payload standin_gcm nonce_12 [] hunter2_key = Ok blob
     /\ len blob = 28
     /\ @decrypt_payload standin_gcm blob hunter2_key = Raise (BlueCrypt TooShort))
  /\ (forall blob, len blob <= 28 ->
        @decrypt_payload standin_gcm blob hunter2_key = Raise (BlueCrypt TooShort)).
Proof.
  apply (@empty_plaintext_not_recoverable standin_gcm hunter2_key nonce_12);
    reflexivity.
Defined.

Lemma envelope_round_trip_witness :
  exists envelope,
    package_secret_file (py_str "a/b/ note.txt ") [104; 105] = Ok envelope
    /\ unpackage_secret_file envelope
       = Ok {| filename :=
                 str_or (strip (basename (py_str "a/b/ note.txt "))) (py_str "secret.bin");
               data := [104; 105] |}.
Proof.
  apply (envelope_round_trip (py_str "a/b/ note.txt ") [104; 105]
           [110; 111; 116; 101; 46; 116; 120; 116]).
  - discriminate.
  - reflexivity.
  - vm_compute. discriminate.
Defined.

Lemma envelope_round_trip_strips_whitespace :
  str_or (basename (py_str " a")) (py_str "secret.bin") = py_str " a"
  /\ rbind (package_secret_file (py_str " a") [1]) unpackage_secret_file
     = Ok {| filename := py_str "a"; data := [1] |}
  /\ py_str "a" <> py_str " a".
Proof. repeat split. discriminate. Qed.

Lemma psnr_properties_witness :
  let pa := buffer store_pair (im_data image_a) in
  let pb := buffer store_pair (im_data image_b) in
  (value (calculate_psnr image_a image_b store_pair) = Raise (BlueCrypt DimensionMismatch)
   <-> (im_width image_a, im_height image_a) <> (im_width image_b, im_height image_b))
  /\ (0 < im_width image_a * im_height image_a ->
      value (calculate_psnr image_a image_a store_pair) = Ok PosInf)
  /\ ((im_width image_a, im_height image_a) = (im_width image_b, im_height image_b) ->
      0 < im_width image_a * im_height image_a ->
      value (calculate_psnr image_a image_b store_pair)
      = value (calculate_psnr image_b image_a store_pair)
      /\ (squared_error pa pb <> 0 ->
          value (calculate_psnr image_a image_b store_pair)
          = Ok (Finite (20 * log10 (255 / sqrt (Q2R (mean_squared_error pa pb))))%R))).
Proof.
  apply (psnr_properties store_pair image_a image_b); reflexivity.
Defined.

(** C9.  On an image without pixels [calculate_psnr] of the image and
    itself returns [nan], where the specification has [+infinity] for
    every grid: the mean of no values is [nan], which is not [0], so the
    branch that returns [math.inf] is not taken. *)
Lemma psnr_of_grid_without_pixels :
  wf_image store_0x0 image_0x0
  /\ value (calculate_psnr image_0x0 image_0x0 store_0x0) = Ok NaN
  /\ Ok NaN <> Ok PosInf.
Proof. repeat split. discriminate. Qed.

(** ** Scenarios *)

(** Password [hunter2], file [note.txt] holding [hello], a 10x10 white
    cover: pack, encrypt, embed, extract, decrypt, unpack. *)
Example hide_and_recover :
  let cover := {| im_width := 10; im_height := 10; im_data := 0 |} in
  let store := [replicate 100 (255, 255, 255)] in
  let hello := [104; 101; 108; 108; 111] in
  rbind (package_secret_file (py_str "note.txt") hello) (fun envelope =>
  rbind (@encrypt_payload standin_gcm nonce_12 envelope hunter2_key) (fun blob =>
  match embed_encrypted_data cover blob store with
  | Ok (stego, store') =>
      rbind (value (extract_encrypted_data stego store')) (fun extracted =>
      rbind (@decrypt_payload standin_gcm extracted hunter2_key)
            unpackage_secret_file)
  | Raise e => Raise e
  end))
  = Ok {| filename := py_str "note.txt"; data := hello |}.
Proof. vm_compute. reflexivity. Qed.

(** A 2x2 image has capacity 0: any non-empty payload is refused. *)
Example no_room_in_2x2 :
  let cover := {| im_width := 2; im_height := 2; im_data := 0 |} in
  max_embeddable_payload_bytes cover = 0
  /\ embed_encrypted_data cover [42] [replicate 4 (0, 0, 0)]
     = Raise (BlueCrypt (CapacityExceeded 1 0)).
Proof. split; reflexivity. Qed.

(** A header that decodes to length 0 is not a payload. *)
Example zero_length_header :
  extract_encrypted_data {| im_width := 5; im_height := 1; im_data := 0 |}
    [replicate 5 (0, 0, 0)]
  = Raise (BlueCrypt InvalidPayload).
Proof. reflexivity. Qed.

(** A name of 65536 letters is refused. *)
Example name_of_65536_bytes :
  package_secret_file (replicate (Z.to_nat 65536) 97) [1] = Raise (BlueCrypt NameTooLong).
Proof. vm_compute. reflexivity. Qed.

(** * Further properties *)

(** ** Passwords and the key *)

Lemma utf8_encode_cp_scalar (c : Z) :
  is_scalar c ->
  exists bs, utf8_encode_cp c = Ok bs /\ 1 <= len bs <= 4 /\ is_bytes bs.
Proof.
  unfold is_scalar, is_codepoint, is_surrogate. intros [Hc Hs].
  unfold utf8_encode_cp.
  destruct (Z.ltb_spec c 0); [lia|].
  destruct (Z.ltb_spec c 0x80).
  { eexists. split; [reflexivity|]. split; [unfold len; simpl; lia|].
    repeat constructor; lia. }
  destruct (Z.ltb_spec c 0x800).
  { eexists. split; [reflexivity|]. split; [unfold len; simpl; lia|].
    repeat (apply List.Forall_cons; [unfold is_byte; zdiv|]). constructor. }
  destruct (Z.ltb_spec c 0x10000).
  { destruct (Z.leb_spec 0xD800 c); destruct (Z.ltb_spec c 0xE000);
      cbn [andb]; try (exfalso; lia);
      (eexists; split; [reflexivity|]; split; [unfold len; simpl; lia|];
       repeat (apply List.Forall_cons; [unfold is_byte; zdiv|]); constructor). }
  destruct (Z.ltb_spec c 0x110000); [|lia].
  eexists. split; [reflexivity|]. split; [unfold len; simpl; lia|].
  repeat (apply List.Forall_cons; [unfold is_byte; zdiv|]). constructor.
Qed.

Lemma utf8_encode_cp_surrogate (c : Z) :
  is_surrogate c -> utf8_encode_cp c = Raise UnicodeEncodeError.
Proof.
  unfold is_surrogate. intros Hs. unfold utf8_encode_cp.
  destruct (Z.ltb_spec c 0); [lia|].
  destruct (Z.ltb_spec c 0x80); [lia|].
  destruct (Z.ltb_spec c 0x800); [lia|].
  destruct (Z.ltb_spec c 0x10000); [|lia].
  destruct (Z.leb_spec 0xD800 c); [|lia].
  destruct (Z.ltb_spec c 0xE000); [reflexivity|lia].
Qed.

Lemma utf8_encode_scalar (s : str) :
  Forall is_scalar s ->
  exists bs, utf8_encode s = Ok bs /\ len s <= len bs <= 4 * len s /\ is_bytes bs.
Proof.
  induction 1 as [|c s Hc Hs IH].
  - exists []. repeat split; try reflexivity; try (unfold len; simpl; lia). constructor.
  - destruct (utf8_encode_cp_scalar c Hc) as (cb & Ecb & Hlen & Hb).
    destruct IH as (rest & Erest & Hlr & Hbr).
    exists (cb ++ rest). cbn [utf8_encode]. rewrite Ecb, Erest. cbn [rbind].
    split; [reflexivity|]. split.
    + rewrite len_app. unfold len in *. cbn [length]. lia.
    + apply Forall_app. now split.
Qed.

Lemma utf8_encode_surrogate (s : str) :
  Forall is_codepoint s -> Exists is_surrogate s ->
  utf8_encode s = Raise UnicodeEncodeError.
Proof.
  intros Hcp. induction Hcp as [|c s Hc Hs IH]; intros Hex.
  - inversion Hex.
  - cbn [utf8_encode].
    destruct (Z_le_gt_dec 0xD800 c) as [Hlo|Hlo];
      [destruct (Z_lt_ge_dec c 0xE000) as [Hhi|Hhi]|].
    + rewrite utf8_encode_cp_surrogate by (unfold is_surrogate; lia). reflexivity.
    + destruct (utf8_encode_cp_scalar c) as (cb & Ecb & _).
      { unfold is_scalar, is_surrogate. split; [exact Hc | lia]. }
      rewrite Ecb. cbn [rbind]. rewrite IH; [reflexivity|].
      inversion Hex as [? ? Hx | ? ? Hx]; subst; [unfold is_surrogate in Hx; lia | exact Hx].
    + destruct (utf8_encode_cp_scalar c) as (cb & Ecb & _).
      { unfold is_scalar, is_surrogate. split; [exact Hc | lia]. }
      rewrite Ecb. cbn [rbind]. rewrite IH; [reflexivity|].
      inversion Hex as [? ? Hx | ? ? Hx]; subst; [unfold is_surrogate in Hx; lia | exact Hx].
Qed.

Lemma scalar_or_surrogate (s : str) :
  Forall is_codepoint s -> Forall is_scalar s \/ Exists is_surrogate s.
Proof.
  induction 1 as [|c s Hc Hs IH]; [left; constructor|].
  destruct IH as [IH|IH]; [|right; now apply Exists_cons_tl].
  destruct (Z_le_gt_dec 0xD800 c) as [Hlo|Hlo];
    [destruct (Z_lt_ge_dec c 0xE000) as [Hhi|Hhi]|].
  - right. apply Exists_cons_hd. unfold is_surrogate. lia.
  - left. constructor; [|exact IH]. unfold is_scalar, is_surrogate. split; [exact Hc|lia].
  - left. constructor; [|exact IH]. unfold is_scalar, is_surrogate. split; [exact Hc|lia].
Qed.

Section DeriveKeyCases.
Context `{H256 : Sha256}.

(** X1.  [derive_key] on a password of code points: it raises
    [EmptyPassword] exactly for the empty password; a non-empty password
    without surrogates gives a key of 32 bytes; a non-empty password
    holding a surrogate leaves with the [UnicodeEncodeError] of
    [password.encode("utf-8")], which is no [BlueCryptError]. *)
Theorem derive_key_cases (password : str) :
  Forall is_codepoint password ->
  (derive_key password = Raise (BlueCrypt EmptyPassword) <-> password = [])
  /\ (password <> [] -> Forall is_scalar password ->
      exists key, derive_key password = Ok key /\ len key = 32)
  /\ (password <> [] -> Exists is_surrogate password ->
      derive_key password = Raise UnicodeEncodeError).
Proof.
  intros Hcp. unfold derive_key. destruct password as [|c s].
  - split; [split; intros; reflexivity|]. split; intros Hne; congruence.
  - cbv beta iota. split; [|split].
    + split; [|discriminate].
      destruct (scalar_or_surrogate _ Hcp) as [Hs|Hex].
      * destruct (utf8_encode_scalar _ Hs) as (bs & Ebs & _).
        rewrite Ebs. discriminate.
      * rewrite (utf8_encode_surrogate _ Hcp Hex). discriminate.
    + intros _ Hs. destruct (utf8_encode_scalar _ Hs) as (bs & Ebs & _).
      rewrite Ebs. cbn [rbind]. eexists. split; [reflexivity|].
      apply sha256_digest_len.
    + intros _ Hex. now rewrite (utf8_encode_surrogate _ Hcp Hex).
Qed.
End DeriveKeyCases.

(** ** The name that goes into the envelope *)

Lemma utf8_encode_raises (s : str) (e : exn) :
  utf8_encode s = Raise e -> e = UnicodeEncodeError \/ e = ValueError.
Proof.
  induction s as [|c s IH]; [discriminate|].
  cbn [utf8_encode]. destruct (utf8_encode_cp c) as [cb|e'] eqn:Ec.
  - cbn [rbind]. destruct (utf8_encode s) as [rest|e'']; cbn [rbind]; [discriminate|].
    intros [= <-]. now apply IH.
  - cbn [rbind]. intros [= <-]. revert Ec. unfold utf8_encode_cp.
    repeat match goal with
           | |- context [if ?b then _ else _] => destruct b
           end; intros [= <-]; auto.
Qed.

Lemma basename_Forall (P : Z -> Prop) (p : str) :
  Forall P p -> Forall P (basename p).
Proof.
  induction 1 as [|c p Hc Hp IH]; [constructor|].
  cbn [basename]. destruct (existsb (Z.eqb SLASH) p); [exact IH|].
  destruct (c =? SLASH); [exact Hp | now constructor].
Qed.

Lemma lstrip_Forall (P : Z -> Prop) (s : str) :
  Forall P s -> Forall P (lstrip s).
Proof.
  induction 1 as [|c s Hc Hs IH]; [constructor|].
  cbn [lstrip]. destruct (isspace c); [exact IH | now constructor].
Qed.

Lemma rstrip_Forall (P : Z -> Prop) (s : str) :
  Forall P s -> Forall P (rstrip s).
Proof.
  induction 1 as [|c s Hc Hs IH]; [constructor|].
  cbn [rstrip]. destruct (rstrip s) as [|k ks].
  - destruct (isspace c); [constructor | now repeat constructor].
  - now constructor.
Qed.

Lemma clean_name_Forall (P : Z -> Prop) (f : str) :
  Forall P (py_str "secret.bin") -> Forall P f -> Forall P (clean_name f).
Proof.
  intros Hd Hf. rewrite clean_name_eq.
  pose proof (rstrip_Forall P _ (lstrip_Forall P _ (basename_Forall P _ Hf))) as H.
  fold (strip (basename f)) in H.
  destruct (strip (basename f)); assumption.
Qed.

Lemma basename_no_slash (p : str) : Forall (fun c => c <> SLASH) (basename p).
Proof.
  induction p as [|c p IH]; [constructor|].
  cbn [basename]. destruct (existsb (Z.eqb SLASH) p) eqn:E; [exact IH|].
  assert (Hp : Forall (fun c => c <> SLASH) p).
  { apply Forall_forall. intros x Hx Heq. subst x.
    assert (existsb (Z.eqb SLASH) p = true); [|congruence].
    apply existsb_exists. exists SLASH. split; [now apply list_elem_of_In | apply Z.eqb_refl]. }
  destruct (Z.eqb_spec c SLASH); [exact Hp | now constructor].
Qed.

Lemma basename_length (p : str) : (length (basename p) <= length p)%nat.
Proof.
  induction p as [|c p IH]; [reflexivity|].
  cbn [basename]. destruct (existsb (Z.eqb SLASH) p); [cbn [length]; lia|].
  destruct (c =? SLASH); cbn [length]; lia.
Qed.

Lemma lstrip_length (s : str) : (length (lstrip s) <= length s)%nat.
Proof.
  induction s as [|c s IH]; [reflexivity|].
  cbn [lstrip]. destruct (isspace c); cbn [length]; lia.
Qed.

Lemma rstrip_length (s : str) : (length (rstrip s) <= length s)%nat.
Proof.
  induction s as [|c s IH]; [reflexivity|].
  cbn [rstrip]. destruct (rstrip s); [destruct (isspace c)|]; cbn [length] in *; lia.
Qed.

Lemma clean_name_length (f : str) : len (clean_name f) <= Z.max (len f) 10.
Proof.
  rewrite clean_name_eq. unfold strip.
  pose proof (rstrip_length (lstrip (basename f))).
  pose proof (lstrip_length (basename f)).
  pose proof (basename_length f).
  destruct (rstrip (lstrip (basename f))) as [|c t] eqn:E; cbn [str_or].
  - change (len (py_str "secret.bin")) with 10. lia.
  - unfold len. lia.
Qed.

Lemma rstrip_last (s : str) :
  rstrip s <> [] -> isspace (List.last (rstrip s) 0) = false.
Proof.
  induction s as [|c s IH]; [intros H; now contradiction H|].
  cbn [rstrip]. destruct (rstrip s) as [|k ks].
  - destruct (isspace c) eqn:E; [intros H; now contradiction H|]. intros _. exact E.
  - intros _. change (List.last (c :: k :: ks) 0) with (List.last (k :: ks) 0).
    apply IH. discriminate.
Qed.

Lemma default_name_no_slash : Forall (fun c => c <> SLASH) (py_str "secret.bin").
Proof. repeat (apply List.Forall_cons; [discriminate|]). constructor. Qed.

(** X2.  The name [package_secret_file] writes into the envelope,
    [os.path.basename(filename or "").strip() or "secret.bin"], is never
    empty, holds no ["/"], neither starts nor ends with whitespace (so
    stripping it again changes nothing), and is at most as long as the
    longer of [filename] and the 10 characters of ["secret.bin"]. *)
Theorem clean_name_safe (f : str) :
  clean_name f <> []
  /\ Forall (fun c => c <> SLASH) (clean_name f)
  /\ strip (clean_name f) = clean_name f
  /\ isspace (List.hd 0 (clean_name f)) = false
  /\ isspace (List.last (clean_name f) 0) = false
  /\ len (clean_name f) <= Z.max (len f) 10.
Proof.
  destruct (clean_name_stripped f) as [Hs Hn].
  split; [exact Hn|]. split; [|split; [exact Hs|split; [|split]]].
  - rewrite clean_name_eq.
    pose proof (rstrip_Forall _ _ (lstrip_Forall _ _ (basename_no_slash f))) as H.
    fold (strip (basename f)) in H.
    destruct (strip (basename f)); [apply default_name_no_slash | exact H].
  - unfold strip in Hs. pose proof (lstrip_head (clean_name f)) as Hh.
    destruct (lstrip (clean_name f)) as [|c t].
    + cbn [rstrip] in Hs. congruence.
    + destruct (rstrip_head c t Hh) as [t' Ht]. rewrite Ht in Hs.
      rewrite <- Hs. exact Hh.
  - rewrite <- Hs. unfold strip. apply rstrip_last.
    fold (strip (clean_name f)). now rewrite Hs.
  - apply clean_name_length.
Qed.

(** ** The outcomes of packing and unpacking *)

Lemma package_ok_inv (f : str) (d envelope : bytes) :
  package_secret_file f d = Ok envelope ->
  d <> [] /\ exists name_bytes,
    utf8_encode (clean_name f) = Ok name_bytes
    /\ len name_bytes <= 65535
    /\ envelope = MAGIC ++ be_digits 2 (len name_bytes) ++ name_bytes ++ d.
Proof.
  intros Hp. assert (Hd : d <> []) by (intros ->; discriminate).
  split; [exact Hd|].
  destruct (utf8_encode (clean_name f)) as [nb|e] eqn:Enc.
  - exists nb. destruct (Z_le_gt_dec (len nb) 65535) as [Hle|Hgt].
    + rewrite (package_run f d nb Hd Enc Hle) in Hp. injection Hp as <-. auto.
    + rewrite (package_name_too_long f d nb Hd Enc) in Hp by lia. discriminate.
  - exfalso. revert Hp. unfold package_secret_file.
    destruct d; [congruence|]. rewrite Enc. discriminate.
Qed.

(** X3.  The two [BlueCryptError]s of [package_secret_file]: empty data
    gives [EmptySecret] whatever the file name; every [BlueCryptError] it
    raises is either that one, or [NameTooLong] for non-empty data whose
    cleaned name encodes to more than 65535 bytes; and such a name is
    refused. *)
Theorem package_errors (f : str) (d : bytes) :
  (d = [] -> package_secret_file f d = Raise (BlueCrypt EmptySecret))
  /\ (forall e, package_secret_file f d = Raise (BlueCrypt e) ->
        (e = EmptySecret /\ d = [])
        \/ (e = NameTooLong /\ d <> []
            /\ exists name_bytes,
                 utf8_encode (clean_name f) = Ok name_bytes
                 /\ 65535 < len name_bytes))
  /\ (forall name_bytes, d <> [] ->
        utf8_encode (clean_name f) = Ok name_bytes -> 65535 < len name_bytes ->
        package_secret_file f d = Raise (BlueCrypt NameTooLong)).
Proof.
  split; [intros ->; reflexivity|]. split.
  - intros e He. destruct d as [|d0 d'] eqn:Ed.
    + left. cbn in He. injection He as <-. auto.
    + right. rewrite <- Ed in *. assert (Hd : d <> []) by (rewrite Ed; discriminate).
      destruct (utf8_encode (clean_name f)) as [nb|e'] eqn:Enc.
      * destruct (Z_le_gt_dec (len nb) 65535) as [Hle|Hgt].
        -- rewrite (package_run f d nb Hd Enc Hle) in He. discriminate.
        -- rewrite (package_name_too_long f d nb Hd Enc) in He by lia.
           injection He as <-. split; [reflexivity|]. split; [exact Hd|].
           exists nb. split; [reflexivity | lia].
      * exfalso. destruct (utf8_encode_raises _ _ Enc) as [-> | ->];
          revert He; unfold package_secret_file; rewrite Ed, <- Ed, Enc; discriminate.
  - intros nb Hd Enc Hlen. now apply (package_name_too_long f d nb).
Qed.

(** X4.  A file name of at most 16383 code points, none a surrogate, is
    always accepted with non-empty data: the envelope is [MAGIC], the
    2-byte big-endian length of the encoded name, the encoded name and the
    data; it is [6 + len name_bytes + len data] bytes long, at least 8,
    and a byte string when the data is one. *)
Theorem package_accepts (f : str) (d : bytes) :
  Forall is_scalar f ->
  len f <= 16383 ->
  d <> [] ->
  exists envelope name_bytes,
    package_secret_file f d = Ok envelope
    /\ utf8_encode (clean_name f) = Ok name_bytes
    /\ envelope = MAGIC ++ be_digits 2 (len name_bytes) ++ name_bytes ++ d
    /\ len envelope = 6 + len name_bytes + len d
    /\ 8 <= len envelope
    /\ (is_bytes d -> is_bytes envelope).
Proof.
  intros Hf Hlen Hd.
  assert (Hc : Forall is_scalar (clean_name f)).
  { apply clean_name_Forall; [|exact Hf].
    repeat (apply List.Forall_cons;
            [unfold is_scalar, is_codepoint, is_surrogate; cbn; lia|]).
    constructor. }
  destruct (utf8_encode_scalar _ Hc) as (nb & Enc & Hnb & Hbytes).
  pose proof (clean_name_length f) as Hcl.
  destruct (clean_name_stripped f) as [_ Hne].
  pose proof (nonempty_len _ Hne) as Hpos.
  pose proof (nonempty_len _ Hd) as Hdpos.
  assert (Hle : len nb <= 65535) by lia.
  exists (MAGIC ++ be_digits 2 (len nb) ++ nb ++ d), nb.
  split; [now apply package_run|]. split; [exact Enc|]. split; [reflexivity|].
  assert (Hl : len (MAGIC ++ be_digits 2 (len nb) ++ nb ++ d) = 6 + len nb + len d).
  { rewrite !len_app. unfold len at 1 2. rewrite be_digits_length. cbn [length MAGIC]. lia. }
  split; [exact Hl|]. split; [lia|].
  intros Hdb. apply Forall_app. split.
  { repeat (apply List.Forall_cons; [unfold is_byte; lia|]). constructor. }
  apply Forall_app. split; [apply be_digits_bytes|].
  apply Forall_app. now split.
Qed.

(** X5.  The cases of [unpackage_secret_file] on a byte string, in the
    order of its checks: fewer than 6 bytes give [EnvelopeTooShort];
    otherwise a prefix other than [MAGIC] gives [BadMagic]; otherwise,
    with [L] the big-endian value of bytes 4 and 5 (below 65536), a
    payload shorter than [6 + L] gives [Corrupted], one of exactly
    [6 + L] bytes gives [EmptyData], and a longer one returns the decoded,
    stripped name (or ["extracted_secret.bin"]) with the bytes from
    [6 + L] on as data. *)
Theorem unpackage_cases (payload : bytes) :
  is_bytes payload ->
  let L := int_from_bytes (slice payload 4 6) in
  (len payload < 6 ->
     unpackage_secret_file payload = Raise (BlueCrypt EnvelopeTooShort))
  /\ (6 <= len payload ->
      0 <= L < 65536
      /\ (slice payload 0 4 <> MAGIC ->
          unpackage_secret_file payload = Raise (BlueCrypt BadMagic))
      /\ (slice payload 0 4 = MAGIC ->
          (len payload < 6 + L ->
             unpackage_secret_file payload = Raise (BlueCrypt Corrupted))
          /\ (len payload = 6 + L ->
              unpackage_secret_file payload = Raise (BlueCrypt EmptyData))
          /\ (6 + L < len payload ->
              unpackage_secret_file payload
              = Ok {| filename :=
                        str_or (strip (utf8_decode (slice payload 6 (6 + L))))
                               (py_str "extracted_secret.bin");
                      data := drop (Z.to_nat (6 + L)) payload |}))).
Proof.
  intros Hb L. unfold unpackage_secret_file.
  change (len MAGIC) with 4. change (4 + 2) with 6. fold L. cbv zeta.
  split.
  - intros Hs. destruct (Z.ltb_spec (len payload) 6); [reflexivity|lia].
  - intros Hl. destruct (Z.ltb_spec (len payload) 6); [lia|].
    assert (HL : 0 <= L < 65536).
    { unfold L, slice. change (Z.to_nat (6 - 4)) with 2%nat. change (Z.to_nat 4) with 4%nat.
      assert (Hf : is_bytes (take 2 (drop 4 payload))).
      { apply Forall_take, Forall_drop, Hb. }
      assert (Hlen2 : length (take 2 (drop 4 payload)) = 2%nat).
      { rewrite length_take, length_drop. unfold len in Hl. lia. }
      destruct (take 2 (drop 4 payload)) as [|x [|y [|z t]]]; try discriminate.
      inversion Hf as [|? ? Hx Hf']; subst. inversion Hf' as [|? ? Hy _]; subst.
      unfold int_from_bytes, is_byte in *. cbn [fold_left]. lia. }
    split; [exact HL|]. unfold bytes_eqb. split.
    + intros Hm. now rewrite bool_decide_eq_false_2.
    + intros Hm. rewrite (bool_decide_eq_true_2 _ Hm). cbn [negb].
      repeat split.
      * intros Hc. destruct (Z.ltb_spec (len payload) (6 + L)); [reflexivity|lia].
      * intros He. destruct (Z.ltb_spec (len payload) (6 + L)); [lia|].
        rewrite drop_ge; [reflexivity|]. unfold len in He. lia.
      * intros Hd. destruct (Z.ltb_spec (len payload) (6 + L)); [lia|].
        destruct (drop (Z.to_nat (6 + L)) payload) as [|x t] eqn:Ed; [|reflexivity].
        exfalso. apply (f_equal length) in Ed. rewrite length_drop in Ed.
        unfold len in Hd. cbn [length] in Ed. lia.
Qed.

Lemma unpackage_ok_inv (payload : bytes) (sf : SecretFile) :
  unpackage_secret_file payload = Ok sf ->
  let L := int_from_bytes (slice payload 4 6) in
  6 <= len payload /\ slice payload 0 4 = MAGIC /\ 6 + L <= len payload
  /\ sf = {| filename := str_or (strip (utf8_decode (slice payload 6 (6 + L))))
                                (py_str "extracted_secret.bin");
             data := drop (Z.to_nat (6 + L)) payload |}
  /\ data sf <> [].
Proof.
  unfold unpackage_secret_file.
  change (len MAGIC) with 4. change (4 + 2) with 6. cbv zeta.
  destruct (Z.ltb_spec (len payload) 6); [discriminate|].
  unfold bytes_eqb. destruct (decide (slice payload 0 4 = MAGIC)) as [Hm|Hm].
  2: { rewrite bool_decide_eq_false_2 by exact Hm. discriminate. }
  rewrite (bool_decide_eq_true_2 _ Hm). cbn [negb].
  destruct (Z.ltb_spec (len payload) (6 + int_from_bytes (slice payload 4 6)));
    [discriminate|].
  destruct (drop (Z.to_nat (6 + int_from_bytes (slice payload 4 6))) payload)
    as [|x t] eqn:Ed; [discriminate|].
  intros [= <-]. cbn [data]. repeat split; auto; try lia.
Qed.

Lemma int_from_bytes_nonneg (bs : bytes) : is_bytes bs -> 0 <= int_from_bytes bs.
Proof.
  intros Hb. unfold int_from_bytes.
  assert (H : forall acc, 0 <= acc -> 0 <= fold_left (fun a b => a * 256 + b) bs acc).
  { induction Hb as [|b bs Hb0 _ IH]; intros acc Hacc; cbn [fold_left]; [exact Hacc|].
    apply IH. unfold is_byte in Hb0. lia. }
  apply H. lia.
Qed.

(** X6.  Whenever [unpackage_secret_file] returns a [SecretFile] from a
    byte string, its file name is non-empty and stripped, its data is
    non-empty, the payload starts with [MAGIC], and the data is the tail
    of the payload after a header of at least 6 bytes. *)
Theorem unpackage_result (payload : bytes) (sf : SecretFile) :
  is_bytes payload ->
  unpackage_secret_file payload = Ok sf ->
  filename sf <> []
  /\ strip (filename sf) = filename sf
  /\ data sf <> []
  /\ slice payload 0 4 = MAGIC
  /\ exists header, payload = header ++ data sf /\ 6 <= len header.
Proof.
  intros Hb Hu. destruct (unpackage_ok_inv _ _ Hu) as (Hl & Hm & HL & -> & Hd).
  cbn [filename data] in *.
  assert (HLp : 0 <= int_from_bytes (slice payload 4 6)).
  { apply int_from_bytes_nonneg. unfold slice. apply Forall_take, Forall_drop, Hb. }
  set (L := int_from_bytes (slice payload 4 6)) in *.
  set (name := strip (utf8_decode (slice payload 6 (6 + L)))).
  assert (Hname : str_or name (py_str "extracted_secret.bin") <> []
                  /\ strip (str_or name (py_str "extracted_secret.bin"))
                     = str_or name (py_str "extracted_secret.bin")).
  { destruct name as [|c t] eqn:En; cbn [str_or].
    - split; [discriminate | reflexivity].
    - split; [discriminate|]. rewrite <- En. unfold name. apply strip_idempotent. }
  destruct Hname as [Hn Hs].
  repeat split; auto.
  exists (take (Z.to_nat (6 + L)) payload). split.
  - now rewrite take_drop.
  - unfold len in *. rewrite length_take. lia.
Qed.

(** X7.  [package_secret_file] loses nothing but what cleaning the name
    removes: two calls that return the same envelope had the same cleaned
    name and the same data. *)
Theorem package_injective (f f' : str) (d d' envelope : bytes) :
  package_secret_file f d = Ok envelope ->
  package_secret_file f' d' = Ok envelope ->
  clean_name f = clean_name f' /\ d = d'.
Proof.
  intros Hp Hp'.
  destruct (package_ok_inv _ _ _ Hp) as (Hd & nb & Enc & Hlen & Henv).
  destruct (package_ok_inv _ _ _ Hp') as (Hd' & nb' & Enc' & Hlen' & Henv').
  destruct (clean_name_stripped f) as [Hs Hn].
  destruct (clean_name_stripped f') as [Hs' Hn'].
  pose proof (unpackage_run (clean_name f) d nb Hd Enc Hlen Hs Hn) as Hu.
  pose proof (unpackage_run (clean_name f') d' nb' Hd' Enc' Hlen' Hs' Hn') as Hu'.
  rewrite <- Henv in Hu. rewrite <- Henv' in Hu'. rewrite Hu in Hu'.
  injection Hu' as Hname Hdata. auto.
Qed.

(** ** The outcomes of encryption and decryption *)

Section CipherCases.
Context `{Hgcm : AesGcm}.

Lemma AES_new_bad_key (key nonce : bytes) :
  ~ aes_key_len key -> AES_new key nonce = Raise ValueError.
Proof.
  unfold aes_key_len, AES_new. intros Hk.
  destruct (Z.eqb_spec (len key) 16); [tauto|].
  destruct (Z.eqb_spec (len key) 24); [tauto|].
  destruct (Z.eqb_spec (len key) 32); [tauto|]. reflexivity.
Qed.

Lemma AES_new_good_key (key nonce : bytes) :
  aes_key_len key -> nonce <> [] ->
  AES_new key nonce = Ok {| gcm_key := key; gcm_nonce := nonce |}.
Proof.
  unfold aes_key_len, AES_new. intros Hk Hn.
  assert (E : (len key =? 16) || (len key =? 24) || (len key =? 32) = true).
  { destruct Hk as [-> | [-> | ->]]; reflexivity. }
  rewrite E. cbn [negb]. destruct nonce; [congruence | reflexivity].
Qed.

(** X8.  [encrypt_payload] with a 12-byte nonce: a key whose length is
    not 16, 24 or 32 leaves with the [ValueError] of [AES.new]; with such
    a length it returns [nonce ++ tag ++ ciphertext], the tag of 16 bytes
    and the ciphertext as long as the plaintext, so 28 bytes more than the
    plaintext, and [decrypt_payload] under the same key gives a non-empty
    plaintext back; it never raises a [BlueCryptError]. *)
Theorem encrypt_payload_cases (nonce plaintext key : bytes) :
  len nonce = NONCE_LEN ->
  (~ aes_key_len key -> encrypt_payload nonce plaintext key = Raise ValueError)
  /\ (aes_key_len key ->
      exists tag ciphertext,
        encrypt_payload nonce plaintext key = Ok (nonce ++ tag ++ ciphertext)
        /\ len tag = TAG_LEN /\ len ciphertext = len plaintext
        /\ len (nonce ++ tag ++ ciphertext) = 28 + len plaintext
        /\ (plaintext <> [] ->
            decrypt_payload (nonce ++ tag ++ ciphertext) key = Ok plaintext))
  /\ (forall e, encrypt_payload nonce plaintext key <> Raise (BlueCrypt e)).
Proof.
  intros Hn.
  assert (Hne : nonce <> []) by (intros ->; discriminate).
  assert (Hbad : ~ aes_key_len key -> encrypt_payload nonce plaintext key = Raise ValueError).
  { intros Hk. unfold encrypt_payload. now rewrite AES_new_bad_key. }
  assert (Hgood : aes_key_len key ->
    encrypt_payload nonce plaintext key
    = Ok (nonce ++ snd (encrypt_and_digest key nonce plaintext)
                ++ fst (encrypt_and_digest key nonce plaintext))).
  { intros Hk. unfold encrypt_payload. rewrite AES_new_good_key by assumption.
    cbn [rbind gcm_key gcm_nonce]. now destruct (encrypt_and_digest key nonce plaintext). }
  split; [exact Hbad|]. split.
  - intros Hk. pose proof (tag_len key nonce plaintext) as Ht.
    pose proof (ciphertext_len key nonce plaintext) as Hc.
    eexists _, _. split; [now apply Hgood|]. split; [exact Ht|]. split; [exact Hc|].
    assert (Hl : len (nonce ++ snd (encrypt_and_digest key nonce plaintext)
                        ++ fst (encrypt_and_digest key nonce plaintext))
                 = 28 + len plaintext).
    { rewrite !len_app, Hn, Ht, Hc. unfold NONCE_LEN, TAG_LEN. lia. }
    split; [exact Hl|]. intros Hp. pose proof (nonempty_len _ Hp) as Hpos.
    unfold decrypt_payload. cbv zeta.
    destruct (Z.leb_spec (len (nonce ++ snd (encrypt_and_digest key nonce plaintext)
                                 ++ fst (encrypt_and_digest key nonce plaintext)))
                         (NONCE_LEN + TAG_LEN)) as [Hle|_];
      [unfold NONCE_LEN, TAG_LEN in Hle; lia|].
    rewrite slice_nonce, slice_tag, drop_ciphertext by assumption.
    rewrite AES_new_good_key by assumption. cbn [rbind gcm_key gcm_nonce].
    now rewrite decrypt_encrypt.
  - intros e He. assert (aes_key_len key \/ ~ aes_key_len key) as [Hk|Hk].
    { unfold aes_key_len.
      destruct (Z.eq_dec (len key) 16), (Z.eq_dec (len key) 24), (Z.eq_dec (len key) 32);
        tauto. }
    + rewrite Hgood in He by assumption. discriminate.
    + rewrite Hbad in He by assumption. discriminate.
Qed.

(** X9.  The outcomes of [decrypt_payload]: a blob of at most 28 bytes
    gives [TooShort], checked before the key is looked at; a longer blob
    with a key whose length is not 16, 24 or 32 leaves with the
    [ValueError] of [AES.new], which is raised outside the [try] and so is
    not turned into a [BlueCryptError]; with a good key the blob is read
    as 12 bytes of nonce, 16 of tag and the rest as ciphertext, and a
    failed verification becomes [AuthenticationFailed].  These are its
    only [BlueCryptError]s, and it returns only for blobs over 28 bytes
    and keys of a good length. *)
Theorem decrypt_payload_outcomes (blob key : bytes) :
  (len blob <= 28 -> decrypt_payload blob key = Raise (BlueCrypt TooShort))
  /\ (28 < len blob -> ~ aes_key_len key ->
      decrypt_payload blob key = Raise ValueError)
  /\ (28 < len blob -> aes_key_len key ->
      decrypt_payload blob key
      = match decrypt_and_verify key (slice blob 0 12) (drop 28 blob) (slice blob 12 28) with
        | Some plaintext => Ok plaintext
        | None => Raise (BlueCrypt AuthenticationFailed)
        end)
  /\ (forall e, decrypt_payload blob key = Raise (BlueCrypt e) ->
        (e = TooShort /\ len blob <= 28)
        \/ (e = AuthenticationFailed /\ 28 < len blob /\ aes_key_len key))
  /\ (forall plaintext, decrypt_payload blob key = Ok plaintext ->
        28 < len blob /\ aes_key_len key).
Proof.
  assert (Hshort : len blob <= 28 -> decrypt_payload blob key = Raise (BlueCrypt TooShort)).
  { intros Hs. apply decrypt_payload_short. unfold NONCE_LEN, TAG_LEN. lia. }
  assert (Hnonce : 28 < len blob -> slice blob 0 NONCE_LEN <> []).
  { intros Hl. unfold slice, len, NONCE_LEN in *.
    change (Z.to_nat (12 - 0)) with 12%nat. change (Z.to_nat 0) with 0%nat.
    intros Hnil. apply (f_equal length) in Hnil.
    rewrite length_take, length_drop in Hnil. change (length (@nil Z)) with 0%nat in Hnil. lia. }
  assert (Hbad : 28 < len blob -> ~ aes_key_len key ->
                 decrypt_payload blob key = Raise ValueError).
  { intros Hl Hk. unfold decrypt_payload. cbv zeta.
    destruct (Z.leb_spec (len blob) (NONCE_LEN + TAG_LEN)) as [Hle|_];
      [unfold NONCE_LEN, TAG_LEN in Hle; lia|].
    now rewrite AES_new_bad_key. }
  assert (Hgood : 28 < len blob -> aes_key_len key ->
    decrypt_payload blob key
    = match decrypt_and_verify key (slice blob 0 12) (drop 28 blob) (slice blob 12 28) with
      | Some plaintext => Ok plaintext
      | None => Raise (BlueCrypt AuthenticationFailed)
      end).
  { intros Hl Hk. unfold decrypt_payload. cbv zeta.
    destruct (Z.leb_spec (len blob) (NONCE_LEN + TAG_LEN)) as [Hle|_];
      [unfold NONCE_LEN, TAG_LEN in Hle; lia|].
    rewrite AES_new_good_key by auto. reflexivity. }
  assert (Hkey : aes_key_len key \/ ~ aes_key_len key).
  { unfold aes_key_len.
    destruct (Z.eq_dec (len key) 16), (Z.eq_dec (len key) 24), (Z.eq_dec (len key) 32);
      tauto. }
  split; [exact Hshort|]. split; [exact Hbad|]. split; [exact Hgood|]. split.
  - intros e He. destruct (Z_le_gt_dec (len blob) 28) as [Hle|Hgt].
    + rewrite Hshort in He by lia. injection He as <-. left. split; [reflexivity | lia].
    + destruct Hkey as [Hk|Hk].
      * rewrite Hgood in He by (lia || assumption).
        destruct (decrypt_and_verify _ _ _ _); [discriminate|].
        injection He as <-. right. split; [reflexivity|]. split; [lia | exact Hk].
      * rewrite Hbad in He by (lia || assumption). discriminate.
  - intros pt He. destruct (Z_le_gt_dec (len blob) 28) as [Hle|Hgt].
    + rewrite Hshort in He by lia. discriminate.
    + destruct Hkey as [Hk|Hk]; [split; [lia | exact Hk]|].
      rewrite Hbad in He by (lia || assumption). discriminate.
Qed.
End CipherCases.

(** ** Stego images are images, and can be embedded into again *)

Lemma embed_pixel_is_pixel (b : Z) (p : pixel) : is_pixelb (embed_pixel b p) = true.
Proof.
  rewrite <- three_assignments. cbv zeta. destruct p as [[r g] bl].
  unfold is_pixelb, set_channel, get_channel.
  rewrite !(proj2 (is_byteb_spec _) (uint8_is_byte _)). reflexivity.
Qed.

Lemma stego_pixels_are_pixels (px : list pixel) (pl : bytes) :
  forallb is_pixelb px = true -> forallb is_pixelb (stego_pixels px pl) = true.
Proof.
  intros Hpx. unfold stego_pixels. rewrite forallb_app. apply andb_true_intro. split.
  - generalize (take (length pl) px). clear. intros P. revert P.
    induction pl as [|b pl IH]; intros [|p P]; cbn [zip_with forallb]; try reflexivity.
    now rewrite embed_pixel_is_pixel, IH.
  - revert Hpx. generalize (length pl). clear. intros n. revert px.
    induction n as [|n IH]; intros [|p px] H; cbn [drop forallb] in *; auto.
    apply andb_prop in H as [_ H]. now apply IH.
Qed.

Lemma wf_image_alloc (h k : heap) (image : Image) :
  wf_image h image -> wf_image (h ++ k) image.
Proof.
  unfold wf_image, wf_imageb. intros H.
  destruct (h !! im_data image) as [px|] eqn:E.
  - now rewrite (lookup_app_l_Some _ _ _ _ E).
  - now rewrite andb_false_r in H.
Qed.

Lemma embed_stego_wf (h : heap) (cover : Image) (blob : bytes)
    (stego : Image) (h' : heap) :
  wf_image h cover ->
  embed_encrypted_data cover blob h = Ok (stego, h') ->
  wf_image h' stego.
Proof.
  intros Hwf Hrun.
  destruct (embed_ok_inv _ _ _ _ Hrun) as (Hne & Hlen & Hcap).
  pose proof (nonempty_len _ Hne) as Hpos.
  assert (Hcap' : len blob <= im_width cover * im_height cover - HEADER_LEN) by lia.
  rewrite (embed_run _ _ _ Hwf Hne Hcap' Hlen) in Hrun.
  injection Hrun as <- <-.
  pose proof Hwf as Hwf0. unfold wf_image, wf_imageb in Hwf0.
  destruct (wf_image_inv _ _ Hwf) as (Hw & Hh & px & Hpx & Hsz & _).
  rewrite Hpx in Hwf0. rewrite (buffer_lookup _ _ _ Hpx).
  apply andb_prop in Hwf0 as [Hdim Hrest]. apply andb_prop in Hrest as [_ Hpix].
  assert (Hcount : (length (stream blob) <= length px)%nat).
  { pose proof (stream_length blob). unfold len, HEADER_LEN in *. lia. }
  unfold wf_image, wf_imageb. cbn [im_width im_height im_data].
  rewrite lookup_app_r by lia.
  replace (S (S (length h)) - length h)%nat with 2%nat by lia. cbn [lookup list_lookup].
  rewrite Hdim. cbn [andb].
  rewrite stego_pixels_are_pixels by exact Hpix. rewrite andb_true_r.
  apply Z.eqb_eq. unfold len. rewrite stego_pixels_length by exact Hcount.
  exact Hsz.
Qed.

Lemma embed_keeps_wf (h : heap) (cover : Image) (blob : bytes)
    (stego : Image) (h' : heap) (image : Image) :
  wf_image h cover ->
  embed_encrypted_data cover blob h = Ok (stego, h') ->
  wf_image h image -> wf_image h' image.
Proof.
  intros Hwf Hrun Him.
  destruct (embed_ok_inv _ _ _ _ Hrun) as (Hne & Hlen & Hcap).
  pose proof (nonempty_len _ Hne) as Hpos.
  assert (Hcap' : len blob <= im_width cover * im_height cover - HEADER_LEN) by lia.
  rewrite (embed_run _ _ _ Hwf Hne Hcap' Hlen) in Hrun.
  injection Hrun as <- <-. now apply wf_image_alloc.
Qed.

(** X10.  When [embed_encrypted_data] succeeds on a well-formed cover
    the stego image is well formed (as many pixels as its width times its
    height, every channel a byte) and every image that was well formed
    in the store still is. *)
Theorem embed_well_formed (h : heap) (cover : Image) (blob : bytes)
    (stego : Image) (h' : heap) :
  wf_image h cover ->
  embed_encrypted_data cover blob h = Ok (stego, h') ->
  wf_image h' stego
  /\ (forall image, wf_image h image -> wf_image h' image).
Proof.
  intros Hwf Hrun. split.
  - exact (embed_stego_wf h cover blob stego h' Hwf Hrun).
  - intros image Him. exact (embed_keeps_wf h cover blob stego h' image Hwf Hrun Him).
Qed.

Lemma extract_stego_pixels (h : heap) (image : Image) (px : list pixel) (blob : bytes) :
  h !! im_data image = Some (stego_pixels px (stream blob)) ->
  is_bytes blob -> blob <> [] -> len blob < 2 ^ 32 ->
  HEADER_LEN + len blob <= len px ->
  value (extract_encrypted_data image h) = Ok blob.
Proof.
  intros Hbuf Hbytes Hne Hlen Hcap.
  set (spx := stego_pixels px (stream blob)) in *.
  assert (Hcount : (length (stream blob) <= length px)%nat).
  { pose proof (stream_length blob). unfold len, HEADER_LEN in *. lia. }
  rewrite extract_run. rewrite (buffer_lookup _ _ _ Hbuf). cbv zeta.
  assert (Hspx : len spx = len px).
  { unfold len, spx. now rewrite stego_pixels_length. }
  pose proof (nonempty_len _ Hne) as Hpos.
  destruct (Z.leb_spec (len spx) HEADER_LEN); [unfold HEADER_LEN in *; lia|].
  rewrite !_channels_to_bytes_slice. unfold spx.
  rewrite decode_stego by (auto using stream_bytes).
  rewrite slice_header.
  rewrite int_from_bytes_be_digits by (change (256 ^ Z.of_nat 4) with (2 ^ 32); lia).
  rewrite slice_blob.
  fold spx. destruct (Z.leb_spec (len blob) 0); [lia|].
  destruct (Z.ltb_spec (len spx - HEADER_LEN) (len blob)); [lia|].
  reflexivity.
Qed.

(** X11.  A stego image can be used as a cover: embedding a second
    non-empty blob of bytes, shorter than [2^32] and fitting the
    capacity, into the image returned for a first one succeeds, and
    extraction then returns the second blob. *)
Theorem embed_overwrites (h : heap) (cover : Image) (first second : bytes)
    (stego : Image) (h' : heap) :
  wf_image h cover ->
  embed_encrypted_data cover first h = Ok (stego, h') ->
  is_bytes second -> second <> [] -> len second < 2 ^ 32 ->
  len second <= im_width cover * im_height cover - HEADER_LEN ->
  exists stego2 h2,
    embed_encrypted_data stego second h' = Ok (stego2, h2)
    /\ value (extract_encrypted_data stego2 h2) = Ok second.
Proof.
  intros Hwf Hrun Hb Hne Hlen Hcap.
  pose proof (embed_stego_wf _ _ _ _ _ Hwf Hrun) as Hwf'.
  assert (Hdim : im_width stego = im_width cover /\ im_height stego = im_height cover).
  { destruct (embed_ok_inv _ _ _ _ Hrun) as (Hne1 & Hlen1 & Hcap1).
    pose proof (nonempty_len _ Hne1) as Hpos1.
    assert (Hcap1' : len first <= im_width cover * im_height cover - HEADER_LEN) by lia.
    rewrite (embed_run _ _ _ Hwf Hne1 Hcap1' Hlen1) in Hrun.
    injection Hrun as <- _. auto. }
  destruct Hdim as [Hw Hh].
  assert (Hcap2 : len second <= im_width stego * im_height stego - HEADER_LEN)
    by (rewrite Hw, Hh; exact Hcap).
  eexists _, _. split; [now apply embed_run|].
  destruct (wf_image_inv _ _ Hwf') as (_ & _ & px & Hpx & Hsz & _).
  rewrite (buffer_lookup _ _ _ Hpx).
  apply (extract_stego_pixels _ _ px second); auto.
  - cbn [im_data]. rewrite lookup_app_r by lia.
    now replace (S (S (length h')) - length h')%nat with 2%nat by lia.
  - lia.
Qed.

Lemma masked_write_twice (x y mask m : Z) :
  Z.land m mask = 0 ->
  Z.lor (Z.land (Z.lor (Z.land x mask) (Z.land y m)) mask) (Z.land y m)
  = Z.lor (Z.land x mask) (Z.land y m).
Proof.
  intros H0. rewrite Z.land_lor_distr_l, <- !Z.land_assoc, H0, Z.land_0_r, Z.lor_0_r.
  now rewrite Z.land_diag.
Qed.

Lemma embed_pixel_idempotent (b : Z) (p : pixel) :
  embed_pixel b (embed_pixel b p) = embed_pixel b p.
Proof.
  destruct p as [[r g] bl]. unfold embed_pixel.
  now rewrite !masked_write_twice by reflexivity.
Qed.

Lemma stego_pixels_cons (b : Z) (pl : bytes) (p : pixel) (px : list pixel) :
  stego_pixels (p :: px) (b :: pl) = embed_pixel b p :: stego_pixels px pl.
Proof. reflexivity. Qed.

Lemma stego_pixels_nil_l (pl : bytes) : stego_pixels [] pl = [].
Proof. unfold stego_pixels. now destruct pl. Qed.

Lemma stego_pixels_nil_r (px : list pixel) : stego_pixels px [] = px.
Proof. unfold stego_pixels. now destruct px. Qed.

Lemma stego_pixels_idempotent (px : list pixel) (pl : bytes) :
  stego_pixels (stego_pixels px pl) pl = stego_pixels px pl.
Proof.
  revert px. induction pl as [|b pl IH]; intros px.
  - now rewrite !stego_pixels_nil_r.
  - destruct px as [|p px]; [now rewrite !stego_pixels_nil_l|].
    rewrite !stego_pixels_cons, embed_pixel_idempotent. f_equal. apply IH.
Qed.

Lemma embed_ok_run (h : heap) (cover : Image) (blob : bytes) (stego : Image) (h' : heap) :
  wf_image h cover ->
  embed_encrypted_data cover blob h = Ok (stego, h') ->
  stego = {| im_width := im_width cover; im_height := im_height cover;
             im_data := S (S (length h)) |}
  /\ h' = h ++ [buffer h (im_data cover);
                stego_pixels (buffer h (im_data cover)) (stream blob);
                stego_pixels (buffer h (im_data cover)) (stream blob)]
  /\ buffer h' (im_data stego) = stego_pixels (buffer h (im_data cover)) (stream blob)
  /\ blob <> [] /\ len blob < 2 ^ 32
  /\ len blob <= im_width cover * im_height cover - HEADER_LEN.
Proof.
  intros Hwf Hrun.
  destruct (embed_ok_inv _ _ _ _ Hrun) as (Hne & Hlen & Hcap).
  pose proof (nonempty_len _ Hne) as Hpos.
  assert (Hcap' : len blob <= im_width cover * im_height cover - HEADER_LEN) by lia.
  rewrite (embed_run _ _ _ Hwf Hne Hcap' Hlen) in Hrun.
  injection Hrun as <- <-. repeat split; auto.
  cbn [im_data]. apply buffer_lookup. rewrite lookup_app_r by lia.
  now replace (S (S (length h)) - length h)%nat with 2%nat by lia.
Qed.

(** X12.  Embedding is idempotent: embedding the same blob again into
    the stego image succeeds and gives the same pixels, so the PSNR
    between the two stego images is infinite. *)
Theorem embed_idempotent (h : heap) (cover : Image) (blob : bytes)
    (stego : Image) (h' : heap) :
  wf_image h cover ->
  embed_encrypted_data cover blob h = Ok (stego, h') ->
  exists stego2 h2,
    embed_encrypted_data stego blob h' = Ok (stego2, h2)
    /\ buffer h2 (im_data stego2) = buffer h' (im_data stego)
    /\ value (calculate_psnr stego stego2 h2) = Ok PosInf.
Proof.
  intros Hwf Hrun.
  pose proof (embed_stego_wf _ _ _ _ _ Hwf Hrun) as Hwf'.
  destruct (embed_ok_run _ _ _ _ _ Hwf Hrun) as (Hst & Hh' & Hbuf & Hne & Hlen & Hcap).
  assert (Hcap2 : len blob <= im_width stego * im_height stego - HEADER_LEN)
    by (rewrite Hst; exact Hcap).
  pose proof (embed_run _ _ _ Hwf' Hne Hcap2 Hlen) as Hrun2.
  eexists _, _. split; [exact Hrun2|].
  pose proof (embed_stego_wf _ _ _ _ _ Hwf' Hrun2) as Hwf2.
  pose proof (fun image => embed_keeps_wf _ _ _ _ _ image Hwf' Hrun2) as Hkeep.
  destruct (embed_ok_run _ _ _ _ _ Hwf' Hrun2) as (_ & _ & Hbuf2 & _).
  assert (Hsame : buffer (h' ++ [buffer h' (im_data stego);
                    stego_pixels (buffer h' (im_data stego)) (stream blob);
                    stego_pixels (buffer h' (im_data stego)) (stream blob)])
                    (S (S (length h'))) = buffer h' (im_data stego)).
  { cbn [im_data] in Hbuf2. rewrite Hbuf2, Hbuf. apply stego_pixels_idempotent. }
  split; [exact Hsame|].
  set (h2 := h' ++ _) in *.
  set (stego2 := {| im_width := im_width stego; im_height := im_height stego;
                    im_data := S (S (length h')) |}) in *.
  destruct (calculate_psnr_run h2 stego stego2 (Hkeep _ Hwf') Hwf2 eq_refl) as [h3 Hp].
  rewrite Hp. cbn [value]. f_equal.
  assert (Hb1 : buffer h2 (im_data stego) = buffer h' (im_data stego)).
  { unfold h2. apply buffer_app_l.
    destruct (wf_image_inv _ _ Hwf') as (_ & _ & q & Hq & _).
    eapply lookup_lt_Some; eassumption. }
  cbn [im_data stego2]. rewrite Hsame, Hb1.
  unfold psnr_of. rewrite squared_error_refl.
  destruct (wf_image_inv _ _ Hwf') as (_ & _ & q & Hq & Hsz & _).
  rewrite (buffer_lookup _ _ _ Hq).
  pose proof (nonempty_len _ Hne) as Hpos.
  destruct q as [|q0 q']; [exfalso; unfold len, HEADER_LEN in *; cbn [length] in Hsz; lia|].
  reflexivity.
Qed.

(** ** Distortion *)

Lemma low2_distortion (r v : Z) :
  is_byte r -> Z.abs (Z.lor (Z.land r 0xFC) (Z.land v 0x03) - r) <= 3.
Proof.
  intros Hr. change 3 with (Z.ones 2) at 1. rewrite (Z.land_ones v 2) by lia.
  change (2 ^ 2) with 4. pose proof (Z.mod_pos_bound v 4 ltac:(lia)) as Hx.
  generalize dependent (v mod 4). intros x Hx.
  assert (Hc : x = 0 \/ x = 1 \/ x = 2 \/ x = 3) by lia.
  apply Z.leb_le. revert r Hr.
  destruct Hc as [-> | [-> | [-> | ->]]]; apply byte_forall; vm_compute; reflexivity.
Qed.

Lemma low4_distortion (r v : Z) :
  is_byte r -> Z.abs (Z.lor (Z.land r 0xF0) (Z.land v 0x0F) - r) <= 15.
Proof.
  intros Hr. change 15 with (Z.ones 4) at 1. rewrite (Z.land_ones v 4) by lia.
  change (2 ^ 4) with 16. pose proof (Z.mod_pos_bound v 16 ltac:(lia)) as Hx.
  generalize dependent (v mod 16). intros x Hx.
  assert (Hc : In x (map Z.of_nat (seq 0 16))).
  { apply in_map_iff. exists (Z.to_nat x). split; [lia|]. apply in_seq. lia. }
  apply Z.leb_le. revert r Hr. cbn in Hc.
  repeat (destruct Hc as [<- | Hc]; [apply byte_forall; vm_compute; reflexivity|]).
  destruct Hc.
Qed.

Lemma is_pixelb_spec (p : pixel) :
  is_pixelb p = true ->
  is_byte (get_channel Red p) /\ is_byte (get_channel Green p)
  /\ is_byte (get_channel Blue p).
Proof.
  unfold is_pixelb. intros H. apply andb_prop in H as [H Hb].
  apply andb_prop in H as [Hr Hg]. rewrite !is_byteb_spec in *. auto.
Qed.

Lemma embed_pixel_close (b : Z) (p : pixel) :
  is_pixelb p = true -> close_224 p (embed_pixel b p).
Proof.
  intros Hp. destruct (is_pixelb_spec _ Hp) as (Hr & Hg & Hb).
  destruct p as [[r g] bl]. unfold close_224, embed_pixel. cbn [get_channel] in *.
  auto using low2_distortion, low4_distortion.
Qed.

Lemma close_224_refl (p : pixel) : close_224 p p.
Proof. unfold close_224. rewrite !Z.sub_diag. cbn. lia. Qed.

Lemma stego_pixels_close (px : list pixel) (pl : bytes) :
  forallb is_pixelb px = true -> Forall2 close_224 px (stego_pixels px pl).
Proof.
  revert pl. induction px as [|p px IH]; intros pl Hpx.
  - rewrite stego_pixels_nil_l. constructor.
  - cbn [forallb] in Hpx. apply andb_prop in Hpx as [Hp Hpx].
    destruct pl as [|b pl].
    + rewrite stego_pixels_nil_r. apply Forall2_same_length_lookup_2; [reflexivity|].
      intros i x y Hx Hy. rewrite Hx in Hy. injection Hy as <-. apply close_224_refl.
    + rewrite stego_pixels_cons. constructor; [now apply embed_pixel_close | now apply IH].
Qed.

Lemma squared_error_cons (p q : pixel) (ps qs : list pixel) :
  squared_error (p :: ps) (q :: qs)
  = (get_channel Red p - get_channel Red q) ^ 2
    + (get_channel Green p - get_channel Green q) ^ 2
    + (get_channel Blue p - get_channel Blue q) ^ 2
    + squared_error ps qs.
Proof. unfold squared_error, channel_values. cbn [map concat app zip_with fold_right]. lia. Qed.

Lemma squared_error_nil_l (qs : list pixel) : squared_error [] qs = 0.
Proof. reflexivity. Qed.

Lemma squared_error_nil_r (ps : list pixel) : squared_error ps [] = 0.
Proof. unfold squared_error. cbn. now rewrite zip_with_nil_r. Qed.

Lemma squared_error_nonneg (ps qs : list pixel) : 0 <= squared_error ps qs.
Proof.
  revert qs. induction ps as [|p ps IH]; intros [|q qs];
    rewrite ?squared_error_nil_l, ?squared_error_nil_r, ?squared_error_cons; try lia.
  specialize (IH qs).
  pose proof (Z.pow_even_nonneg (get_channel Red p - get_channel Red q) 2 ltac:(now exists 1)).
  pose proof (Z.pow_even_nonneg (get_channel Green p - get_channel Green q) 2 ltac:(now exists 1)).
  pose proof (Z.pow_even_nonneg (get_channel Blue p - get_channel Blue q) 2 ltac:(now exists 1)).
  lia.
Qed.

Lemma squared_error_stego (px : list pixel) (pl : bytes) :
  forallb is_pixelb px = true ->
  squared_error px (stego_pixels px pl) <= 243 * Z.of_nat (Nat.min (length pl) (length px)).
Proof.
  revert pl. induction px as [|p px IH]; intros pl Hpx.
  - rewrite squared_error_nil_l. lia.
  - cbn [forallb] in Hpx. apply andb_prop in Hpx as [Hp Hpx].
    destruct pl as [|b pl].
    + rewrite stego_pixels_nil_r, squared_error_refl. cbn. lia.
    + rewrite stego_pixels_cons, squared_error_cons.
      specialize (IH pl Hpx). destruct (embed_pixel_close b p Hp) as (Hr & Hg & Hb).
      cbn [length]. rewrite !Z.pow_2_r.
      replace (Z.of_nat (Nat.min (S (length pl)) (S (length px))))
        with (1 + Z.of_nat (Nat.min (length pl) (length px))) by lia.
      nia.
Qed.

(** X13.  The distortion of an embedding: every stego pixel is within
    3 of the cover pixel in red and in green and within 15 in blue, and
    the sum of the squared channel differences is at most
    [243 * (4 + len blob)], that is [3^2 + 3^2 + 15^2] for each pixel that
    carries a byte. *)
Theorem embed_distortion (h : heap) (cover : Image) (blob : bytes)
    (stego : Image) (h' : heap) :
  wf_image h cover ->
  embed_encrypted_data cover blob h = Ok (stego, h') ->
  (forall (i : nat) (p q : pixel),
     buffer h (im_data cover) !! i = Some p ->
     buffer h' (im_data stego) !! i = Some q ->
     close_224 p q)
  /\ 0 <= squared_error (buffer h (im_data cover)) (buffer h' (im_data stego))
     <= 243 * (HEADER_LEN + len blob).
Proof.
  intros Hwf Hrun.
  destruct (embed_ok_run _ _ _ _ _ Hwf Hrun) as (_ & _ & Hbuf & Hne & Hlen & Hcap).
  rewrite Hbuf.
  pose proof Hwf as Hwf0. unfold wf_image, wf_imageb in Hwf0.
  destruct (wf_image_inv _ _ Hwf) as (_ & _ & px & Hpx & Hsz & _).
  rewrite Hpx in Hwf0. rewrite (buffer_lookup _ _ _ Hpx).
  apply andb_prop in Hwf0 as [_ Hrest]. apply andb_prop in Hrest as [_ Hpix].
  split.
  - intros i p q Hp Hq.
    exact (Forall2_lookup_lr _ _ _ _ _ _ (stego_pixels_close px (stream blob) Hpix) Hp Hq).
  - split; [apply squared_error_nonneg|].
    pose proof (squared_error_stego px (stream blob) Hpix) as Hse.
    pose proof (stream_length blob) as Hs. unfold len in *. lia.
Qed.

Lemma squared_error_zero (ps qs : list pixel) :
  length ps = length qs -> squared_error ps qs = 0 -> ps = qs.
Proof.
  revert qs. induction ps as [|p ps IH]; intros [|q qs] Hl He; try discriminate;
    [reflexivity|].
  rewrite squared_error_cons in He. pose proof (squared_error_nonneg ps qs) as Hn.
  destruct p as [[r g] b], q as [[r' g'] b']. cbn [get_channel] in He.
  pose proof (Z.pow_even_nonneg (r - r') 2 ltac:(now exists 1)) as Hr.
  pose proof (Z.pow_even_nonneg (g - g') 2 ltac:(now exists 1)) as Hg.
  pose proof (Z.pow_even_nonneg (b - b') 2 ltac:(now exists 1)) as Hb.
  assert (Hz : forall z, z ^ 2 = 0 -> z = 0).
  { intros z Hz. rewrite Z.pow_2_r in Hz. apply Z.eq_mul_0 in Hz. lia. }
  assert (r = r') as -> by (apply Z.sub_move_0_r, Hz; lia).
  assert (g = g') as -> by (apply Z.sub_move_0_r, Hz; lia).
  assert (b = b') as -> by (apply Z.sub_move_0_r, Hz; lia).
  f_equal. apply IH; [now injection Hl | lia].
Qed.

(** X14.  For two well-formed images of the same size with at least
    one pixel, [calculate_psnr] returns infinity exactly when the two
    pixel buffers are equal, and never [nan]. *)
Theorem psnr_infinite_iff_identical (h : heap) (a b : Image) :
  wf_image h a -> wf_image h b ->
  (im_width a, im_height a) = (im_width b, im_height b) ->
  0 < im_width a * im_height a ->
  (value (calculate_psnr a b h) = Ok PosInf
   <-> buffer h (im_data a) = buffer h (im_data b))
  /\ value (calculate_psnr a b h) <> Ok NaN.
Proof.
  intros Ha Hb Heq Hpos.
  destruct (calculate_psnr_run h a b Ha Hb Heq) as [h' Hrun]. rewrite Hrun. cbn [value].
  destruct (wf_image_inv _ _ Ha) as (_ & _ & pa & Hpa & Hsa & _).
  destruct (wf_image_inv _ _ Hb) as (_ & _ & pb & Hpb & Hsb & _).
  rewrite (buffer_lookup _ _ _ Hpa), (buffer_lookup _ _ _ Hpb).
  assert (Hl : length pa = length pb).
  { injection Heq as Hw Hh. unfold len in *. nia. }
  unfold psnr_of. pose proof (channel_values_length pa) as Hc.
  destruct (channel_values pa) as [|x xs].
  { exfalso. cbn [length] in Hc. unfold len in Hsa. lia. }
  destruct (Z.eqb_spec (squared_error pa pb) 0) as [He|He].
  - split; [|discriminate]. split; [intros _; now apply squared_error_zero | reflexivity].
  - split; [|discriminate]. split; [discriminate|].
    intros ->. exfalso. apply He. apply squared_error_refl.
Qed.

(** ** Readers, and the two halves of the channel codec *)

Lemma calculate_psnr_store (h : heap) (a b : Image) (v : pyfloat) (h' : heap) :
  calculate_psnr a b h = Ok (v, h') ->
  h' = h ++ [buffer h (im_data a); buffer h (im_data a);
             buffer (h ++ [buffer h (im_data a); buffer h (im_data a)]) (im_data b);
             buffer (h ++ [buffer h (im_data a); buffer h (im_data a)]) (im_data b)].
Proof.
  unfold calculate_psnr.
  destruct (negb _); [discriminate|].
  rewrite (bind_ok _ _ _ _ _ (convert_RGB_run _ _)).
  rewrite (bind_ok _ _ _ _ _ (np_array_run _ _)).
  rewrite (bind_ok _ _ _ _ _ (convert_RGB_run _ _)).
  rewrite (bind_ok _ _ _ _ _ (np_array_run _ _)).
  cbn [im_data]. rewrite buffer_last.
  set (pa := buffer h (im_data a)).
  replace ((h ++ [pa]) ++ [pa]) with (h ++ [pa; pa]) by now rewrite <- app_assoc.
  set (pb := buffer (h ++ [pa; pa]) (im_data b)).
  rewrite buffer_last.
  replace (((h ++ [pa; pa]) ++ [pb]) ++ [pb]) with (h ++ [pa; pa; pb; pb])
    by now rewrite <- !app_assoc.
  unfold bind, load, lift.
  destruct (np_binop _ _ _) as [diff|e]; [|discriminate].
  destruct (np_mean _) as [mse|]; [destruct (Qeq_bool mse 0)|];
    unfold ret; intros [= _ <-]; reflexivity.
Qed.

(** X15.  [extract_encrypted_data] and [calculate_psnr] only read the
    images they are given: when they return, the store is the old one
    with new arrays after it, every array that was there unchanged. *)
Theorem readers_keep_the_store (h : heap) :
  (forall image bs h',
     extract_encrypted_data image h = Ok (bs, h') ->
     (exists k, h' = h ++ k)
     /\ forall l : nat, (l < length h)%nat -> h' !! l = h !! l)
  /\ (forall a b v h',
        calculate_psnr a b h = Ok (v, h') ->
        (exists k, h' = h ++ k)
        /\ forall l : nat, (l < length h)%nat -> h' !! l = h !! l).
Proof.
  split.
  - intros image bs h' Hrun. rewrite extract_run in Hrun. cbv zeta in Hrun.
    destruct (_ <=? _) in Hrun; [discriminate|].
    destruct (_ || _) in Hrun; [discriminate|].
    injection Hrun as _ <-. split; [eauto|].
    intros l Hl. now apply lookup_app_l.
  - intros a b v h' Hrun. rewrite (calculate_psnr_store _ _ _ _ _ Hrun).
    split; [eauto|]. intros l Hl. now apply lookup_app_l.
Qed.

Lemma _channels_to_bytes_bytes (px : list pixel) : is_bytes (_channels_to_bytes px).
Proof.
  rewrite _channels_to_bytes_map. apply Forall_forall. intros x Hx.
  apply list_elem_of_In, in_map_iff in Hx. destruct Hx as (p & <- & _).
  apply uint8_is_byte.
Qed.

Lemma lookup_of_map {A B} (f : A -> B) (l : list A) (i : nat) :
  map f l !! i = f <$> l !! i.
Proof. revert i. induction l as [|x l IH]; intros [|i]; cbn; auto. Qed.

(** X16.  Whatever [extract_encrypted_data] returns is a byte string of
    at least one and at most [len pixels - 4] bytes; its length is the
    big-endian integer of the bytes the first four pixels carry; and its
    byte number [i] is the one pixel number [4 + i] carries, 64 for each
    unit of the two low bits of red, 16 for each of the two low bits of
    green, and the four low bits of blue. *)
Theorem extract_result (h : heap) (image : Image) (bs : bytes) (h' : heap) :
  extract_encrypted_data image h = Ok (bs, h') ->
  let px := buffer h (im_data image) in
  is_bytes bs
  /\ 1 <= len bs <= len px - 4
  /\ (exists p0 p1 p2 p3 rest,
        px = p0 :: p1 :: p2 :: p3 :: rest
        /\ len bs = spec_header_length p0 p1 p2 p3)
  /\ (forall i : nat, (i < length bs)%nat ->
        exists r g b,
          px !! (4 + i)%nat = Some (r, g, b)
          /\ bs !! i = Some (64 * (r mod 4) + 16 * (g mod 4) + b mod 16)).
Proof.
  intros Hrun px. rewrite extract_run in Hrun. fold px in Hrun. cbv zeta in Hrun.
  change HEADER_LEN with 4 in Hrun.
  destruct (Z.leb_spec (len px) 4) as [|Hbig]; [discriminate|].
  destruct (four_and_more px Hbig) as (p0 & p1 & p2 & p3 & rest & Hpx & _).
  rewrite Hpx in Hrun. rewrite slice_after_header in Hrun.
  change (slice (p0 :: p1 :: p2 :: p3 :: rest) 0 4) with [p0; p1; p2; p3] in Hrun.
  rewrite header_length_spec, _channels_to_bytes_spec in Hrun.
  assert (Hr : len px - 4 = len rest).
  { rewrite Hpx. unfold len. cbn [length]. lia. }
  rewrite <- Hpx, Hr in Hrun.
  set (L := spec_header_length p0 p1 p2 p3) in *.
  destruct (Z.leb_spec L 0); [discriminate|].
  destruct (Z.ltb_spec (len rest) L); [discriminate|].
  cbn [orb] in Hrun. injection Hrun as <- _.
  assert (Hlen : len (map spec_pixel_byte (take (Z.to_nat L) rest)) = L).
  { unfold len. rewrite length_map, length_take. unfold len in *. lia. }
  split; [|split; [|split]].
  - rewrite <- _channels_to_bytes_spec. apply _channels_to_bytes_bytes.
  - rewrite Hlen, Hr. lia.
  - exists p0, p1, p2, p3, rest. split; [exact Hpx|]. exact Hlen.
  - intros i Hi. rewrite length_map, length_take in Hi.
    destruct (lookup_lt_is_Some_2 rest i ltac:(lia)) as [[[r g] b] Hp].
    exists r, g, b. split.
    + rewrite Hpx. exact Hp.
    + pose proof (lookup_of_map spec_pixel_byte (take (Z.to_nat L) rest) i) as E.
      rewrite lookup_take_lt in E by lia. rewrite Hp in E. exact E.
Qed.

Lemma split_recombine (b : Z) :
  is_byte b ->
  decode_pixel (uint8 (Z.land (Z.shiftr b 6) 0x03),
                uint8 (Z.land (Z.shiftr b 4) 0x03),
                uint8 (Z.land b 0x0F)) = b
  /\ 0 <= uint8 (Z.land (Z.shiftr b 6) 0x03) <= 3
  /\ 0 <= uint8 (Z.land (Z.shiftr b 4) 0x03) <= 3
  /\ 0 <= uint8 (Z.land b 0x0F) <= 15.
Proof.
  intros Hb.
  assert (H : (decode_pixel (uint8 (Z.land (Z.shiftr b 6) 0x03),
                             uint8 (Z.land (Z.shiftr b 4) 0x03),
                             uint8 (Z.land b 0x0F)) =? b)
              && (0 <=? uint8 (Z.land (Z.shiftr b 6) 0x03))
              && (uint8 (Z.land (Z.shiftr b 6) 0x03) <=? 3)
              && (0 <=? uint8 (Z.land (Z.shiftr b 4) 0x03))
              && (uint8 (Z.land (Z.shiftr b 4) 0x03) <=? 3)
              && (0 <=? uint8 (Z.land b 0x0F))
              && (uint8 (Z.land b 0x0F) <=? 15) = true).
  { revert b Hb. apply byte_forall. vm_compute. reflexivity. }
  repeat (apply andb_prop in H as [H ?]). apply Z.eqb_eq in H. lia.
Qed.

(** X17.  The two halves of the 2:2:4 codec: [_bytes_to_224_channels]
    gives three arrays as long as the data, with values up to 3, 3 and 15,
    and [_channels_to_bytes] on the pixels made of these three arrays
    gives the bytes back. *)
Theorem channel_codec_round_trip (data : bytes) :
  is_bytes data ->
  _channels_to_bytes (pixels_of_channels (_bytes_to_224_channels data)) = data
  /\ (let '(red_bits, green_bits, blue_bits) := _bytes_to_224_channels data in
      length red_bits = length data /\ length green_bits = length data
      /\ length blue_bits = length data
      /\ Forall (fun v => 0 <= v <= 3) red_bits
      /\ Forall (fun v => 0 <= v <= 3) green_bits
      /\ Forall (fun v => 0 <= v <= 15) blue_bits).
Proof.
  intros Hd. unfold _bytes_to_224_channels, pixels_of_channels. cbv zeta.
  rewrite _channels_to_bytes_map, !length_map.
  induction Hd as [|b data Hb Hd IH].
  - cbn. repeat split; constructor.
  - destruct IH as (IH1 & _ & _ & _ & IHr & IHg & IHb).
    destruct (split_recombine b Hb) as (Hdec & Hr & Hg & Hbl).
    cbn [map zip zip_with fst snd length]. rewrite Hdec.
    split; [f_equal; exact IH1|].
    repeat split; try reflexivity; constructor; assumption.
Qed.

(** ** Bounds on the PSNR *)

Lemma ln_le_mono (x y : R) : (0 < x)%R -> (x <= y)%R -> (ln x <= ln y)%R.
Proof.
  intros Hx [Hlt | ->]; [|apply Rle_refl].
  apply Rlt_le. now apply ln_increasing.
Qed.

Lemma ln_10_pos : (0 < ln 10)%R.
Proof. rewrite <- ln_1. apply ln_increasing; lra. Qed.

Lemma log10_le_mono (x y : R) : (0 < x)%R -> (x <= y)%R -> (log10 x <= log10 y)%R.
Proof.
  intros Hx Hxy. unfold log10. pose proof ln_10_pos as H10.
  pose proof (ln_le_mono x y Hx Hxy) as Hl.
  apply Rmult_le_compat_r; [|exact Hl]. apply Rlt_le. now apply Rinv_0_lt_compat.
Qed.

(** The decibel value of a mean squared error grows as the error shrinks. *)
Lemma decibel_bound (mse M : R) :
  (0 < mse <= M)%R ->
  (20 * log10 (255 / sqrt M) <= 20 * log10 (255 / sqrt mse))%R.
Proof.
  intros [Hpos Hle].
  pose proof (sqrt_lt_R0 mse Hpos) as Hs.
  pose proof (sqrt_le_1_alt mse M Hle) as Hsle.
  assert (HsM : (0 < sqrt M)%R) by lra.
  apply Rmult_le_compat_l; [lra|]. apply log10_le_mono.
  - apply Rdiv_lt_0_compat; lra.
  - unfold Rdiv. apply Rmult_le_compat_l; [lra|].
    apply Rinv_le_contravar; assumption.
Qed.

Lemma mean_squared_error_real (pa pb : list pixel) :
  pa <> [] ->
  Q2R (mean_squared_error pa pb)
  = (IZR (squared_error pa pb) / IZR (3 * len pa))%R.
Proof.
  intros Hne. unfold mean_squared_error, Q2R. cbn [Qnum Qden]. unfold Rdiv.
  do 3 f_equal. destruct pa as [|p pa]; [congruence|].
  rewrite <- positive_nat_Z, Nat2Pos.id by (cbn [length]; lia).
  unfold len. lia.
Qed.

Lemma psnr_of_bound (pa pb : list pixel) (M : R) :
  pa <> [] ->
  (IZR (squared_error pa pb) <= M * IZR (3 * len pa))%R ->
  psnr_of pa pb = PosInf
  \/ exists x, psnr_of pa pb = Finite x /\ (20 * log10 (255 / sqrt M) <= x)%R.
Proof.
  intros Hne HM. unfold psnr_of.
  pose proof (channel_values_length pa) as Hc.
  destruct (channel_values pa) as [|c cs].
  { destruct pa; [congruence | cbn [length] in Hc; lia]. }
  destruct (Z.eqb_spec (squared_error pa pb) 0) as [He|He]; [now left|].
  right. eexists. split; [reflexivity|].
  apply decibel_bound. rewrite mean_squared_error_real by exact Hne.
  pose proof (squared_error_nonneg pa pb) as Hn.
  assert (Hn' : 0 < squared_error pa pb) by lia.
  pose proof (nonempty_len _ Hne) as Hl.
  assert (Hd : (0 < IZR (3 * len pa))%R) by (apply IZR_lt; lia).
  apply IZR_lt in Hn'. split.
  - apply Rdiv_lt_0_compat; assumption.
  - apply Rmult_le_reg_r with (r := IZR (3 * len pa)); [exact Hd|].
    unfold Rdiv. rewrite Rmult_assoc, Rinv_l by lra. lra.
Qed.

Lemma squared_error_bytes (pa pb : list pixel) :
  forallb is_pixelb pa = true -> forallb is_pixelb pb = true ->
  length pa = length pb ->
  squared_error pa pb <= 65025 * (3 * len pa).
Proof.
  revert pb. induction pa as [|p pa IH]; intros [|q pb] Ha Hb Hl;
    try (cbn [length] in Hl; discriminate Hl).
  - rewrite squared_error_nil_l. unfold len. cbn [length]. lia.
  - cbn [forallb] in Ha, Hb.
    apply andb_prop in Ha as [Hp Ha]. apply andb_prop in Hb as [Hq Hb].
    destruct (is_pixelb_spec _ Hp) as (Hr & Hg & Hbl).
    destruct (is_pixelb_spec _ Hq) as (Hr' & Hg' & Hbl').
    injection Hl as Hl. specialize (IH pb Ha Hb Hl).
    rewrite squared_error_cons. unfold is_byte, len in *. cbn [length].
    rewrite !Z.pow_2_r.
    assert (Hsq : forall x y, 0 <= x < 256 -> 0 <= y < 256 -> (x - y) * (x - y) <= 65025)
      by (intros; nia).
    pose proof (Hsq _ _ Hr Hr'). pose proof (Hsq _ _ Hg Hg'). pose proof (Hsq _ _ Hbl Hbl').
    lia.
Qed.

Lemma wf_image_pixels (h : heap) (image : Image) :
  wf_image h image ->
  forallb is_pixelb (buffer h (im_data image)) = true
  /\ len (buffer h (im_data image)) = im_width image * im_height image.
Proof.
  intros Hwf. pose proof Hwf as Hwf0. unfold wf_image, wf_imageb in Hwf0.
  destruct (wf_image_inv _ _ Hwf) as (_ & _ & px & Hpx & Hsz & _).
  rewrite Hpx in Hwf0. rewrite (buffer_lookup _ _ _ Hpx).
  apply andb_prop in Hwf0 as [_ Hrest]. apply andb_prop in Hrest as [_ Hpix]. auto.
Qed.

(** X18.  For two well-formed images of the same size with at least
    one pixel, the value of [calculate_psnr], read over the reals, is
    infinite or a number of decibels that is not negative. *)
Theorem psnr_nonnegative (h : heap) (a b : Image) :
  wf_image h a -> wf_image h b ->
  (im_width a, im_height a) = (im_width b, im_height b) ->
  0 < im_width a * im_height a ->
  value (calculate_psnr a b h) = Ok PosInf
  \/ exists x, value (calculate_psnr a b h) = Ok (Finite x) /\ (0 <= x)%R.
Proof.
  intros Ha Hb Heq Hpos.
  destruct (calculate_psnr_run h a b Ha Hb Heq) as [h' Hrun]. rewrite Hrun. cbn [value].
  destruct (wf_image_pixels _ _ Ha) as [Hpa Hla].
  destruct (wf_image_pixels _ _ Hb) as [Hpb Hlb].
  set (pa := buffer h (im_data a)) in *. set (pb := buffer h (im_data b)) in *.
  assert (Hl : length pa = length pb).
  { injection Heq as Hw Hh. unfold len in *. nia. }
  assert (Hne : pa <> []) by (intros E; rewrite E in Hla; unfold len in Hla; cbn in Hla; lia).
  destruct (psnr_of_bound pa pb 65025 Hne) as [Hinf | (x & Hx & Hbound)].
  - rewrite <- mult_IZR. apply IZR_le. now apply squared_error_bytes.
  - left. now rewrite Hinf.
  - right. exists x. split; [now rewrite Hx|].
    assert (Hs : sqrt 65025 = 255%R) by (apply sqrt_lem_1; lra).
    rewrite Hs in Hbound. replace (255 / 255)%R with 1%R in Hbound by lra.
    unfold log10 in Hbound. rewrite ln_1 in Hbound. lra.
Qed.

Lemma target_55 : (55 <= 20 * log10 (255 / sqrt (81 / 400)))%R.
Proof.
  assert (Hs : sqrt (81 / 400) = (9 / 20)%R) by (apply sqrt_lem_1; lra).
  rewrite Hs. replace (255 / (9 / 20))%R with (1700 / 3)%R by lra.
  unfold log10. pose proof ln_10_pos as H10.
  assert (H : (11 * ln 10 <= 4 * ln (1700 / 3))%R).
  { replace 11%R with (INR 11) by (simpl; lra).
    replace 4%R with (INR 4) by (simpl; lra).
    rewrite <- !ln_pow by lra. apply ln_le_mono; lra. }
  apply Rmult_le_reg_r with (r := ln 10); [exact H10|].
  replace (20 * (ln (1700 / 3) / ln 10) * ln 10)%R with (20 * ln (1700 / 3))%R
    by (field; lra).
  lra.
Qed.

(** X19.  The PSNR of a cover and the stego image made from it, read
    over the reals: it is infinite or at least [20 * log10 (255 / 9)]
    (about 29 dB), and at least the 55 dB below which the application
    warns whenever the image has 400 pixels or more for each byte
    written, header included. *)
Theorem stego_psnr_bounds (h : heap) (cover : Image) (blob : bytes)
    (stego : Image) (h' : heap) :
  wf_image h cover ->
  embed_encrypted_data cover blob h = Ok (stego, h') ->
  value (calculate_psnr cover stego h') = Ok PosInf
  \/ exists x,
       value (calculate_psnr cover stego h') = Ok (Finite x)
       /\ (20 * log10 (255 / 9) <= x)%R
       /\ (400 * (HEADER_LEN + len blob) <= im_width cover * im_height cover ->
           (55 <= x)%R).
Proof.
  intros Hwf Hrun.
  pose proof (embed_stego_wf _ _ _ _ _ Hwf Hrun) as Hwf'.
  pose proof (fun image => embed_keeps_wf _ _ _ _ _ image Hwf Hrun) as Hkeep.
  destruct (embed_ok_run _ _ _ _ _ Hwf Hrun) as (Hst & Hh' & Hbuf & Hne & Hlen & Hcap).
  pose proof (Hkeep _ Hwf) as Hwfc.
  assert (Hdim : (im_width cover, im_height cover) = (im_width stego, im_height stego))
    by now rewrite Hst.
  destruct (calculate_psnr_run h' cover stego Hwfc Hwf' Hdim) as [h2 Hp].
  rewrite Hp. cbn [value].
  destruct (wf_image_pixels _ _ Hwf) as [Hpix Hsz].
  assert (Hbc : buffer h' (im_data cover) = buffer h (im_data cover)).
  { rewrite Hh'. apply buffer_app_l.
    destruct (wf_image_inv _ _ Hwf) as (_ & _ & q & Hq & _).
    eapply lookup_lt_Some; eassumption. }
  rewrite Hbc, Hbuf.
  set (px := buffer h (im_data cover)) in *.
  pose proof (nonempty_len _ Hne) as Hpos.
  assert (Hpx : px <> []).
  { intros E. rewrite E in Hsz. unfold len, HEADER_LEN in *. cbn [length] in Hsz. lia. }
  pose proof (squared_error_stego px (stream blob) Hpix) as Hse.
  pose proof (stream_length blob) as Hsl.
  pose proof (nonempty_len _ Hpx) as Hpxl.
  destruct (Z.eqb_spec (squared_error px (stego_pixels px (stream blob))) 0) as [He|He].
  { left. unfold psnr_of. pose proof (channel_values_length px) as Hc.
    destruct (channel_values px); [destruct px; [congruence | cbn [length] in Hc; lia]|].
    now rewrite He. }
  right.
  destruct (psnr_of_bound px (stego_pixels px (stream blob)) 81 Hpx) as [Hinf | (x & Hx & Hb)].
  { rewrite <- mult_IZR. apply IZR_le. unfold len in *. lia. }
  { exfalso. unfold psnr_of in Hinf. destruct (channel_values px); [discriminate|].
    destruct (Z.eqb_spec (squared_error px (stego_pixels px (stream blob))) 0);
      [contradiction | discriminate]. }
  exists x. split; [now rewrite Hx|]. split.
  - assert (Hs : sqrt 81 = 9%R) by (apply sqrt_lem_1; lra). now rewrite Hs in Hb.
  - intros Hfrac.
    destruct (psnr_of_bound px (stego_pixels px (stream blob)) (81 / 400) Hpx)
      as [Hinf | (y & Hy & Hby)].
    + apply Rmult_le_reg_l with (r := 400%R); [lra|].
      replace (400 * (81 / 400 * IZR (3 * len px)))%R with (81 * IZR (3 * len px))%R
        by (field; lra).
      rewrite <- !mult_IZR. apply IZR_le. unfold len in *. lia.
    + rewrite Hx in Hinf. discriminate.
    + rewrite Hx in Hy. injection Hy as <-. pose proof target_55. lra.
Qed.

(** ** The hide and extract actions *)

Lemma lift_ok {A B} (r : result A) (a : A) (k : A -> M B) (h : heap) :
  r = Ok a -> bind (lift r) k h = k a h.
Proof. intros ->. reflexivity. Qed.

Lemma lift_raise {A B} (r : result A) (e : exn) (k : A -> M B) (h : heap) :
  r = Raise e -> bind (lift r) k h = Raise e.
Proof. intros ->. reflexivity. Qed.

Lemma utf8_encode_bytes (s : str) (bs : bytes) :
  utf8_encode s = Ok bs -> Forall is_codepoint s -> is_bytes bs.
Proof.
  intros Henc Hcp. destruct (scalar_or_surrogate _ Hcp) as [Hs|Hex].
  - destruct (utf8_encode_scalar _ Hs) as (bs' & E & _ & Hb). congruence.
  - rewrite (utf8_encode_surrogate _ Hcp Hex) in Henc. discriminate.
Qed.

Section HideThenExtract.
Context `{H256 : Sha256} `{Hgcm : AesGcm}.

(** The encrypted blob of a secret: its size and its bytes. *)
Lemma encrypted_envelope (nonce key : bytes) (name : str) (data name_bytes : bytes) :
  len key = 32 -> len nonce = NONCE_LEN ->
  data <> [] ->
  utf8_encode (clean_name name) = Ok name_bytes -> len name_bytes <= 65535 ->
  exists envelope blob,
    package_secret_file name data = Ok envelope
    /\ envelope = MAGIC ++ be_digits 2 (len name_bytes) ++ name_bytes ++ data
    /\ encrypt_payload nonce envelope key = Ok blob
    /\ blob = nonce ++ snd (encrypt_and_digest key nonce envelope)
                   ++ fst (encrypt_and_digest key nonce envelope)
    /\ len blob = 34 + len name_bytes + len data
    /\ decrypt_payload blob key = Ok envelope.
Proof.
  intros Hk Hn Hd Henc Hlen.
  eexists _, _. split; [now apply (package_run name data name_bytes)|].
  split; [reflexivity|].
  set (envelope := MAGIC ++ be_digits 2 (len name_bytes) ++ name_bytes ++ data).
  split; [now apply encrypt_payload_run|]. split; [reflexivity|].
  pose proof (tag_len key nonce envelope) as Ht.
  pose proof (ciphertext_len key nonce envelope) as Hc.
  assert (Hel : len envelope = 6 + len name_bytes + len data).
  { unfold envelope. rewrite !len_app. unfold len at 1 2. rewrite be_digits_length.
    cbn [length MAGIC]. lia. }
  pose proof (len_nonneg name_bytes). pose proof (nonempty_len _ Hd).
  assert (Hbl : len (nonce ++ snd (encrypt_and_digest key nonce envelope)
                       ++ fst (encrypt_and_digest key nonce envelope))
                = 34 + len name_bytes + len data).
  { rewrite !len_app, Hn, Ht, Hc, Hel. unfold NONCE_LEN, TAG_LEN. lia. }
  split; [exact Hbl|].
  assert (Hlong : NONCE_LEN + TAG_LEN
                  < len (nonce ++ snd (encrypt_and_digest key nonce envelope)
                           ++ fst (encrypt_and_digest key nonce envelope))).
  { rewrite Hbl. unfold NONCE_LEN, TAG_LEN. clearbody envelope. lia. }
  rewrite (decrypt_payload_long _ _ Hk Hlong).
  rewrite slice_nonce, slice_tag, drop_ciphertext by assumption.
  now rewrite decrypt_encrypt.
Qed.

(** X20.  The hide action followed by the extract action under the same
    password: for a well-formed cover, a password that gives a key,
    non-empty data, a cleaned name of at most 65535 encoded bytes, a
    12-byte nonce, a cipher whose output is a byte string shorter than
    [2^32], and a cover with at least [38 + len name_bytes + len data]
    pixels (4 of header, 28 of nonce and tag, 6 of envelope header),
    hiding succeeds and extracting from the stego image returns the
    cleaned name and the data. *)
Theorem hide_then_extract (h : heap) (cover : Image) (nonce : bytes)
    (name password : str) (data name_bytes key : bytes) :
  wf_image h cover ->
  derive_key password = Ok key ->
  data <> [] ->
  utf8_encode (clean_name name) = Ok name_bytes -> len name_bytes <= 65535 ->
  len nonce = NONCE_LEN ->
  (forall blob, encrypt_payload nonce
                  (MAGIC ++ be_digits 2 (len name_bytes) ++ name_bytes ++ data) key
                = Ok blob -> is_bytes blob) ->
  34 + len name_bytes + len data < 2 ^ 32 ->
  38 + len name_bytes + len data <= im_width cover * im_height cover ->
  exists stego psnr_value h',
    hide_action nonce cover name data password h = Ok ((stego, psnr_value), h')
    /\ value (extract_action stego password h')
       = Ok {| filename := clean_name name; data := data |}.
Proof.
  intros Hwf Hkey Hd Henc Hlen Hn Hbytes H32 Hcap.
  pose proof (derive_key_len _ _ Hkey) as Hk.
  destruct (encrypted_envelope nonce key name data name_bytes Hk Hn Hd Henc Hlen)
    as (envelope & blob & Hpack & Henv & Hencr & Hblob & Hbl & Hdec).
  rewrite <- Henv in Hbytes. specialize (Hbytes blob Hencr).
  assert (Hne : blob <> []).
  { intros E. rewrite E in Hbl. unfold len in Hbl. cbn [length] in Hbl.
    pose proof (len_nonneg name_bytes). pose proof (len_nonneg data). lia. }
  assert (Hcap' : len blob <= im_width cover * im_height cover - HEADER_LEN)
    by (unfold HEADER_LEN; lia).
  assert (Hlt : len blob < 2 ^ 32) by lia.
  pose proof (embed_run h cover blob Hwf Hne Hcap' Hlt) as Hrun.
  pose proof (embed_stego_wf _ _ _ _ _ Hwf Hrun) as Hwf'.
  pose proof (fun image => embed_keeps_wf _ _ _ _ _ image Hwf Hrun) as Hkeep.
  set (stego := {| im_width := im_width cover; im_height := im_height cover;
                   im_data := S (S (length h)) |}) in *.
  set (h1 := h ++ _) in *.
  destruct (calculate_psnr_run h1 cover stego (Hkeep _ Hwf) Hwf' eq_refl) as [h2 Hp].
  exists stego, (psnr_of (buffer h1 (im_data cover)) (buffer h1 (im_data stego))), h2.
  split.
  - unfold hide_action.
    rewrite (lift_ok _ _ _ _ Hkey), (lift_ok _ _ _ _ Hpack), (lift_ok _ _ _ _ Hencr).
    rewrite (bind_ok _ _ _ _ _ Hrun), (bind_ok _ _ _ _ _ Hp). reflexivity.
  - unfold extract_action. rewrite (lift_ok _ _ _ _ Hkey).
    assert (Hex : exists h3, extract_encrypted_data stego h2 = Ok (blob, h3)).
    { assert (Hv : value (extract_encrypted_data stego h2) = Ok blob).
      { destruct (wf_image_pixels _ _ Hwf) as [_ Hsz].
        apply (extract_stego_pixels _ _ (buffer h (im_data cover)) blob); auto.
        - rewrite (calculate_psnr_store _ _ _ _ _ Hp).
          rewrite lookup_app_l by (unfold h1; rewrite length_app; cbn [im_data stego length]; lia).
          unfold h1. cbn [im_data stego]. rewrite lookup_app_r by lia.
          now replace (S (S (length h)) - length h)%nat with 2%nat by lia.
        - unfold HEADER_LEN in *. lia. }
      destruct (extract_encrypted_data stego h2) as [[b h3]|e]; [|discriminate].
      injection Hv as ->. eauto. }
    destruct Hex as [h3 Hex]. rewrite (bind_ok _ _ _ _ _ Hex).
    rewrite (lift_ok _ _ _ _ Hdec). unfold lift.
    destruct (clean_name_stripped name) as [Hs Hnn].
    rewrite Henv, (unpackage_run (clean_name name) data name_bytes) by assumption.
    reflexivity.
Qed.
End HideThenExtract.

Lemma extract_ok_inv (h : heap) (image : Image) (bs : bytes) (h' : heap) :
  extract_encrypted_data image h = Ok (bs, h') ->
  h' = h ++ [buffer h (im_data image); buffer h (im_data image)]
  /\ 1 <= len bs <= len (buffer h (im_data image)) - 4.
Proof.
  intros Hrun. rewrite extract_run in Hrun. cbv zeta in Hrun.
  change HEADER_LEN with 4 in Hrun.
  set (px := buffer h (im_data image)) in *.
  destruct (Z.leb_spec (len px) 4); [discriminate|].
  set (L := int_from_bytes (_channels_to_bytes (slice px 0 4))) in *.
  destruct (Z.leb_spec L 0); [discriminate|].
  destruct (Z.ltb_spec (len px - 4) L); [discriminate|].
  cbn [orb] in Hrun. injection Hrun as <- <-. split; [reflexivity|].
  unfold len. rewrite _channels_to_bytes_length. unfold slice.
  rewrite length_take, length_drop. clearbody L px. unfold len in *. lia.
Qed.

Lemma unpackage_name_data (payload : bytes) (sf : SecretFile) :
  unpackage_secret_file payload = Ok sf ->
  filename sf <> [] /\ strip (filename sf) = filename sf /\ data sf <> [].
Proof.
  intros Hu. destruct (unpackage_ok_inv _ _ Hu) as (_ & _ & _ & -> & Hd).
  cbn [filename data] in *. split; [|split; [|exact Hd]].
  - destruct (strip _); discriminate.
  - destruct (strip (utf8_decode _)) as [|c t] eqn:En; cbn [str_or]; [reflexivity|].
    rewrite <- En. apply strip_idempotent.
Qed.

Section ActionOutcomes.
Context `{H256 : Sha256} `{Hgcm : AesGcm}.

(** X21.  What the calls of the hide action refuse once the password
    has given a key, in their order: an empty secret gives [EmptySecret];
    a secret whose cleaned name encodes to more than 65535 bytes gives
    [NameTooLong]; and with a secret that packs, a cover of fewer than
    [38 + len name_bytes + len data] pixels gives [CapacityExceeded]
    citing the [34 + len name_bytes + len data] bytes needed and the
    capacity of the cover. *)
Theorem hide_action_errors (h : heap) (cover : Image) (nonce : bytes)
    (name password : str) (data key : bytes) :
  len nonce = NONCE_LEN ->
  derive_key password = Ok key ->
  (data = [] ->
     hide_action nonce cover name data password h = Raise (BlueCrypt EmptySecret))
  /\ (forall name_bytes,
        data <> [] ->
        utf8_encode (clean_name name) = Ok name_bytes ->
        (65535 < len name_bytes ->
           hide_action nonce cover name data password h
           = Raise (BlueCrypt NameTooLong))
        /\ (len name_bytes <= 65535 ->
            im_width cover * im_height cover < 38 + len name_bytes + len data ->
            hide_action nonce cover name data password h
            = Raise (BlueCrypt (CapacityExceeded (34 + len name_bytes + len data)
                       (Z.max (im_width cover * im_height cover - 4) 0))))).
Proof.
  intros Hn Hkey. split.
  - intros ->. unfold hide_action. rewrite (lift_ok _ _ _ _ Hkey). reflexivity.
  - intros nb Hd Henc. split.
    + intros Hlong. unfold hide_action. rewrite (lift_ok _ _ _ _ Hkey).
      apply lift_raise. now apply (package_name_too_long name data nb).
    + intros Hlen Hcap.
      pose proof (derive_key_len _ _ Hkey) as Hk.
      destruct (encrypted_envelope nonce key name data nb Hk Hn Hd Henc Hlen)
        as (envelope & blob & Hpack & _ & Hencr & _ & Hbl & _).
      unfold hide_action.
      rewrite (lift_ok _ _ _ _ Hkey), (lift_ok _ _ _ _ Hpack), (lift_ok _ _ _ _ Hencr).
      pose proof (len_nonneg nb) as Hnb. pose proof (len_nonneg data) as Hdl.
      assert (Hne : blob <> []).
      { intros E. rewrite E in Hbl. unfold len in Hbl. cbn [length] in Hbl.
        unfold len in *. lia. }
      rewrite (bind_raise _ _ _ _ (embed_capacity_exceeded h cover blob Hne
                 ltac:(unfold HEADER_LEN; lia))).
      now rewrite Hbl.
Qed.

(** X22.  Whenever the extract action returns a secret, the password
    was not empty, the image has at least 33 pixels, the file name is
    non-empty and stripped, the data is non-empty, and no array of the
    store was changed. *)
Theorem extract_action_result (h : heap) (stego : Image) (password : str)
    (sf : SecretFile) (h' : heap) :
  extract_action stego password h = Ok (sf, h') ->
  password <> []
  /\ 33 <= len (buffer h (im_data stego))
  /\ filename sf <> [] /\ strip (filename sf) = filename sf /\ data sf <> []
  /\ forall l : nat, (l < length h)%nat -> h' !! l = h !! l.
Proof.
  unfold extract_action. intros Hrun.
  destruct (derive_key password) as [key|e] eqn:Hkey; [|discriminate].
  assert (Hp : password <> []) by (intros ->; discriminate).
  rewrite (lift_ok _ _ _ _ eq_refl) in Hrun. unfold bind at 1 in Hrun.
  destruct (extract_encrypted_data stego h) as [[blob h1]|e] eqn:Hex; [|discriminate].
  destruct (extract_ok_inv _ _ _ _ Hex) as [Hh1 Hlen].
  destruct (decrypt_payload blob key) as [pt|e] eqn:Hdec; [|discriminate].
  rewrite (lift_ok _ _ _ _ eq_refl) in Hrun. unfold lift in Hrun.
  destruct (unpackage_secret_file pt) as [sf'|e] eqn:Hun; [|discriminate].
  injection Hrun as <- <-.
  destruct (unpackage_name_data _ _ Hun) as (Hn & Hs & Hd).
  assert (Hlong : 28 < len blob).
  { destruct (Z_le_gt_dec (len blob) 28) as [Hle|Hgt]; [|lia].
    rewrite decrypt_payload_short in Hdec by (unfold NONCE_LEN, TAG_LEN; lia).
    discriminate. }
  repeat split; auto; try lia.
  intros l Hl. rewrite Hh1. now apply lookup_app_l.
Qed.
End ActionOutcomes.

(** ** The further theorems at concrete inputs *)

Ltac codepoints_ok :=
  repeat first [apply List.Forall_nil
               | apply List.Forall_cons;
                 [unfold is_scalar, is_codepoint, is_surrogate; cbn; lia|]].

Lemma derive_key_cases_witness :
  exists key, @derive_key standin_sha256 (py_str "hunter2") = Ok key /\ len key = 32.
Proof.
  apply (@derive_key_cases standin_sha256 (py_str "hunter2")).
  - codepoints_ok.
  - discriminate.
  - codepoints_ok.
Defined.

Lemma package_accepts_witness :
  exists envelope name_bytes,
    package_secret_file (py_str "a/b/ note.txt ") hello = Ok envelope
    /\ utf8_encode (clean_name (py_str "a/b/ note.txt ")) = Ok name_bytes
    /\ envelope = MAGIC ++ be_digits 2 (len name_bytes) ++ name_bytes ++ hello
    /\ len envelope = 6 + len name_bytes + len hello
    /\ 8 <= len envelope
    /\ (is_bytes hello -> is_bytes envelope).
Proof.
  apply (package_accepts (py_str "a/b/ note.txt ") hello).
  - codepoints_ok.
  - vm_compute. discriminate.
  - discriminate.
Defined.

Lemma unpackage_cases_witness :
  unpackage_secret_file [66; 67; 80; 49; 0; 9; 120] = Raise (BlueCrypt Corrupted).
Proof.
  refine (proj1 (proj2 (proj2 (proj2
            (unpackage_cases [66; 67; 80; 49; 0; 9; 120] _) _)) _) _).
  - bytes_ok.
  - vm_compute. discriminate.
  - reflexivity.
  - reflexivity.
Defined.

Lemma unpackage_result_witness :
  filename (fst recovered_10x10) <> []
  /\ strip (filename (fst recovered_10x10)) = filename (fst recovered_10x10)
  /\ data (fst recovered_10x10) <> []
  /\ slice (MAGIC ++ [0; 8] ++ note_txt ++ hello) 0 4 = MAGIC
  /\ exists header,
       MAGIC ++ [0; 8] ++ note_txt ++ hello = header ++ data (fst recovered_10x10)
       /\ 6 <= len header.
Proof.
  apply (unpackage_result (MAGIC ++ [0; 8] ++ note_txt ++ hello) (fst recovered_10x10)).
  - bytes_ok.
  - reflexivity.
Defined.

Lemma package_injective_witness :
  clean_name (py_str "a/x.txt") = clean_name (py_str "b/ x.txt") /\ hello = hello.
Proof.
  apply (package_injective (py_str "a/x.txt") (py_str "b/ x.txt") hello hello
           (MAGIC ++ [0; 5] ++ [120; 46; 116; 120; 116] ++ hello)); reflexivity.
Defined.

Lemma encrypt_payload_cases_witness :
  exists tag ciphertext,
    @encrypt_payload standin_gcm nonce_12 hello hunter2_key
    = Ok (nonce_12 ++ tag ++ ciphertext)
    /\ len tag = TAG_LEN /\ len ciphertext = len hello
    /\ len (nonce_12 ++ tag ++ ciphertext) = 28 + len hello
    /\ (hello <> [] ->
        @decrypt_payload standin_gcm (nonce_12 ++ tag ++ ciphertext) hunter2_key
        = Ok hello).
Proof.
  refine (proj1 (proj2 (@encrypt_payload_cases standin_gcm nonce_12 hello hunter2_key _)) _).
  - reflexivity.
  - right. right. reflexivity.
Defined.

Lemma embed_well_formed_witness :
  wf_image (snd embedded_3x3) (fst embedded_3x3)
  /\ (forall image, wf_image store_3x3 image -> wf_image (snd embedded_3x3) image).
Proof.
  apply (embed_well_formed store_3x3 image_3x3 [171; 18]); reflexivity.
Defined.

Lemma embed_overwrites_witness :
  exists stego2 h2,
    embed_encrypted_data (fst embedded_3x3) [1; 2; 3] (snd embedded_3x3) = Ok (stego2, h2)
    /\ value (extract_encrypted_data stego2 h2) = Ok [1; 2; 3].
Proof.
  apply (embed_overwrites store_3x3 image_3x3 [171; 18] [1; 2; 3]).
  - reflexivity.
  - reflexivity.
  - bytes_ok.
  - discriminate.
  - reflexivity.
  - vm_compute. discriminate.
Defined.

Lemma embed_idempotent_witness :
  exists stego2 h2,
    embed_encrypted_data (fst embedded_3x3) [171; 18] (snd embedded_3x3) = Ok (stego2, h2)
    /\ buffer h2 (im_data stego2) = buffer (snd embedded_3x3) (im_data (fst embedded_3x3))
    /\ value (calculate_psnr (fst embedded_3x3) stego2 h2) = Ok PosInf.
Proof.
  apply (embed_idempotent store_3x3 image_3x3 [171; 18]); reflexivity.
Defined.

Lemma embed_distortion_witness :
  (forall (i : nat) (p q : pixel),
     buffer store_3x3 (im_data image_3x3) !! i = Some p ->
     buffer (snd embedded_3x3) (im_data (fst embedded_3x3)) !! i = Some q ->
     close_224 p q)
  /\ 0 <= squared_error (buffer store_3x3 (im_data image_3x3))
            (buffer (snd embedded_3x3) (im_data (fst embedded_3x3)))
     <= 243 * (HEADER_LEN + len [171; 18]).
Proof.
  apply (embed_distortion store_3x3 image_3x3 [171; 18]); reflexivity.
Defined.

Lemma psnr_infinite_iff_identical_witness :
  (value (calculate_psnr image_a image_b store_pair) = Ok PosInf
   <-> buffer store_pair (im_data image_a) = buffer store_pair (im_data image_b))
  /\ value (calculate_psnr image_a image_b store_pair) <> Ok NaN.
Proof.
  apply (psnr_infinite_iff_identical store_pair image_a image_b); reflexivity.
Defined.

Lemma psnr_nonnegative_witness :
  value (calculate_psnr image_a image_b store_pair) = Ok PosInf
  \/ exists x, value (calculate_psnr image_a image_b store_pair) = Ok (Finite x)
               /\ (0 <= x)%R.
Proof.
  apply (psnr_nonnegative store_pair image_a image_b); reflexivity.
Defined.

Lemma stego_psnr_bounds_witness :
  value (calculate_psnr image_3x3 (fst embedded_3x3) (snd embedded_3x3)) = Ok PosInf
  \/ exists x,
       value (calculate_psnr image_3x3 (fst embedded_3x3) (snd embedded_3x3))
       = Ok (Finite x)
       /\ (20 * log10 (255 / 9) <= x)%R
       /\ (400 * (HEADER_LEN + len [171; 18]) <= im_width image_3x3 * im_height image_3x3 ->
           (55 <= x)%R).
Proof.
  apply (stego_psnr_bounds store_3x3 image_3x3 [171; 18]); reflexivity.
Defined.

Lemma extract_result_witness :
  let px := buffer (snd embedded_3x3) (im_data (fst embedded_3x3)) in
  is_bytes (fst extracted_3x3)
  /\ 1 <= len (fst extracted_3x3) <= len px - 4
  /\ (exists p0 p1 p2 p3 rest,
        px = p0 :: p1 :: p2 :: p3 :: rest
        /\ len (fst extracted_3x3) = spec_header_length p0 p1 p2 p3)
  /\ (forall i : nat, (i < length (fst extracted_3x3))%nat ->
        exists r g b,
          px !! (4 + i)%nat = Some (r, g, b)
          /\ fst extracted_3x3 !! i = Some (64 * (r mod 4) + 16 * (g mod 4) + b mod 16)).
Proof.
  apply (extract_result (snd embedded_3x3) (fst embedded_3x3)
           (fst extracted_3x3) (snd extracted_3x3)).
  reflexivity.
Defined.

Lemma channel_codec_round_trip_witness :
  _channels_to_bytes (pixels_of_channels (_bytes_to_224_channels hello)) = hello.
Proof.
  refine (proj1 (channel_codec_round_trip hello _)). bytes_ok.
Defined.

Lemma hide_then_extract_witness :
  exists stego psnr_value h',
    @hide_action standin_sha256 standin_gcm nonce_12 image_10x10
      (py_str "note.txt") hello (py_str "hunter2") store_10x10
    = Ok ((stego, psnr_value), h')
    /\ value (@extract_action standin_sha256 standin_gcm stego (py_str "hunter2") h')
       = Ok {| filename := clean_name (py_str "note.txt"); data := hello |}.
Proof.
  apply (@hide_then_extract standin_sha256 standin_gcm store_10x10 image_10x10 nonce_12
           (py_str "note.txt") (py_str "hunter2") hello note_txt hunter2_key).
  - reflexivity.
  - reflexivity.
  - discriminate.
  - reflexivity.
  - vm_compute. discriminate.
  - reflexivity.
  - intros blob Hblob. vm_compute in Hblob. injection Hblob as <-. bytes_ok.
  - reflexivity.
  - vm_compute. discriminate.
Defined.

Lemma hide_action_errors_witness :
  @hide_action standin_sha256 standin_gcm nonce_12 image_3x3
    (py_str "note.txt") hello (py_str "hunter2") store_3x3
  = Raise (BlueCrypt (CapacityExceeded (34 + len note_txt + len hello)
             (Z.max (im_width image_3x3 * im_height image_3x3 - 4) 0))).
Proof.
  refine (proj2 (proj2 (@hide_action_errors standin_sha256 standin_gcm store_3x3 image_3x3
            nonce_12 (py_str "note.txt") (py_str "hunter2") hello hunter2_key _ _)
            note_txt _ _) _ _).
  - reflexivity.
  - reflexivity.
  - discriminate.
  - reflexivity.
  - vm_compute. discriminate.
  - reflexivity.
Defined.

Lemma extract_action_result_witness :
  py_str "hunter2" <> []
  /\ 33 <= len (buffer (snd hidden_10x10) (im_data (fst hidden_10x10)))
  /\ filename (fst recovered_10x10) <> []
  /\ strip (filename (fst recovered_10x10)) = filename (fst recovered_10x10)
  /\ data (fst recovered_10x10) <> []
  /\ forall l : nat, (l < length (snd hidden_10x10))%nat ->
       snd recovered_10x10 !! l = snd hidden_10x10 !! l.
Proof.
  apply (@extract_action_result standin_sha256 standin_gcm (snd hidden_10x10)
           (fst hidden_10x10) (py_str "hunter2")
           (fst recovered_10x10) (snd recovered_10x10)).
  reflexivity.
Defined.
